(** * kptncook: the SQLite-backed recipe repository

    A shallow embedding of [src/kptncook/repositories.py]: the
    [RecipeRepository] class with its three tables (recipes, ingredients,
    recipe_ingredients), the canonical ingredient key, the upserts that
    [add] and [add_list] run inside one connection, and the read operations
    [list], [get], [list_ingredients] and [needs_to_be_synced]; and of the
    request handlers of [src/kptncook/web.py] that call the repository.

    Conventions of the model.
    - A recipe payload is an untyped JSON document ([json]); Python's
      [None] is [JNull].  Numbers are the integers; text is the string of
      its UTF-8 bytes.
    - [str.lower] and [str.split] are parameters of the repository
      ([str_lower], [str_split]): they follow the Unicode tables.  The
      functions [lower] and [split] below are what they compute on ASCII
      text, and a statement that says what a key looks like is about ASCII
      titles and says so.
    - Python exceptions are values of [exn]; a computation that may raise
      returns a [result].
    - The database file is a record of three row lists, in rowid order.  A
      connection carries the content on disk, the pending transaction and
      the trace of effects; the connection's context manager commits when
      its body returns and rolls back when it raises.
    - [json.dumps], [json.loads], [str] of a list or dict and the numeric
      coercion of the REAL column are parameters of the repository.
    - The source's [list] is [list_recipes] here, and the field [date] of
      [RecipeInDb] is [rdate]; the other names are the source's.

    The file has the model first, then the predicates in which the
    properties are stated, then the properties with their proofs, and at
    the end the repository run on concrete recipes. *)

From Stdlib Require Import ZArith List String Ascii Bool Lia.
From Stdlib Require Import DecimalString Permutation Sorted RelationClasses.
From Stdlib Require OrderedTypeEx.
Import ListNotations.

Set Warnings "-at-level-200-changed,-register-all,-abstract-large-number".

Open Scope string_scope.
Open Scope Z_scope.

(** ** Exceptions and results *)

Inductive exn : Type :=
| ValueError          (* raise ValueError(...) in the source; date.fromisoformat *)
| KeyError            (* d[k] on a dict without k *)
| TypeError           (* subscripting or iterating a value that does not support it *)
| AttributeError      (* .get / .lower on a value that has no such method *)
| OverflowError       (* an int that does not fit SQLite's 64-bit INTEGER *)
| ValidationError     (* pydantic model validation *)
| JSONDecodeError     (* json.loads on malformed text *)
| SqlBindingError     (* sqlite3: a parameter of an unsupported type *)
| SqlOperationalError (* sqlite3: no such table *)
| SqlIntegrityError   (* sqlite3: NOT NULL or FOREIGN KEY constraint failed *)
| IndexError.         (* l[0] on an empty list *)

Inductive result (A : Type) : Type :=
| Ok (a : A)
| Raise (e : exn).

Arguments Ok {A} a.
Arguments Raise {A} e.

Definition result_bind {A B : Type} (m : result A) (k : A -> result B) : result B :=
  match m with
  | Ok a => k a
  | Raise e => Raise e
  end.

Notation "'let?' x ':=' m 'in' k" := (result_bind m (fun x => k))
  (at level 200, x name, m at level 100, k at level 200, right associativity).

(** ** JSON documents and the Python operations the source applies to them *)

Inductive json : Type :=
| JNull
| JBool (b : bool)
| JNum (n : Z)
| JStr (s : string)
| JArr (items : list json)
| JObj (fields : list (string * json)).

(** A Python dict: string keys, insertion order. *)
Definition dict : Type := list (string * json).

Fixpoint lookup (k : string) (d : dict) : option json :=
  match d with
  | [] => None
  | (k', v) :: rest => if String.eqb k k' then Some v else lookup k rest
  end.

(** [d.get(k, default)] on a dict. *)
Definition dict_get (d : dict) (k : string) (default : json) : json :=
  match lookup k d with
  | Some v => v
  | None => default
  end.

(** [v.get(k, default)]: only a dict has the method. *)
Definition py_get (v : json) (k : string) (default : json) : result json :=
  match v with
  | JObj d => Ok (dict_get d k default)
  | _ => Raise AttributeError
  end.

(** [v[k]] with a string key. *)
Definition py_getitem (v : json) (k : string) : result json :=
  match v with
  | JObj d =>
      match lookup k d with
      | Some x => Ok x
      | None => Raise KeyError
      end
  | _ => Raise TypeError
  end.

(** Truth value of a Python object, as [if v:] and [v or w] test it. *)
Definition truthy (v : json) : bool :=
  match v with
  | JNull => false
  | JBool b => b
  | JNum n => negb (n =? 0)
  | JStr s => negb (String.eqb s "")
  | JArr items => match items with [] => false | _ => true end
  | JObj d => match d with [] => false | _ => true end
  end.

(** [v or w]. *)
Definition py_or (v w : json) : json := if truthy v then v else w.

Fixpoint chars (s : string) : list json :=
  match s with
  | EmptyString => []
  | String c rest => JStr (String c EmptyString) :: chars rest
  end.

(** The items a [for] loop (here through [enumerate]) draws from a value:
    a list's items, a dict's keys, a string's characters. *)
Definition py_iter (v : json) : result (list json) :=
  match v with
  | JArr items => Ok items
  | JObj d => Ok (map (fun kv => JStr (fst kv)) d)
  | JStr s => Ok (chars s)
  | _ => Raise TypeError
  end.

(** Decimal rendering of an integer, as [str] of a Python int and as
    SQLite's conversion of an INTEGER to TEXT. *)
Definition decimal (n : Z) : string := NilZero.string_of_int (Z.to_int n).

(** ** Strings: what [str.lower] and [str.split] compute on ASCII text

    Python's [str.lower] and [str.split] work on Unicode text; the
    repository below takes them as parameters.  On a text of ASCII
    characters alone they are the two functions defined here: [lower]
    changes the letters A-Z, and [split] cuts at the ASCII whitespace. *)

(** A text of ASCII characters alone: every byte is below 128. *)
Definition is_ascii (s : string) : bool :=
  forallb (fun c => (N_of_ascii c <? 128)%N) (list_ascii_of_string s).

(** [lower s] is [s.lower()] for an ASCII text [s]: the letters A-Z
    become a-z.  It says nothing of a text with other characters, whose
    letters Python lower-cases too. *)
Definition is_upper (c : ascii) : bool :=
  let n := N_of_ascii c in ((65 <=? n) && (n <=? 90))%N.

Definition lower_char (c : ascii) : ascii :=
  if is_upper c then ascii_of_N (N_of_ascii c + 32) else c.

Fixpoint lower (s : string) : string :=
  match s with
  | EmptyString => EmptyString
  | String c rest => String (lower_char c) (lower rest)
  end.

(** The ASCII characters [str.split()] treats as whitespace: tab, line
    feed, vertical tab, form feed, carriage return, the four separators
    0x1c..0x1f and the space.  Unicode has more (the no-break space, the
    em space, ...), at which [str.split] cuts as well and [split] below
    does not. *)
Definition is_space (c : ascii) : bool :=
  let n := N_of_ascii c in
  (((9 <=? n) && (n <=? 13)) || ((28 <=? n) && (n <=? 32)))%N.

(** [split_from w s]: the words of [s], where [w] is the word being read
    (if any).  [split s] is [s.split()] for an ASCII text [s]: its
    maximal runs of non-whitespace. *)
Fixpoint split_from (w : option string) (s : string) : list string :=
  match s with
  | EmptyString => match w with Some x => [x] | None => [] end
  | String c rest =>
      if is_space c then
        match w with
        | Some x => x :: split_from None rest
        | None => split_from None rest
        end
      else
        match w with
        | Some x => split_from (Some (x ++ String c EmptyString)) rest
        | None => split_from (Some (String c EmptyString)) rest
        end
  end.

Definition split (s : string) : list string := split_from None s.

(** ["_".join(words)] is [String.concat "_" words]. *)
Definition join_underscore (words : list string) : string := String.concat "_" words.

(** The specification's wording of the title normalisation, read as a
    scanner: whitespace before the first word and after the last is
    dropped, every run of whitespace between two words becomes one
    underscore.  [started] records that a word has been written, [gap]
    that whitespace was met since. *)
Fixpoint collapse_from (started gap : bool) (s : string) : string :=
  match s with
  | EmptyString => EmptyString
  | String c rest =>
      if is_space c then collapse_from started started rest
      else if gap then String "_" (String c (collapse_from true false rest))
      else String c (collapse_from true false rest)
  end.

Definition collapse_whitespace (s : string) : string := collapse_from false false s.

(** ** Calendar dates: [datetime.date], [isoformat] and [fromisoformat] *)

Record date : Type := mkdate { year : Z; month : Z; day : Z }.

Definition is_leap (y : Z) : bool :=
  ((y mod 4 =? 0) && negb (y mod 100 =? 0)) || (y mod 400 =? 0).

Definition days_in_month (y m : Z) : Z :=
  if m =? 2 then (if is_leap y then 29 else 28)
  else if (m =? 4) || (m =? 6) || (m =? 9) || (m =? 11) then 30
  else 31.

(** The dates a [datetime.date] object can hold. *)
Definition valid_date (d : date) : bool :=
  (1 <=? year d) && (year d <=? 9999) &&
  (1 <=? month d) && (month d <=? 12) &&
  (1 <=? day d) && (day d <=? days_in_month (year d) (month d)).

Definition digit (n : Z) : ascii := ascii_of_N (48 + Z.to_N n).

(** [pad w n]: [n] on [w] decimal digits, zero-padded (the [%0wd] format). *)
Fixpoint pad (w : nat) (n : Z) : string :=
  match w with
  | O => EmptyString
  | S w' => pad w' (n / 10) ++ String (digit (n mod 10)) EmptyString
  end.

(** [d.isoformat()]: YYYY-MM-DD. *)
Definition isoformat (d : date) : string :=
  pad 4 (year d) ++ "-" ++ pad 2 (month d) ++ "-" ++ pad 2 (day d).

Definition digit_value (c : ascii) : option Z :=
  let n := N_of_ascii c in
  if ((48 <=? n) && (n <=? 57))%N then Some (Z.of_N n - 48) else None.

Fixpoint parse_digits (acc : Z) (s : string) : option Z :=
  match s with
  | EmptyString => Some acc
  | String c rest =>
      match digit_value c with
      | Some v => parse_digits (acc * 10 + v) rest
      | None => None
      end
  end.

Fixpoint split_at (n : nat) (s : string) : string * string :=
  match n, s with
  | S n', String c rest => let (a, b) := split_at n' rest in (String c a, b)
  | _, _ => (EmptyString, s)
  end.

(** [date.fromisoformat(s)] on the YYYY-MM-DD format that [isoformat]
    writes; any other text raises ValueError. *)
Definition fromisoformat (s : string) : result date :=
  let (y, r1) := split_at 4 s in
  let (sep1, r2) := split_at 1 r1 in
  let (m, r3) := split_at 2 r2 in
  let (sep2, dd) := split_at 1 r3 in
  if (Nat.eqb (String.length s) 10) && String.eqb sep1 "-" && String.eqb sep2 "-" then
    match parse_digits 0 y, parse_digits 0 m, parse_digits 0 dd with
    | Some yy, Some mm, Some d =>
        if valid_date (mkdate yy mm d) then Ok (mkdate yy mm d) else Raise ValueError
    | _, _, _ => Raise ValueError
    end
  else Raise ValueError.

(** Chronological comparison of dates. *)
Definition date_compare (a b : date) : comparison :=
  match year a ?= year b with
  | Eq => match month a ?= month b with
          | Eq => day a ?= day b
          | c => c
          end
  | c => c
  end.

(** ** SQLite values, parameter binding and column affinity *)

(** The storage classes the model uses: NULL, INTEGER and TEXT. *)
Inductive sqlval : Type :=
| SNull
| SInt (n : Z)
| SText (s : string).

(** What the sqlite3 module does with a Python object passed as a
    statement parameter: None, int (bool is an int) and str are bound,
    an int outside 64 bits overflows, a list or dict is refused. *)
Definition bind_param (v : json) : result sqlval :=
  match v with
  | JNull => Ok SNull
  | JBool b => Ok (SInt (if b then 1 else 0))
  | JNum n =>
      if (- 2 ^ 63 <=? n) && (n <? 2 ^ 63) then Ok (SInt n) else Raise OverflowError
  | JStr s => Ok (SText s)
  | JArr _ => Raise SqlBindingError
  | JObj _ => Raise SqlBindingError
  end.

(** A column declared TEXT stores a number as its text. *)
Definition text_affinity (v : sqlval) : sqlval :=
  match v with
  | SInt n => SText (decimal n)
  | _ => v
  end.

(** Five per-language values, in the column order en, de, es, fr, pt. *)
Record localized (A : Type) : Type :=
  Localized { en : A; de : A; es : A; fr : A; pt : A }.

Arguments Localized {A} en de es fr pt.
Arguments en {A} l.
Arguments de {A} l.
Arguments es {A} l.
Arguments fr {A} l.
Arguments pt {A} l.

Definition localized_map {A B : Type} (f : A -> B) (l : localized A) : localized B :=
  Localized (f (en l)) (f (de l)) (f (es l)) (f (fr l)) (f (pt l)).

(** Binding the five values of a localized tuple, in order. *)
Definition bind_localized (l : localized json) : result (localized sqlval) :=
  let? a := bind_param (en l) in
  let? b := bind_param (de l) in
  let? c := bind_param (es l) in
  let? d := bind_param (fr l) in
  let? e := bind_param (pt l) in
  Ok (Localized a b c d e).

(** ** The three tables *)

(** recipes(id TEXT PRIMARY KEY, date TEXT NOT NULL, title_en .. title_pt
    TEXT, raw_json TEXT NOT NULL).  SQLite lets a TEXT PRIMARY KEY be NULL,
    so [r_id] is a value; [date] and [raw_json] are bound from Python
    strings. *)
Record recipe_row : Type := RecipeRow {
  r_id : sqlval;
  r_date : string;
  r_title : localized sqlval;
  r_raw_json : string
}.

(** ingredients(key TEXT PRIMARY KEY, typ, category, and five TEXT
    columns for each of title, number_title and uncountable_title): the
    key is always a Python string. *)
Record ingredient_row : Type := IngredientRow {
  i_key : string;
  i_typ : sqlval;
  i_category : sqlval;
  i_title : localized sqlval;
  i_number_title : localized sqlval;
  i_uncountable_title : localized sqlval
}.

(** recipe_ingredients(recipe_id TEXT NOT NULL, ingredient_key TEXT NOT
    NULL, quantity REAL, measure TEXT, position INTEGER NOT NULL), primary
    key (recipe_id, position). *)
Record link_row : Type := LinkRow {
  l_recipe_id : string;
  l_ingredient_key : string;
  l_quantity : sqlval;
  l_measure : sqlval;
  l_position : nat
}.

(** The content of the database file.  [has_schema] is false for the empty
    file that SQLite creates when it opens a path that does not exist. *)
Record database : Type := Database {
  has_schema : bool;
  recipes : list recipe_row;
  ingredients : list ingredient_row;
  recipe_ingredients : list link_row
}.

Definition empty_file : database := Database false [] [] [].

Definition set_recipes (db : database) (rows : list recipe_row) : database :=
  Database (has_schema db) rows (ingredients db) (recipe_ingredients db).

Definition set_ingredients (db : database) (rows : list ingredient_row) : database :=
  Database (has_schema db) (recipes db) rows (recipe_ingredients db).

Definition set_recipe_ingredients (db : database) (rows : list link_row) : database :=
  Database (has_schema db) (recipes db) (ingredients db) rows.

(** Two primary-key values collide when they are equal and not NULL. *)
Definition pk_conflict (a b : sqlval) : bool :=
  match a, b with
  | SText x, SText y => String.eqb x y
  | SInt x, SInt y => x =? y
  | _, _ => false
  end.

(** INSERT INTO recipes ... ON CONFLICT(id) DO UPDATE SET date, title_en
    .. title_pt, raw_json = excluded.*: the row with the same id is
    updated in place, otherwise the new row is appended. *)
Fixpoint upsert_recipe_row (new : recipe_row) (rows : list recipe_row) : list recipe_row :=
  match rows with
  | [] => [new]
  | old :: rest =>
      if pk_conflict (r_id old) (r_id new) then
        {| r_id := r_id old;
           r_date := r_date new;
           r_title := r_title new;
           r_raw_json := r_raw_json new |} :: rest
      else old :: upsert_recipe_row new rest
  end.

(** INSERT INTO ingredients ... ON CONFLICT(key) DO UPDATE SET typ,
    category and the fifteen title columns = excluded.*. *)
Fixpoint upsert_ingredient_row (new : ingredient_row) (rows : list ingredient_row)
  : list ingredient_row :=
  match rows with
  | [] => [new]
  | old :: rest =>
      if String.eqb (i_key old) (i_key new) then
        {| i_key := i_key old;
           i_typ := i_typ new;
           i_category := i_category new;
           i_title := i_title new;
           i_number_title := i_number_title new;
           i_uncountable_title := i_uncountable_title new |} :: rest
      else old :: upsert_ingredient_row new rest
  end.

Definition same_link_key (a b : link_row) : bool :=
  String.eqb (l_recipe_id a) (l_recipe_id b) && Nat.eqb (l_position a) (l_position b).

(** INSERT INTO recipe_ingredients ... ON CONFLICT(recipe_id, position) DO
    UPDATE SET ingredient_key, quantity, measure = excluded.*. *)
Fixpoint upsert_link_row (new : link_row) (rows : list link_row) : list link_row :=
  match rows with
  | [] => [new]
  | old :: rest =>
      if same_link_key old new then
        {| l_recipe_id := l_recipe_id old;
           l_ingredient_key := l_ingredient_key new;
           l_quantity := l_quantity new;
           l_measure := l_measure new;
           l_position := l_position old |} :: rest
      else old :: upsert_link_row new rest
  end.

(** [WHERE id = ?] against a text parameter. *)
Definition id_is (s : string) (r : recipe_row) : bool := pk_conflict (r_id r) (SText s).

Definition has_recipe (s : string) (db : database) : bool := existsb (id_is s) (recipes db).

(** [WHERE key = ?]. *)
Definition key_is (k : string) (i : ingredient_row) : bool := String.eqb (i_key i) k.

Definition has_ingredient (k : string) (db : database) : bool :=
  existsb (key_is k) (ingredients db).

(** ** Ordering rows: ORDER BY *)

(** SQLite's order between values: NULL first, then numbers, then text by
    its bytes. *)
Definition sqlval_compare (a b : sqlval) : comparison :=
  match a, b with
  | SNull, SNull => Eq
  | SNull, _ => Lt
  | _, SNull => Gt
  | SInt x, SInt y => x ?= y
  | SInt _, SText _ => Lt
  | SText _, SInt _ => Gt
  | SText x, SText y => String.compare x y
  end.

Section Sorting.
Context {A : Type} (le : A -> A -> bool).

Fixpoint insert_sorted (x : A) (l : list A) : list A :=
  match l with
  | [] => [x]
  | y :: rest => if le x y then x :: y :: rest else y :: insert_sorted x rest
  end.

(** The rows of [l] in the order [le], rows that compare equal keeping
    their rowid order. *)
Definition order_by (l : list A) : list A := fold_right insert_sorted [] l.

End Sorting.

(** ORDER BY date DESC, id ASC. *)
Definition recipe_order (a b : recipe_row) : bool :=
  match String.compare (r_date a) (r_date b) with
  | Gt => true
  | Lt => false
  | Eq => match sqlval_compare (r_id a) (r_id b) with Gt => false | _ => true end
  end.

(** COALESCE(title_de, title_en, typ): the first that is not NULL. *)
Definition ingredient_sort_key (i : ingredient_row) : sqlval :=
  match de (i_title i) with
  | SNull => match en (i_title i) with
             | SNull => i_typ i
             | v => v
             end
  | v => v
  end.

Definition ingredient_order (a b : ingredient_row) : bool :=
  match sqlval_compare (ingredient_sort_key a) (ingredient_sort_key b) with
  | Gt => false
  | _ => true
  end.

(** ** Connections, transactions and the trace of effects *)

Inductive statement : Type :=
| CreateTables
| InsertRecipe
| DeleteLinks
| InsertIngredient
| InsertLink.

Inductive event : Type :=
| EvCopyBackup                (* shutil.copyfile(path, backup_path) *)
| EvBegin                     (* the implicit BEGIN before the first write *)
| EvExec (s : statement)      (* a statement that changed the database *)
| EvCommit
| EvRollback.

(** An open connection: the committed content of the file, the content as
    the open transaction sees it (if one is open), and the effects so
    far, oldest first. *)
Record connection : Type := Connection {
  on_disk : database;
  pending : option database;
  trace : list event
}.

(** What a statement run on the connection reads. *)
Definition current (c : connection) : database :=
  match pending c with
  | Some db => db
  | None => on_disk c
  end.

(** A computation on a connection: it may raise, and the connection
    outlives the exception. *)
Definition DB (A : Type) : Type := connection -> result A * connection.

Definition ret {A : Type} (a : A) : DB A := fun c => (Ok a, c).

Definition bind {A B : Type} (m : DB A) (k : A -> DB B) : DB B :=
  fun c =>
    match m c with
    | (Ok a, c') => k a c'
    | (Raise e, c') => (Raise e, c')
    end.

(** A computation that touches no connection. *)
Definition lift {A : Type} (r : result A) : DB A := fun c => (r, c).

Notation "x <- m ;; k" := (bind m (fun x => k))
  (at level 61, m at next level, right associativity).
Notation "m ;;; k" := (bind m (fun _ => k))
  (at level 61, right associativity).

(** [conn.execute] of an INSERT or DELETE.  The sqlite3 module opens a
    transaction before the first such statement; a statement that fails
    changes nothing and leaves the transaction open. *)
Definition execute_write (s : statement) (run : database -> result database) : DB unit :=
  fun c =>
    let began :=
      match pending c with
      | Some _ => trace c
      | None => (trace c ++ [EvBegin])%list
      end in
    if has_schema (current c) then
      match run (current c) with
      | Ok db' => (Ok tt, Connection (on_disk c) (Some db') (began ++ [EvExec s])%list)
      | Raise e => (Raise e, Connection (on_disk c) (Some (current c)) began)
      end
    else (Raise SqlOperationalError, c).

(** [conn.execute] of a SELECT, with [fetchall] or [fetchone]. *)
Definition execute_read {A : Type} (query : database -> A) : DB A :=
  fun c =>
    if has_schema (current c) then (Ok (query (current c)), c)
    else (Raise SqlOperationalError, c).

(** [conn.executescript] of the CREATE TABLE IF NOT EXISTS script: it
    commits what is pending and creates the tables that are missing. *)
Definition execute_schema_script : DB unit :=
  fun c =>
    let db := current c in
    (Ok tt,
     Connection
       (Database true (recipes db) (ingredients db) (recipe_ingredients db))
       None
       (trace c ++ [EvExec CreateTables])%list).

Definition commit (c : connection) : connection :=
  match pending c with
  | Some db => Connection db None (trace c ++ [EvCommit])%list
  | None => c
  end.

Definition rollback (c : connection) : connection :=
  match pending c with
  | Some _ => Connection (on_disk c) None (trace c ++ [EvRollback])%list
  | None => c
  end.

(** ** The files of a repository *)

(** The database file at [base_dir/kptncook.db] and its sibling
    [kptncook.db.backup] (absent or with a content), and the effects
    performed so far. *)
Record world : Type := World {
  db_file : option database;
  backup_file : option database;
  log : list event
}.

(** [create_backup]: copy the database file over the backup, when the
    database file exists. *)
Definition create_backup (w : world) : world :=
  match db_file w with
  | Some db => World (db_file w) (Some db) (log w ++ [EvCopyBackup])%list
  | None => w
  end.

(** [with self._connect() as conn: body]: [sqlite3.connect] opens the file
    (creating an empty one when it is missing), PRAGMA foreign_keys = ON
    turns on the foreign-key checks that the statements below perform, and
    the connection's context manager commits when the body returns and
    rolls back when it raises. *)
Definition _connect {A : Type} (body : DB A) (w : world) : result A * world :=
  let file := match db_file w with Some db => db | None => empty_file end in
  match body (Connection file None (log w)) with
  | (Ok a, c) =>
      let c' := commit c in (Ok a, World (Some (on_disk c')) (backup_file w) (trace c'))
  | (Raise e, c) =>
      let c' := rollback c in (Raise e, World (Some (on_disk c')) (backup_file w) (trace c'))
  end.

(** ** The records the repository hands out *)

(** [RecipeInDb]: pydantic checks that [data] is a dict. *)
Record RecipeInDb : Type := mkRecipe { rdate : date; data : dict }.

(** The [id] property: [self.data["_id"]["$oid"]]. *)
Definition RecipeInDb_id (r : RecipeInDb) : result json :=
  let? oid := py_getitem (JObj (data r)) "_id" in
  py_getitem oid "$oid".

(** Modelled from the spec: LocalizedString (kptncook/models.py is not
    among the sources) is a per-language mapping of a text field over the
    five languages en, de, es, fr, pt, each independently optional. *)
Definition LocalizedString : Type := localized (option string).

Record IngredientRecord : Type := mkIngredientRecord {
  key : string;
  typ : option string;
  category : option string;
  localized_title : LocalizedString;
  number_title : option LocalizedString;
  uncountable_title : option LocalizedString
}.

(** A column value read back into a field of type [str | None]. *)
Definition optional_text (v : sqlval) : result (option string) :=
  match v with
  | SNull => Ok None
  | SText s => Ok (Some s)
  | SInt _ => Raise ValidationError
  end.

(** [LocalizedString(en=row[..], de=row[..], ...)]. *)
Definition LocalizedString_of (l : localized sqlval) : result LocalizedString :=
  let? a := optional_text (en l) in
  let? b := optional_text (de l) in
  let? c := optional_text (es l) in
  let? d := optional_text (fr l) in
  let? e := optional_text (pt l) in
  Ok (Localized a b c d e).

Definition nonempty (v : option string) : bool :=
  match v with
  | Some s => negb (String.eqb s "")
  | None => false
  end.

(** [any(l.model_dump().values())]: some language holds a non-empty text. *)
Definition any_value (l : LocalizedString) : bool :=
  nonempty (en l) || nonempty (de l) || nonempty (es l) || nonempty (fr l) || nonempty (pt l).

(** ** A concrete JSON codec

    [json.dumps] and [json.loads] are parameters of the repository below.
    This printer and parser instantiate them in the examples: the printer
    writes the text [json.dumps] writes with its default separators, for
    documents whose strings need no escape; the parser reads that text
    back.  The same printer with Python's tokens and single quotes stands
    for [str] of a list or dict. *)

Definition dquote : string := String (ascii_of_nat 34) EmptyString.
Definition squote : string := String (ascii_of_nat 39) EmptyString.

Section Printer.
Variables (null true_ false_ quote : string).

Fixpoint print (v : json) : string :=
  match v with
  | JNull => null
  | JBool b => if b then true_ else false_
  | JNum n => decimal n
  | JStr s => quote ++ s ++ quote
  | JArr items => "[" ++ String.concat ", " (map print items) ++ "]"
  | JObj fields =>
      "{" ++ String.concat ", "
               (map (fun kv : string * json => let (k, x) := kv in quote ++ k ++ quote ++ ": " ++ print x)
                    fields)
          ++ "}"
  end.

End Printer.

Definition print_json : json -> string := print "null" "true" "false" dquote.
Definition print_repr : json -> string := print "None" "True" "False" squote.

Fixpoint strip_prefix (p s : string) : option string :=
  match p, s with
  | EmptyString, _ => Some s
  | String a p', String b s' => if Ascii.eqb a b then strip_prefix p' s' else None
  | _, _ => None
  end.

Fixpoint read_string (s : string) : option (string * string) :=
  match s with
  | EmptyString => None
  | String c rest =>
      if Ascii.eqb c (ascii_of_nat 34) then Some (EmptyString, rest)
      else match read_string rest with
           | Some (body, r) => Some (String c body, r)
           | None => None
           end
  end.

Fixpoint read_digits (s : string) : string * string :=
  match s with
  | String c rest =>
      match digit_value c with
      | Some _ => let (ds, r) := read_digits rest in (String c ds, r)
      | None => (EmptyString, s)
      end
  | EmptyString => (EmptyString, s)
  end.

Definition read_number (s : string) : option (json * string) :=
  let (neg, body) :=
    match s with
    | String "-" rest => (true, rest)
    | _ => (false, s)
    end in
  let (ds, r) := read_digits body in
  match ds, parse_digits 0 ds with
  | String _ _, Some n => Some (JNum (if neg then - n else n), r)
  | _, _ => None
  end.

Fixpoint parse_value (fuel : nat) (s : string) {struct fuel} : option (json * string) :=
  match fuel with
  | O => None
  | S fuel' =>
      match s with
      | EmptyString => None
      | String c rest =>
          if Ascii.eqb c "n" then option_map (pair JNull) (strip_prefix "null" s)
          else if Ascii.eqb c "t" then option_map (pair (JBool true)) (strip_prefix "true" s)
          else if Ascii.eqb c "f" then option_map (pair (JBool false)) (strip_prefix "false" s)
          else if Ascii.eqb c (ascii_of_nat 34) then
            match read_string rest with
            | Some (body, r) => Some (JStr body, r)
            | None => None
            end
          else if Ascii.eqb c "[" then
            match rest with
            | String "]" r => Some (JArr [], r)
            | _ => match parse_items fuel' rest with
                   | Some (items, r) => Some (JArr items, r)
                   | None => None
                   end
            end
          else if Ascii.eqb c "{" then
            match rest with
            | String "}" r => Some (JObj [], r)
            | _ => match parse_fields fuel' rest with
                   | Some (fields, r) => Some (JObj fields, r)
                   | None => None
                   end
            end
          else read_number s
      end
  end
with parse_items (fuel : nat) (s : string) {struct fuel} : option (list json * string) :=
  match fuel with
  | O => None
  | S fuel' =>
      match parse_value fuel' s with
      | Some (v, String "]" r) => Some ([v], r)
      | Some (v, String "," (String " " r)) =>
          match parse_items fuel' r with
          | Some (vs, r') => Some (v :: vs, r')
          | None => None
          end
      | _ => None
      end
  end
with parse_fields (fuel : nat) (s : string) {struct fuel} : option (dict * string) :=
  match fuel with
  | O => None
  | S fuel' =>
      match strip_prefix dquote s with
      | Some s1 =>
          match read_string s1 with
          | Some (k, s2) =>
              match strip_prefix ": " s2 with
              | Some s3 =>
                  match parse_value fuel' s3 with
                  | Some (v, String "}" r) => Some ([(k, v)], r)
                  | Some (v, String "," (String " " r)) =>
                      match parse_fields fuel' r with
                      | Some (kvs, r') => Some ((k, v) :: kvs, r')
                      | None => None
                      end
                  | _ => None
                  end
              | None => None
              end
          | None => None
          end
      | None => None
      end
  end.

Definition parse_json (s : string) : option json :=
  match parse_value (S (String.length s)) s with
  | Some (v, EmptyString) => Some v
  | _ => None
  end.

(** The REAL column keeps an integer or NULL as the number it was bound
    as; this choice stands for SQLite's coercion in the examples. *)
Definition as_bound (v : sqlval) : sqlval := v.

(** ** The repository *)

Section Repository.

(** Library functions the repository calls and the model leaves open:
    [json.dumps] and [json.loads], [str] of a list or dict, the numeric
    coercion SQLite applies to a value stored in the REAL column
    [quantity], and [str.lower] and [str.split] (without argument) of a
    title. *)
Variable json_dumps : json -> string.
Variable json_loads : string -> option json.
Variable py_repr : json -> string.
Variable real_affinity : sqlval -> sqlval.
Variable str_lower : string -> string.
Variable str_split : string -> list string.

(** [str(v)]. *)
Definition py_str (v : json) : string :=
  match v with
  | JNull => "None"
  | JBool true => "True"
  | JBool false => "False"
  | JNum n => decimal n
  | JStr s => s
  | _ => py_repr v
  end.

(** [_localized_values]: the values under en, de, es, fr, pt, in that
    order; a missing language is None. *)
Definition _localized_values (values : json) : result (localized json) :=
  let values := py_or values (JObj []) in
  let? a := py_get values "en" JNull in
  let? b := py_get values "de" JNull in
  let? c := py_get values "es" JNull in
  let? d := py_get values "fr" JNull in
  let? e := py_get values "pt" JNull in
  Ok (Localized a b c d e).

(** The loop of [_canonical_ingredient_key] over the languages: the first
    title that is truthy gives the key; running out of languages raises
    ValueError. *)
Fixpoint key_from_titles (localized_ : json) (langs : list string) : result string :=
  match langs with
  | [] => Raise ValueError
  | lang :: rest =>
      let? title := py_get localized_ lang JNull in
      if truthy title then
        match title with
        | JStr s => Ok (join_underscore (str_split (str_lower s)))
        | _ => Raise AttributeError
        end
      else key_from_titles localized_ rest
  end.

Definition languages : list string := ["en"; "de"; "es"; "fr"; "pt"].

Definition _canonical_ingredient_key (ingredient_details : json) : result string :=
  let? t := py_get ingredient_details "typ" JNull in
  if truthy t then
    let? t' := py_getitem ingredient_details "typ" in
    Ok (py_str t')
  else
    let? localized_ := py_get ingredient_details "localizedTitle" (JObj []) in
    key_from_titles localized_ languages.

(** The row the INSERT of [_upsert_ingredient] writes: the 18 parameters
    are bound in order, and every column has TEXT affinity. *)
Definition ingredient_row_of (k : string) (typ_ category_ : json)
    (localized_title_ number_title_ uncountable_title_ : localized json)
  : result ingredient_row :=
  let? t := bind_param typ_ in
  let? c := bind_param category_ in
  let? lt := bind_localized localized_title_ in
  let? nt := bind_localized number_title_ in
  let? ut := bind_localized uncountable_title_ in
  Ok {| i_key := k;
        i_typ := text_affinity t;
        i_category := text_affinity c;
        i_title := localized_map text_affinity lt;
        i_number_title := localized_map text_affinity nt;
        i_uncountable_title := localized_map text_affinity ut |}.

Definition sql_insert_ingredient (k : string) (typ_ category_ : json)
    (localized_title_ number_title_ uncountable_title_ : localized json)
    (db : database) : result database :=
  let? row := ingredient_row_of k typ_ category_
                localized_title_ number_title_ uncountable_title_ in
  Ok (set_ingredients db (upsert_ingredient_row row (ingredients db))).

Definition _upsert_ingredient (ingredient_details : json) : DB string :=
  k <- lift (_canonical_ingredient_key ingredient_details) ;;
  localized_title_ <-
    lift (let? v := py_get ingredient_details "localizedTitle" JNull in
          _localized_values v) ;;
  number_title_ <-
    lift (let? v := py_get ingredient_details "numberTitle" JNull in
          _localized_values v) ;;
  uncountable_title_ <-
    lift (let? v := py_get ingredient_details "uncountableTitle" JNull in
          _localized_values v) ;;
  typ_ <- lift (py_get ingredient_details "typ" JNull) ;;
  category_ <- lift (py_get ingredient_details "category" JNull) ;;
  execute_write InsertIngredient
    (sql_insert_ingredient k typ_ category_
       localized_title_ number_title_ uncountable_title_) ;;;
  ret k.

(** The row the INSERT of [_upsert_recipe] writes. *)
Definition recipe_row_of (recipe_id : json) (date_ : string)
    (localized_title_ : localized json) (raw_json : string) : result recipe_row :=
  let? i := bind_param recipe_id in
  let? lt := bind_localized localized_title_ in
  Ok {| r_id := text_affinity i;
        r_date := date_;
        r_title := localized_map text_affinity lt;
        r_raw_json := raw_json |}.

Definition sql_insert_recipe (recipe_id : json) (date_ : string)
    (localized_title_ : localized json) (raw_json : string)
    (db : database) : result database :=
  let? row := recipe_row_of recipe_id date_ localized_title_ raw_json in
  Ok (set_recipes db (upsert_recipe_row row (recipes db))).

(** [WHERE recipe_id = ?]: the parameter is compared as text; NULL equals
    nothing. *)
Definition link_of_recipe (i : sqlval) (l : link_row) : bool :=
  match text_affinity i with
  | SText s => String.eqb (l_recipe_id l) s
  | _ => false
  end.

(** DELETE FROM recipe_ingredients WHERE recipe_id = ?. *)
Definition sql_delete_links (recipe_id : json) (db : database) : result database :=
  let? i := bind_param recipe_id in
  Ok (set_recipe_ingredients db
        (filter (fun l => negb (link_of_recipe i l)) (recipe_ingredients db))).

(** The INSERT into recipe_ingredients: recipe_id is NOT NULL, and both
    foreign keys must name an existing row. *)
Definition sql_insert_link (recipe_id : json) (ingredient_key : string)
    (quantity measure : json) (position : nat) (db : database) : result database :=
  let? i := bind_param recipe_id in
  let? q := bind_param quantity in
  let? m := bind_param measure in
  match text_affinity i with
  | SText rid =>
      if has_recipe rid db && has_ingredient ingredient_key db then
        Ok (set_recipe_ingredients db
              (upsert_link_row
                 {| l_recipe_id := rid;
                    l_ingredient_key := ingredient_key;
                    l_quantity := real_affinity q;
                    l_measure := text_affinity m;
                    l_position := position |}
                 (recipe_ingredients db)))
      else Raise SqlIntegrityError
  | _ => Raise SqlIntegrityError
  end.

(** The [for position, ingredient in enumerate(...)] loop of
    [_upsert_recipe], from [position] on. *)
Fixpoint link_ingredients (recipe_id : json) (position : nat) (items : list json)
  : DB unit :=
  match items with
  | [] => ret tt
  | ingredient :: rest =>
      ingredient_details <- lift (py_get ingredient "ingredient" (JObj [])) ;;
      ingredient_key <- _upsert_ingredient ingredient_details ;;
      quantity <- lift (py_get ingredient "quantity" JNull) ;;
      measure <- lift (py_get ingredient "measure" JNull) ;;
      execute_write InsertLink
        (sql_insert_link recipe_id ingredient_key quantity measure position) ;;;
      link_ingredients recipe_id (S position) rest
  end.

Definition _upsert_recipe (recipe : RecipeInDb) : DB unit :=
  recipe_id <- lift (RecipeInDb_id recipe) ;;
  let raw_json := json_dumps (JObj (data recipe)) in
  localized_title_ <-
    lift (_localized_values (dict_get (data recipe) "localizedTitle" JNull)) ;;
  execute_write InsertRecipe
    (sql_insert_recipe recipe_id (isoformat (rdate recipe)) localized_title_ raw_json) ;;;
  execute_write DeleteLinks (sql_delete_links recipe_id) ;;;
  items <- lift (py_iter (dict_get (data recipe) "ingredients" (JArr []))) ;;
  link_ingredients recipe_id 0 items.

(** [_ensure_schema] and the constructor, which runs it. *)
Definition _ensure_schema (w : world) : world := snd (_connect execute_schema_script w).

Definition __init__ (w : world) : world := _ensure_schema w.

Definition add (recipe : RecipeInDb) (w : world) : result unit * world :=
  _connect (_upsert_recipe recipe) (create_backup w).

Fixpoint upsert_each (rs : list RecipeInDb) : DB unit :=
  match rs with
  | [] => ret tt
  | recipe :: rest => _upsert_recipe recipe ;;; upsert_each rest
  end.

Definition add_list (rs : list RecipeInDb) (w : world) : result unit * world :=
  _connect (upsert_each rs) (create_backup w).

(** [needs_to_be_synced]: SELECT 1 FROM recipes WHERE date = ? LIMIT 1,
    and the answer is whether no row came back. *)
Definition needs_to_be_synced (_date : date) (w : world) : result bool * world :=
  _connect
    (execute_read
       (fun db =>
          negb (existsb (fun r => String.eqb (r_date r) (isoformat _date)) (recipes db))))
    w.

(** [_rows_to_recipes]: each (date, raw_json) row becomes a record. *)
Fixpoint _rows_to_recipes (rows : list (string * string)) : result (list RecipeInDb) :=
  match rows with
  | [] => Ok []
  | (d, raw) :: rest =>
      let? d' := fromisoformat d in
      let? doc :=
        match json_loads raw with
        | Some v => Ok v
        | None => Raise JSONDecodeError
        end in
      let? r :=
        match doc with
        | JObj fields => Ok (mkRecipe d' fields)
        | _ => Raise ValidationError
        end in
      let? rs := _rows_to_recipes rest in
      Ok (r :: rs)
  end.

Definition selected (r : recipe_row) : string * string := (r_date r, r_raw_json r).

(** [list]: SELECT date, raw_json FROM recipes ORDER BY date DESC, id ASC. *)
Definition list_recipes (w : world) : result (list RecipeInDb) * world :=
  match _connect
          (execute_read (fun db => map selected (order_by recipe_order (recipes db)))) w with
  | (Ok rows, w') => (_rows_to_recipes rows, w')
  | (Raise e, w') => (Raise e, w')
  end.

(** [get]: SELECT date, raw_json FROM recipes WHERE id = ? LIMIT 1. *)
Definition get (recipe_id : string) (w : world) : result (option RecipeInDb) * world :=
  match _connect
          (execute_read
             (fun db => option_map selected (find (id_is recipe_id) (recipes db)))) w with
  | (Ok None, w') => (Ok None, w')
  | (Ok (Some row), w') =>
      (let? rs := _rows_to_recipes [row] in
       match rs with
       | r :: _ => Ok (Some r)
       | [] => Raise IndexError
       end, w')
  | (Raise e, w') => (Raise e, w')
  end.

(** One row of [list_ingredients] as an [IngredientRecord]. *)
Definition ingredient_record_of (row : ingredient_row) : result IngredientRecord :=
  let? localized_title_ := LocalizedString_of (i_title row) in
  let? number_title_ := LocalizedString_of (i_number_title row) in
  let? uncountable_title_ := LocalizedString_of (i_uncountable_title row) in
  let? typ_ := optional_text (i_typ row) in
  let? category_ := optional_text (i_category row) in
  Ok {| key := i_key row;
        typ := typ_;
        category := category_;
        localized_title := localized_title_;
        number_title :=
          if any_value number_title_ then Some number_title_ else None;
        uncountable_title :=
          if any_value uncountable_title_ then Some uncountable_title_ else None |}.

Fixpoint ingredient_records (rows : list ingredient_row) : result (list IngredientRecord) :=
  match rows with
  | [] => Ok []
  | row :: rest =>
      let? r := ingredient_record_of row in
      let? rs := ingredient_records rest in
      Ok (r :: rs)
  end.

(** [list_ingredients]: SELECT * FROM ingredients ORDER BY
    COALESCE(title_de, title_en, typ). *)
Definition list_ingredients (w : world) : result (list IngredientRecord) * world :=
  match _connect (execute_read (fun db => order_by ingredient_order (ingredients db))) w with
  | (Ok rows, w') => (ingredient_records rows, w')
  | (Raise e, w') => (Raise e, w')
  end.


(** Values a Python dict takes as keys: lists and dicts are unhashable. *)
Definition hashable (v : json) : bool :=
  match v with
  | JArr _ | JObj _ => false
  | _ => true
  end.

(** Equality of dict keys: Python's [==], under which True is 1 and
    False is 0. *)
Definition key_eq (a b : json) : bool :=
  match a, b with
  | JNull, JNull => true
  | JBool x, JBool y => Bool.eqb x y
  | JNum x, JNum y => Z.eqb x y
  | JBool x, JNum y => Z.eqb (if x then 1 else 0) y
  | JNum x, JBool y => Z.eqb x (if y then 1 else 0)
  | JStr x, JStr y => String.eqb x y
  | _, _ => false
  end.

(** A Python dict from ids to recipes, in insertion order. *)
Definition recipes_by_id : Type := list (json * RecipeInDb).

(** [by_id[k] = v]: an equal key keeps its place (and the key object it
    was first inserted with) and takes the new value; a new key goes to
    the end. *)
Fixpoint dict_setitem (k : json) (v : RecipeInDb) (d : recipes_by_id) : recipes_by_id :=
  match d with
  | [] => [(k, v)]
  | (k', v') :: rest =>
      if key_eq k' k then (k', v) :: rest else (k', v') :: dict_setitem k v rest
  end.

(** [by_id.get(k)]. *)
Definition dict_getitem (k : json) (d : recipes_by_id) : option RecipeInDb :=
  option_map snd (find (fun kv => key_eq (fst kv) k) d).

(** The loop of [list_by_id]: [by_id[recipe.id] = recipe] for each
    recipe; [recipe.id] may raise, and so does an unhashable id. *)
Fixpoint by_id_of (rs : list RecipeInDb) (by_id : recipes_by_id) : result recipes_by_id :=
  match rs with
  | [] => Ok by_id
  | recipe :: rest =>
      let? k := RecipeInDb_id recipe in
      if hashable k then by_id_of rest (dict_setitem k recipe by_id)
      else Raise TypeError
  end.

Definition list_by_id (w : world) : result recipes_by_id * world :=
  match list_recipes w with
  | (Ok rs, w') => (by_id_of rs [], w')
  | (Raise e, w') => (Raise e, w')
  end.

(** ** The web front end (web.py)

    The request handlers build a repository on the configured directory
    for every request and call it.  The upstream client and [parse_id]
    belong to kptncook/api.py, which is not among the sources: what they
    return or raise is a parameter here, and so is the request object
    that FastAPI hands to a handler. *)

Variable Request : Type.
Variable parse_id : string -> result json.
Variable list_today : result (list RecipeInDb).
Variable get_by_ids : list json -> result (list RecipeInDb).
Variable list_favorites : result json.

(** The values the handlers put into a template context. *)
Inductive context_value : Type :=
| CRequest (request : Request)
| CRecipes (recipes_ : list RecipeInDb)
| CRecipe (recipe : RecipeInDb)
| CIngredients (ingredients_ : list IngredientRecord)
| CValue (v : json).

Inductive response : Type :=
| TemplateResponse (name : string) (context : list (string * context_value))
| RedirectResponse (url : string) (status_code : Z).

(** How a handler ends: it returns a response, raises HTTPException, or
    lets another exception escape. *)
Inductive outcome : Type :=
| Returns (r : response)
| HTTPException (status_code : Z) (detail : string)
| Escapes (e : exn).

(** [get_repo]: RecipeRepository(settings.root), which runs the
    constructor on the directory. *)
Definition get_repo (w : world) : world := __init__ w.

Definition home (request : Request) (w : world) : outcome * world :=
  let repo := get_repo w in
  match list_recipes repo with
  | (Ok recipes_, w') =>
      (Returns (TemplateResponse "index.html"
                  [("request", CRequest request); ("recipes", CRecipes recipes_)]), w')
  | (Raise e, w') => (Escapes e, w')
  end.

Definition recipe_detail (request : Request) (recipe_id : string) (w : world)
  : outcome * world :=
  let repo := get_repo w in
  match get recipe_id repo with
  | (Ok None, w') => (HTTPException 404 "Recipe not found", w')
  | (Ok (Some recipe), w') =>
      (Returns
         (TemplateResponse "recipe.html"
            [("request", CRequest request);
             ("recipe", CRecipe recipe);
             ("localized_title", CValue (dict_get (data recipe) "localizedTitle" (JObj [])));
             ("ingredients", CValue (dict_get (data recipe) "ingredients" (JArr [])));
             ("steps", CValue (dict_get (data recipe) "steps" (JArr [])))]), w')
  | (Raise e, w') => (Escapes e, w')
  end.

(** The handler [list_ingredients] of web.py. *)
Definition ingredients_page (request : Request) (w : world) : outcome * world :=
  let repo := get_repo w in
  match list_ingredients repo with
  | (Ok ingredients_, w') =>
      (Returns (TemplateResponse "ingredients.html"
                  [("request", CRequest request);
                   ("ingredients", CIngredients ingredients_)]), w')
  | (Raise e, w') => (Escapes e, w')
  end.

Definition sync_today (w : world) : outcome * world :=
  match list_today with
  | Raise e => (Escapes e, w)
  | Ok recipes_ =>
      let repo := get_repo w in
      match add_list recipes_ repo with
      | (Ok _, w') => (Returns (RedirectResponse "/" 303), w')
      | (Raise e, w') => (Escapes e, w')
      end
  end.

Definition search_by_id (recipe_identifier : string) (w : world) : outcome * world :=
  match parse_id recipe_identifier with
  | Raise e => (Escapes e, w)
  | Ok JNull => (HTTPException 400 "Could not parse recipe id", w)
  | Ok parsed =>
      match get_by_ids [parsed] with
      | Raise e => (Escapes e, w)
      | Ok [] => (Returns (RedirectResponse "/" 303), w)
      | Ok recipes_ =>
          let repo := get_repo w in
          match add_list recipes_ repo with
          | (Ok _, w') => (Returns (RedirectResponse "/" 303), w')
          | (Raise e, w') => (Escapes e, w')
          end
      end
  end.

(** [[("oid", oid["identifier"]) for oid in favorites]], a tuple written
    as the list of its two items. *)
Fixpoint favorite_ids (favorites : list json) : result (list json) :=
  match favorites with
  | [] => Ok []
  | oid_ :: rest =>
      let? identifier := py_getitem oid_ "identifier" in
      let? ids := favorite_ids rest in
      Ok (JArr [JStr "oid"; identifier] :: ids)
  end.

Definition backup_favorites (w : world) : outcome * world :=
  match (let? favorites := list_favorites in
         let? items := py_iter favorites in
         let? ids := favorite_ids items in
         get_by_ids ids) with
  | Raise e => (Escapes e, w)
  | Ok recipes_ =>
      let repo := get_repo w in
      match add_list recipes_ repo with
      | (Ok _, w') => (Returns (RedirectResponse "/" 303), w')
      | (Raise e, w') => (Escapes e, w')
      end
  end.

(** * The vocabulary of the statements

    Predicates and functions in which the properties below are stated. *)

(** A computation is [tidy] when it leaves the committed content alone and
    only adds to the trace, and what it adds is no copy of the backup:
    true of everything [add] and [add_list] run inside their connection. *)
Definition tidy {A : Type} (m : DB A) : Prop :=
  forall c, on_disk (snd (m c)) = on_disk c /\
            exists t, trace (snd (m c)) = (trace c ++ t)%list /\ ~ In EvCopyBackup t.

(** The content [sqlite3.connect] finds: the file's, or that of the empty
    file it creates. *)
Definition opened (w : world) : database :=
  match db_file w with
  | Some db => db
  | None => empty_file
  end.

(** [keeps f m]: running [m] does not change what [f] reads from the
    database the connection sees, whether [m] returns or raises. *)
Definition keeps {X A : Type} (f : database -> X) (m : DB A) : Prop :=
  forall c, f (current (snd (m c))) = f (current c).

(** The links the DELETE of [_upsert_recipe] leaves. *)
Definition links_kept (i : sqlval) (db : database) : list link_row :=
  filter (fun l => negb (link_of_recipe i l)) (recipe_ingredients db).


(** A title value that is a text or missing. *)
Definition text_or_null (v : json) : bool :=
  match v with
  | JNull => true
  | JStr _ => true
  | _ => false
  end.

(** The five titles of an ingredient in the order en, de, es, fr, pt. *)
Definition titles_in_order (titles : dict) : list json :=
  map (fun lang => dict_get titles lang JNull) languages.

(** The first title that is a non-empty text. *)
Fixpoint spec_first_title (titles : list json) : option string :=
  match titles with
  | [] => None
  | JStr s :: rest => if String.eqb s "" then spec_first_title rest else Some s
  | _ :: rest => spec_first_title rest
  end.

(** The key as the specification derives it, for ASCII titles and with
    "has a typ" read as "has a typ that is not empty": the typ; failing
    that, the first non-empty title, its letters A-Z lower-cased and its
    whitespace collapsed; failing that too, the malformed-ingredient
    error. *)
Definition spec_key (d titles : dict) : result string :=
  let t := dict_get d "typ" JNull in
  if truthy t then Ok (py_str t)
  else
    match spec_first_title (titles_in_order titles) with
    | Some s => Ok (collapse_whitespace (lower s))
    | None => Raise ValueError
    end.

(** The same derivation with Python's own string functions, whatever the
    characters of the title: the words of the lower-cased title, joined
    by underscores. *)
Definition derived_key (d titles : dict) : result string :=
  let t := dict_get d "typ" JNull in
  if truthy t then Ok (py_str t)
  else
    match spec_first_title (titles_in_order titles) with
    | Some s => Ok (join_underscore (str_split (str_lower s)))
    | None => Raise ValueError
    end.

(** A title that, when it is a text, holds ASCII characters only. *)
Definition ascii_title (v : json) : bool :=
  match v with
  | JStr s => is_ascii s
  | _ => true
  end.

(** What is known of [str.lower] and [str.split] on ASCII text: they
    compute [lower] and [split]. *)
Definition python_strings : Prop :=
  forall s, is_ascii s = true -> str_lower s = lower s /\ str_split s = split s.

(** A value a TEXT column can hold. *)
Definition texty (v : sqlval) : bool :=
  match v with
  | SInt _ => false
  | _ => true
  end.

Definition texty_localized (l : localized sqlval) : bool :=
  texty (en l) && texty (de l) && texty (es l) && texty (fr l) && texty (pt l).

Definition text_columns (i : ingredient_row) : bool :=
  texty (i_typ i) && texty (i_category i) && texty_localized (i_title i) &&
  texty_localized (i_number_title i) && texty_localized (i_uncountable_title i).

(** The tables exist, no two recipe rows share an id, no two ingredient
    rows share a key, and the ingredient columns hold text or NULL. *)
Record consistent (db : database) : Prop := {
  has_tables : has_schema db = true;
  unique_ids : forall s, (List.length (filter (id_is s) (recipes db)) <= 1)%nat;
  unique_keys : forall k, (List.length (filter (key_is k) (ingredients db)) <= 1)%nat;
  text_only : forallb text_columns (ingredients db) = true
}.

(** The worlds a repository can be in: a fresh directory on which the
    constructor ran, and from there any run of the constructor, of [add]
    and of [add_list], on recipes that satisfy [P]. *)
Inductive reachable (P : RecipeInDb -> Prop) : world -> Prop :=
| reach_new : reachable P (__init__ (World None None []))
| reach_open w : reachable P w -> reachable P (__init__ w)
| reach_add recipe w :
    P recipe -> reachable P w -> reachable P (snd (add recipe w))
| reach_add_list rs w :
    Forall P rs -> reachable P w -> reachable P (snd (add_list rs w)).

Definition any_recipe (r : RecipeInDb) : Prop := True.

(** [preserves I m]: if [I] holds of the database the connection sees, it
    still does after [m], whether [m] returns or raises. *)
Definition preserves {A : Type} (I : database -> Prop) (m : DB A) : Prop :=
  forall c, I (current c) -> I (current (snd (m c))).

(** The ingredient row that [_upsert_ingredient] writes for an ingredient
    object: a function of that object alone. *)
Definition ingredient_row_for (details : json) : result ingredient_row :=
  let? k := _canonical_ingredient_key details in
  let? localized_title_ :=
    (let? v := py_get details "localizedTitle" JNull in _localized_values v) in
  let? number_title_ :=
    (let? v := py_get details "numberTitle" JNull in _localized_values v) in
  let? uncountable_title_ :=
    (let? v := py_get details "uncountableTitle" JNull in _localized_values v) in
  let? typ_ := py_get details "typ" JNull in
  let? category_ := py_get details "category" JNull in
  ingredient_row_of k typ_ category_ localized_title_ number_title_ uncountable_title_.

(** What a TEXT column holds once a Python value was stored in it: a
    text as it is, an integer as its decimal text, True and False as 1
    and 0, and NULL for None (lists and dicts cannot be stored). *)
Definition column_text (v : json) : sqlval :=
  match v with
  | JStr s => SText s
  | JNum n => SText (decimal n)
  | JBool b => SText (decimal (if b then 1 else 0))
  | _ => SNull
  end.

(** The five columns of a localized mapping: the value under each
    language, NULL for a language that is missing; all NULL when there is
    no mapping. *)
Definition title_columns (v : json) : localized sqlval :=
  match v with
  | JObj t =>
      Localized (column_text (dict_get t "en" JNull))
                (column_text (dict_get t "de" JNull))
                (column_text (dict_get t "es" JNull))
                (column_text (dict_get t "fr" JNull))
                (column_text (dict_get t "pt" JNull))
  | _ => Localized SNull SNull SNull SNull SNull
  end.


(** The recipe row that holds the recipe, column by column: its id, the
    ISO text of its date, its five titles and its payload as
    [json.dumps] writes it. *)
Definition recipe_columns (rid : string) (recipe : RecipeInDb) : recipe_row :=
  {| r_id := SText rid;
     r_date := isoformat (rdate recipe);
     r_title := title_columns (dict_get (data recipe) "localizedTitle" JNull);
     r_raw_json := json_dumps (JObj (data recipe)) |}.



(** The link row the loop of [_upsert_recipe] writes for the ingredient
    at [position]: a function of that list entry alone. *)
Definition link_row_for (rid : string) (position : nat) (ingredient : json)
  : result link_row :=
  let? details := py_get ingredient "ingredient" (JObj []) in
  let? k := _canonical_ingredient_key details in
  let? quantity := py_get ingredient "quantity" JNull in
  let? measure := py_get ingredient "measure" JNull in
  let? q := bind_param quantity in
  let? m := bind_param measure in
  Ok {| l_recipe_id := rid;
        l_ingredient_key := k;
        l_quantity := real_affinity q;
        l_measure := text_affinity m;
        l_position := position |}.

Fixpoint link_rows_for (rid : string) (position : nat) (items : list json)
  : result (list link_row) :=
  match items with
  | [] => Ok []
  | item :: rest =>
      let? l := link_row_for rid position item in
      let? ls := link_rows_for rid (S position) rest in
      Ok (l :: ls)
  end.

(** [WHERE recipe_id = rid]. *)
Definition links_of (rid : string) (db : database) : list link_row :=
  filter (link_of_recipe (SText rid)) (recipe_ingredients db).

(** The links of the other recipes. *)
Definition links_of_others (rid : string) (db : database) : list link_row :=
  filter (fun l => negb (link_of_recipe (SText rid) l)) (recipe_ingredients db).

(** The effects of an [add] that returns, in order. *)
Definition effects_of_add (items : list json) : list event :=
  ([EvCopyBackup; EvBegin; EvExec InsertRecipe; EvExec DeleteLinks]
   ++ flat_map (fun _ => [EvExec InsertIngredient; EvExec InsertLink]) items
   ++ [EvCommit])%list.

(** No link of recipe [rid] sits at [position] or beyond. *)
Definition below (rid : string) (position : nat) (rows : list link_row) : Prop :=
  forall l, In l rows -> l_recipe_id l = rid -> (l_position l < position)%nat.

(** A column that holds no text: NULL or the empty string. *)
Definition empty_field (v : sqlval) : bool :=
  match v with
  | SNull => true
  | SText s => String.eqb s ""
  | SInt _ => false
  end.

Definition all_empty (l : localized sqlval) : bool :=
  empty_field (en l) && empty_field (de l) && empty_field (es l) &&
  empty_field (fr l) && empty_field (pt l).

(** How [list_ingredients] reports the five columns of a plural form:
    absent when every column is NULL or empty, and otherwise the mapping
    of the columns as they are stored. *)
Definition reported (cols : localized sqlval) (out : option LocalizedString) : Prop :=
  exists l, LocalizedString_of cols = Ok l /\
            out = if all_empty cols then None else Some l.

(** What one returned record says of the row it was read from. *)
Definition reports (row : ingredient_row) (rec : IngredientRecord) : Prop :=
  key rec = i_key row /\
  reported (i_number_title row) (number_title rec) /\
  reported (i_uncountable_title row) (uncountable_title rec).

(** A recipe a caller may add: its date is one a [datetime.date] can
    hold, its payload carries a string at [_id.$oid], and [json.loads]
    reads the payload back from what [json.dumps] writes. *)
Definition valid_input (r : RecipeInDb) : Prop :=
  valid_date (rdate r) = true /\
  (exists s, RecipeInDb_id r = Ok (JStr s)) /\
  json_loads (json_dumps (JObj (data r))) = Some (JObj (data r)).

(** The id of a recipe with a string id. *)
Definition id_text (r : RecipeInDb) : string :=
  match RecipeInDb_id r with
  | Ok (JStr s) => s
  | _ => EmptyString
  end.

(** The row holds the recipe. *)
Definition stored_as (r : RecipeInDb) (row : recipe_row) : Prop :=
  valid_input r /\
  r_id row = SText (id_text r) /\
  r_date row = isoformat (rdate r) /\
  r_raw_json row = json_dumps (JObj (data r)).

(** Every recipe row holds a recipe that was added. *)
Definition decodable (db : database) : Prop :=
  Forall (fun row => exists r, stored_as r row) (recipes db).

(** The order of [list]: later dates first, and on one date the smaller
    id (by its bytes) first. *)
Definition listed_before (a b : RecipeInDb) : bool :=
  match date_compare (rdate a) (rdate b) with
  | Gt => true
  | Lt => false
  | Eq => String.leb (id_text a) (id_text b)
  end.

(** A value the sqlite3 module accepts as a parameter. *)
Definition bindable (v : json) : bool :=
  match bind_param v with
  | Ok _ => true
  | Raise _ => false
  end.

(** A localized mapping [_localized_values] and the INSERT accept: an
    object whose five languages hold bindable values, or a falsy value
    (which stands for no mapping). *)
Definition shaped_titles (v : json) : bool :=
  match v with
  | JObj d => forallb (fun lang => bindable (dict_get d lang JNull)) languages
  | _ => negb (truthy v)
  end.

(** The titles the key derivation reads when there is no typ: no
    localizedTitle at all, or an object with texts (or nothing) under the
    five languages. *)
Definition shaped_key_titles (d : dict) : bool :=
  match lookup "localizedTitle" d with
  | None => true
  | Some (JObj t) => forallb text_or_null (titles_in_order t)
  | Some _ => false
  end.

Definition shaped_details (details : json) : bool :=
  match details with
  | JObj d =>
      bindable (dict_get d "typ" JNull) &&
      bindable (dict_get d "category" JNull) &&
      shaped_titles (dict_get d "localizedTitle" JNull) &&
      shaped_titles (dict_get d "numberTitle" JNull) &&
      shaped_titles (dict_get d "uncountableTitle" JNull) &&
      (truthy (dict_get d "typ" JNull) || shaped_key_titles d)
  | _ => false
  end.

(** An entry of the ingredient list of the shape the upstream client
    supplies: an object with an ingredient object of bindable fields, a
    bindable quantity and a bindable measure. *)
Definition shaped_entry (item : json) : bool :=
  match item with
  | JObj e =>
      shaped_details (dict_get e "ingredient" (JObj [])) &&
      bindable (dict_get e "quantity" JNull) &&
      bindable (dict_get e "measure" JNull)
  | _ => false
  end.

(** An ingredient object without a typ (none, or an empty one) and
    without any non-empty localized title. *)
Definition keyless_details (details : json) : bool :=
  match details with
  | JObj d =>
      negb (truthy (dict_get d "typ" JNull)) &&
      match dict_get d "localizedTitle" (JObj []) with
      | JObj t => negb (existsb truthy (titles_in_order t))
      | _ => false
      end
  | _ => false
  end.

Definition keyless (item : json) : bool :=
  match item with
  | JObj e => keyless_details (dict_get e "ingredient" (JObj []))
  | _ => false
  end.

(** A connection on which a link of recipe [rid] can be inserted: the
    tables exist and the recipe has its row. *)
Definition linkable (rid : string) (c : connection) : Prop :=
  has_schema (current c) = true /\ has_recipe rid (current c) = true.

(** The recipe with id [s] has a row. *)
Definition holds_recipe (s : string) (db : database) : Prop := has_recipe s db = true.

(** The two foreign keys of a link name existing rows. *)
Definition link_resolves (db : database) (l : link_row) : bool :=
  has_recipe (l_recipe_id l) db && has_ingredient (l_ingredient_key l) db.

(** FOREIGN KEY (recipe_id) REFERENCES recipes(id) and FOREIGN KEY
    (ingredient_key) REFERENCES ingredients(key) hold of every link. *)
Definition references_hold (db : database) : Prop :=
  forallb (link_resolves db) (recipe_ingredients db) = true.

(** [view_only m]: the outcome of [m] and the database it leaves in view
    depend only on the database the connection sees, not on whether a
    transaction is open nor on what is committed. *)
Definition view_only {A : Type} (m : DB A) : Prop :=
  forall c1 c2, current c1 = current c2 ->
                fst (m c1) = fst (m c2) /\ current (snd (m c1)) = current (snd (m c2)).

(** The loop [for recipe in recipes: repository.add(recipe)]: one call
    of [add] for each recipe, given up at the first that raises. *)
Fixpoint add_each (rs : list RecipeInDb) (w : world) : result unit * world :=
  match rs with
  | [] => (Ok tt, w)
  | recipe :: rest =>
      match add recipe w with
      | (Ok _, w') => add_each rest w'
      | (Raise e, w') => (Raise e, w')
      end
  end.

(** The title under which [list_ingredients] sorts a record: the German
    title, else the English one, else the typ. *)
Definition shown_title (r : IngredientRecord) : option string :=
  match de (localized_title r) with
  | Some s => Some s
  | None => match en (localized_title r) with
            | Some s => Some s
            | None => typ r
            end
  end.

(** The order of [list_ingredients]: records without any of the three
    first, then by the bytes of the title. *)
Definition ingredient_listed_before (a b : IngredientRecord) : bool :=
  match shown_title a, shown_title b with
  | None, _ => true
  | Some _, None => false
  | Some x, Some y => String.leb x y
  end.

(** A field of type [str | None] as the column it was read from. *)
Definition column_of (o : option string) : sqlval :=
  match o with
  | Some s => SText s
  | None => SNull
  end.

(** Two databases hold the same rows in each of the three tables. *)
Definition same_rows (a b : database) : Prop :=
  recipes a = recipes b /\
  ingredients a = ingredients b /\
  recipe_ingredients a = recipe_ingredients b.

(** What the handlers that store recipes guarantee, from the state [w]
    they started on: the only response they return is the redirect to
    the home page; when they do not return, the tables hold the rows they
    held; and a stored recipe stays stored in any case. *)
Definition stores_all_or_nothing (w : world) (res : outcome * world) : Prop :=
  (forall r, fst res = Returns r -> r = RedirectResponse "/" 303) /\
  ((forall r, fst res <> Returns r) -> same_rows (opened (snd res)) (opened w)) /\
  (forall s, has_recipe s (opened w) = true -> has_recipe s (opened (snd res)) = true).

(** [hoare P m Q R]: run on a connection that sees a database satisfying
    [P], the computation [m] leaves in view a database satisfying [Q a]
    when it returns [a], and one satisfying [R] when it raises. *)
Definition hoare {A : Type} (P : database -> Prop) (m : DB A)
    (Q : A -> database -> Prop) (R : database -> Prop) : Prop :=
  forall c, P (current c) ->
            match m c with
            | (Ok a, c') => Q a (current c')
            | (Raise _, c') => R (current c')
            end.

(** The links of every recipe sit at the positions 0, 1, 2, .. in the
    order of the table. *)
Definition positions_in_order (db : database) : Prop :=
  forall rid, map l_position (links_of rid db) = seq 0 (List.length (links_of rid db)).

(** The text a recipe id is stored as in the column recipe_id, if it is
    stored as a text. *)
Definition link_target (recipe_id : json) : option string :=
  match bind_param recipe_id with
  | Ok i => match text_affinity i with
            | SText s => Some s
            | _ => None
            end
  | Raise _ => None
  end.

(** The state of the loop of [_upsert_recipe] before the ingredient at
    [position]: the recipe has [position] links. *)
Definition linked_up_to (recipe_id : json) (position : nat) (db : database) : Prop :=
  positions_in_order db /\
  forall rid, link_target recipe_id = Some rid ->
              List.length (links_of rid db) = position.

(** A character a derived key can hold: no whitespace, no upper-case
    ASCII letter. *)
Definition key_char (c : ascii) : bool := negb (is_space c) && negb (is_upper c).

(** A text in the form of a derived key. *)
Definition normal_key (k : string) : bool := forallb key_char (list_ascii_of_string k).

(** A text of whitespace only. *)
Definition blank (s : string) : bool := forallb is_space (list_ascii_of_string s).

(** * Properties *)

(** ** Running a computation on a connection *)

Lemma bind_ok {A B : Type} (m : DB A) (k : A -> DB B) c b c' :
  bind m k c = (Ok b, c') ->
  exists a c1, m c = (Ok a, c1) /\ k a c1 = (Ok b, c').
Proof.
  unfold bind. destruct (m c) as [[a | e] c1]; intros H.
  - exists a, c1. split; [reflexivity | exact H].
  - discriminate H.
Qed.

Lemma bind_step {A B : Type} (m : DB A) (k : A -> DB B) c a c1 :
  m c = (Ok a, c1) -> bind m k c = k a c1.
Proof. unfold bind. intros ->. reflexivity. Qed.

Lemma bind_stop {A B : Type} (m : DB A) (k : A -> DB B) c e c1 :
  m c = (Raise e, c1) -> bind m k c = (Raise e, c1).
Proof. unfold bind. intros ->. reflexivity. Qed.

Lemma lift_ok {A : Type} (r : result A) c a c' :
  lift r c = (Ok a, c') -> r = Ok a /\ c' = c.
Proof. unfold lift. intros H. inversion H. split; reflexivity. Qed.

Lemma execute_write_ok s run c c' :
  execute_write s run c = (Ok tt, c') ->
  has_schema (current c) = true /\
  exists db', run (current c) = Ok db' /\
              on_disk c' = on_disk c /\ pending c' = Some db'.
Proof.
  unfold execute_write. destruct (has_schema (current c)); [| discriminate].
  destruct (run (current c)) as [db' | e]; intros H; inversion H; subst.
  split; [reflexivity |]. exists db'. repeat split.
Qed.

Lemma no_copy_app (t t' : list event) :
  ~ In EvCopyBackup t -> ~ In EvCopyBackup t' -> ~ In EvCopyBackup (t ++ t').
Proof. intros H H' Hin. apply in_app_or in Hin. tauto. Qed.

Lemma no_copy_one (e : event) : e <> EvCopyBackup -> ~ In EvCopyBackup [e].
Proof. intros H [Heq | []]. congruence. Qed.

Lemma tidy_same {A : Type} (m : DB A) :
  (forall c, snd (m c) = c) -> tidy m.
Proof.
  intros H c. rewrite H. split; [reflexivity |].
  exists []. split; [now rewrite app_nil_r | intros []].
Qed.

Lemma tidy_ret {A : Type} (a : A) : tidy (ret a).
Proof. apply tidy_same. reflexivity. Qed.

Lemma tidy_lift {A : Type} (r : result A) : tidy (lift r).
Proof. apply tidy_same. reflexivity. Qed.

Lemma tidy_bind {A B : Type} (m : DB A) (k : A -> DB B) :
  tidy m -> (forall a, tidy (k a)) -> tidy (bind m k).
Proof.
  intros Hm Hk c. unfold bind. specialize (Hm c).
  destruct (m c) as [[a | e] c1]; simpl in Hm.
  - destruct Hm as [Hd [t [Ht Hn]]]. destruct (Hk a c1) as [Hd' [t' [Ht' Hn']]].
    split; [congruence |]. exists (t ++ t')%list. split.
    + rewrite Ht', Ht. now rewrite app_assoc.
    + now apply no_copy_app.
  - exact Hm.
Qed.

Lemma tidy_execute_write s run : tidy (execute_write s run).
Proof.
  intros c. unfold execute_write.
  destruct (has_schema (current c)).
  - destruct (run (current c)); simpl; (split; [reflexivity |]);
      destruct (pending c).
    + exists [EvExec s]. split; [reflexivity | now apply no_copy_one].
    + exists [EvBegin; EvExec s]. split; [now rewrite <- app_assoc |].
      intros [H | [H | []]]; discriminate.
    + exists []. split; [now rewrite app_nil_r | intros []].
    + exists [EvBegin]. split; [reflexivity | now apply no_copy_one].
  - simpl. split; [reflexivity |]. exists []. split; [now rewrite app_nil_r | intros []].
Qed.

Lemma tidy_execute_read {A : Type} (q : database -> A) : tidy (execute_read q).
Proof.
  apply tidy_same. intros c. unfold execute_read.
  destruct (has_schema (current c)); reflexivity.
Qed.

Create HintDb tidy.
#[local] Hint Resolve tidy_ret tidy_lift tidy_execute_write tidy_execute_read : tidy.

Ltac tidy_steps :=
  repeat first [ apply tidy_bind; [| intros ? ] | solve [ auto with tidy ] ].

Lemma tidy_upsert_ingredient details : tidy (_upsert_ingredient details).
Proof. unfold _upsert_ingredient. tidy_steps. Qed.

Lemma tidy_link_ingredients recipe_id items :
  forall position, tidy (link_ingredients recipe_id position items).
Proof.
  induction items as [| ingredient rest IH]; intros position; simpl.
  - apply tidy_ret.
  - tidy_steps; first [ apply tidy_upsert_ingredient | apply IH ].
Qed.

Lemma tidy_upsert_recipe recipe : tidy (_upsert_recipe recipe).
Proof. unfold _upsert_recipe. tidy_steps. apply tidy_link_ingredients. Qed.

Lemma tidy_upsert_each rs : tidy (upsert_each rs).
Proof.
  induction rs as [| r rest IH]; simpl.
  - apply tidy_ret.
  - apply tidy_bind; [apply tidy_upsert_recipe | intros _; exact IH].
Qed.

Lemma opened_some w db : db_file w = Some db -> opened w = db.
Proof. unfold opened. now intros ->. Qed.

Lemma opened_create_backup w : opened (create_backup w) = opened w.
Proof.
  unfold create_backup, opened. destruct (db_file w) eqn:E; simpl; [reflexivity |].
  now rewrite E.
Qed.

(** What the context manager leaves in the files, by the outcome of the
    body. *)
Lemma connect_raise {A : Type} (body : DB A) w e w' :
  tidy body ->
  _connect body w = (Raise e, w') ->
  db_file w' = Some (opened w) /\ backup_file w' = backup_file w.
Proof.
  intros Ht. unfold _connect. fold (opened w).
  destruct (Ht (Connection (opened w) None (log w))) as [Hd _].
  destruct (body (Connection (opened w) None (log w))) as [[a | e0] c]; intros H;
    inversion H; subst; clear H. simpl in *.
  unfold rollback. destruct (pending c); simpl; split; congruence.
Qed.

Lemma connect_ok {A : Type} (body : DB A) w a w' :
  tidy body ->
  _connect body w = (Ok a, w') ->
  exists c, body (Connection (opened w) None (log w)) = (Ok a, c) /\
            db_file w' = Some (current c) /\ backup_file w' = backup_file w.
Proof.
  intros Ht. unfold _connect. fold (opened w).
  destruct (Ht (Connection (opened w) None (log w))) as [Hd _].
  destruct (body (Connection (opened w) None (log w))) as [[a0 | e0] c]; intros H;
    inversion H; subst; clear H. simpl in *.
  exists c. split; [reflexivity |].
  unfold commit, current. destruct (pending c); simpl; repeat split; congruence.
Qed.

Lemma connect_effects {A : Type} (body : DB A) w :
  tidy body ->
  backup_file (snd (_connect body w)) = backup_file w /\
  exists t, log (snd (_connect body w)) = (log w ++ t)%list /\ ~ In EvCopyBackup t.
Proof.
  intros Ht. unfold _connect.
  set (file := match db_file w with Some db => db | None => empty_file end).
  destruct (Ht (Connection file None (log w))) as [_ [t [Hl Hn]]].
  destruct (body (Connection file None (log w))) as [[a | e] c]; simpl in *.
  - split; [reflexivity |]. unfold commit. destruct (pending c); simpl.
    + exists (t ++ [EvCommit])%list. split; [rewrite Hl; now rewrite app_assoc |].
      apply no_copy_app; [exact Hn | now apply no_copy_one].
    + exists t. now split.
  - split; [reflexivity |]. unfold rollback. destruct (pending c); simpl.
    + exists (t ++ [EvRollback])%list. split; [rewrite Hl; now rewrite app_assoc |].
      apply no_copy_app; [exact Hn | now apply no_copy_one].
    + exists t. now split.
Qed.

(** ** The backup is taken first (C9) *)

Lemma backup_then_connect {A : Type} (body : DB A) w db :
  tidy body -> db_file w = Some db ->
  backup_file (snd (_connect body (create_backup w))) = Some db /\
  exists t, log (snd (_connect body (create_backup w)))
            = (log w ++ EvCopyBackup :: t)%list /\ ~ In EvCopyBackup t.
Proof.
  intros Ht Hdb.
  destruct (connect_effects body (create_backup w) Ht) as [Hb [t [Hl Hn]]].
  unfold create_backup in *. rewrite Hdb in *. simpl in *.
  split; [exact Hb |]. exists t. split; [| exact Hn].
  rewrite Hl. now rewrite <- app_assoc.
Qed.

(** C9: every call of [add] and of [add_list] on a repository whose
    database file exists (the constructor creates it, and it exists in
    every reachable world, see [reachable_consistent]) copies that file
    to the backup before anything else: whatever the call then does, the
    backup afterwards holds the database as it was before the call (the
    previous backup is gone), the copy is the first effect of the call,
    so every statement the call executes comes after it, and the call
    copies once. *)
Theorem backup_precedes_every_write
    (recipe : RecipeInDb) (rs : list RecipeInDb) (w : world) (db : database) :
  db_file w = Some db ->
  (backup_file (snd (add recipe w)) = Some db /\
   exists t, log (snd (add recipe w)) = (log w ++ EvCopyBackup :: t)%list /\
             ~ In EvCopyBackup t) /\
  (backup_file (snd (add_list rs w)) = Some db /\
   exists t, log (snd (add_list rs w)) = (log w ++ EvCopyBackup :: t)%list /\
             ~ In EvCopyBackup t).
Proof.
  intros Hdb. split.
  - apply backup_then_connect; [apply tidy_upsert_recipe | exact Hdb].
  - apply backup_then_connect; [apply tidy_upsert_each | exact Hdb].
Qed.

(** ** A failing batch commits nothing (C10) *)

Lemma upsert_each_stops (pre post : list RecipeInDb) (r : RecipeInDb) c c1 e c2 :
  upsert_each pre c = (Ok tt, c1) ->
  _upsert_recipe r c1 = (Raise e, c2) ->
  upsert_each (pre ++ r :: post) c = (Raise e, c2).
Proof.
  revert c. induction pre as [| p pre IH]; intros c Hpre Hr; simpl in *.
  - inversion Hpre; subst. now apply bind_stop.
  - apply bind_ok in Hpre. destruct Hpre as [[] [c0 [Hp Hrest]]].
    rewrite (bind_step _ _ _ _ _ Hp). now apply IH.
Qed.

(** C10: [add_list] is all-or-nothing.  On a repository whose database
    file holds [db]: whenever the call raises, the file still holds [db]
    afterwards, so nothing of the batch is stored; and the call does raise
    as soon as one recipe of the batch raises, even when the recipes
    before it in the batch were processed without error. *)
Theorem add_list_all_or_nothing (rs : list RecipeInDb) (w : world) (db : database) :
  db_file w = Some db ->
  (forall e w', add_list rs w = (Raise e, w') -> db_file w' = Some db) /\
  (forall pre r post c1 e c2,
      rs = (pre ++ r :: post)%list ->
      upsert_each pre (Connection db None (log (create_backup w))) = (Ok tt, c1) ->
      _upsert_recipe r c1 = (Raise e, c2) ->
      fst (add_list rs w) = Raise e /\ db_file (snd (add_list rs w)) = Some db).
Proof.
  intros Hdb.
  assert (Hdb' : db_file (create_backup w) = Some db).
  { unfold create_backup. rewrite Hdb. reflexivity. }
  assert (Hfail : forall e w', add_list rs w = (Raise e, w') -> db_file w' = Some db).
  { intros e w' H. unfold add_list in H.
    destruct (connect_raise _ _ _ _ (tidy_upsert_each rs) H) as [Hf _].
    rewrite Hf, opened_create_backup. f_equal. now apply opened_some. }
  split; [exact Hfail |].
  intros pre r post c1 e c2 -> Hpre Hr.
  pose proof (upsert_each_stops pre post r _ _ _ _ Hpre Hr) as Hrun.
  assert (Hfst : fst (add_list (pre ++ r :: post) w) = Raise e).
  { unfold add_list, _connect. rewrite Hdb'. rewrite Hrun. reflexivity. }
  split; [exact Hfst |].
  apply (Hfail e). destruct (add_list (pre ++ r :: post) w) as [res w'].
  simpl in Hfst. now subst.
Qed.

(** ** What a statement leaves alone *)

Lemma result_bind_ok {A B : Type} (m : result A) (k : A -> result B) b :
  result_bind m k = Ok b -> exists a, m = Ok a /\ k a = Ok b.
Proof. destruct m as [a | e]; simpl; intros H; [now exists a | discriminate]. Qed.

Ltac result_inv H :=
  repeat match type of H with
         | result_bind _ _ = Ok _ =>
             let a := fresh "v" in
             let Ha := fresh "Hv" in
             apply result_bind_ok in H; destruct H as [a [Ha H]]
         end.

Lemma keeps_same {X A : Type} (f : database -> X) (m : DB A) :
  (forall c, snd (m c) = c) -> keeps f m.
Proof. intros H c. now rewrite H. Qed.

Lemma keeps_ret {X A : Type} (f : database -> X) (a : A) : keeps f (ret a).
Proof. now apply keeps_same. Qed.

Lemma keeps_lift {X A : Type} (f : database -> X) (r : result A) : keeps f (lift r).
Proof. now apply keeps_same. Qed.

Lemma keeps_bind {X A B : Type} (f : database -> X) (m : DB A) (k : A -> DB B) :
  keeps f m -> (forall a, keeps f (k a)) -> keeps f (bind m k).
Proof.
  intros Hm Hk c. unfold bind. specialize (Hm c).
  destruct (m c) as [[a | e] c1]; simpl in Hm; [| exact Hm].
  rewrite <- Hm. apply Hk.
Qed.

Lemma keeps_execute_write {X : Type} (f : database -> X) s run :
  (forall db db', run db = Ok db' -> f db' = f db) -> keeps f (execute_write s run).
Proof.
  intros Hrun c. unfold execute_write.
  destruct (has_schema (current c)); [| reflexivity].
  destruct (run (current c)) as [db' | e] eqn:E; simpl; [| reflexivity].
  now apply Hrun.
Qed.

Lemma insert_ingredient_frame k t c lt nt ut db db' :
  sql_insert_ingredient k t c lt nt ut db = Ok db' ->
  has_schema db' = has_schema db /\ recipes db' = recipes db /\
  recipe_ingredients db' = recipe_ingredients db.
Proof.
  unfold sql_insert_ingredient. intros H. result_inv H. inversion H. now subst.
Qed.

Lemma insert_recipe_frame i d lt raw db db' :
  sql_insert_recipe i d lt raw db = Ok db' ->
  has_schema db' = has_schema db /\ ingredients db' = ingredients db /\
  recipe_ingredients db' = recipe_ingredients db.
Proof.
  unfold sql_insert_recipe. intros H. result_inv H. inversion H. now subst.
Qed.

Lemma delete_links_frame i db db' :
  sql_delete_links i db = Ok db' ->
  has_schema db' = has_schema db /\ recipes db' = recipes db /\
  ingredients db' = ingredients db.
Proof.
  unfold sql_delete_links. intros H. result_inv H. inversion H. now subst.
Qed.

Lemma insert_link_frame i k q m p db db' :
  sql_insert_link i k q m p db = Ok db' ->
  has_schema db' = has_schema db /\ recipes db' = recipes db /\
  ingredients db' = ingredients db.
Proof.
  unfold sql_insert_link. intros H. result_inv H.
  destruct (text_affinity v); try discriminate.
  destruct (has_recipe s db && has_ingredient k db); try discriminate.
  inversion H. now subst.
Qed.

Ltac keeps_steps_with leaf :=
  repeat first [ leaf | apply keeps_ret | apply keeps_lift
               | apply keeps_bind; [| intros ? ] ].

Ltac keeps_steps := keeps_steps_with fail.

Lemma upsert_ingredient_keeps_schema details :
  keeps has_schema (_upsert_ingredient details).
Proof.
  unfold _upsert_ingredient. keeps_steps. apply keeps_execute_write.
  intros db db' H. now apply insert_ingredient_frame in H.
Qed.

Lemma upsert_ingredient_keeps_recipes details :
  keeps recipes (_upsert_ingredient details).
Proof.
  unfold _upsert_ingredient. keeps_steps. apply keeps_execute_write.
  intros db db' H. now apply insert_ingredient_frame in H.
Qed.

Lemma upsert_ingredient_keeps_links details :
  keeps recipe_ingredients (_upsert_ingredient details).
Proof.
  unfold _upsert_ingredient. keeps_steps. apply keeps_execute_write.
  intros db db' H. now apply insert_ingredient_frame in H.
Qed.

Lemma link_ingredients_keeps_schema recipe_id items :
  forall position, keeps has_schema (link_ingredients recipe_id position items).
Proof.
  induction items as [| ingredient rest IH]; intros position; simpl.
  - apply keeps_ret.
  - keeps_steps_with ltac:(first [apply IH | apply upsert_ingredient_keeps_schema]).
    apply keeps_execute_write. intros db db' H. now apply insert_link_frame in H.
Qed.

Lemma link_ingredients_keeps_recipes recipe_id items :
  forall position, keeps recipes (link_ingredients recipe_id position items).
Proof.
  induction items as [| ingredient rest IH]; intros position; simpl.
  - apply keeps_ret.
  - keeps_steps_with ltac:(first [apply IH | apply upsert_ingredient_keeps_recipes]).
    apply keeps_execute_write. intros db db' H. now apply insert_link_frame in H.
Qed.

(** ** A successful [_upsert_recipe], step by step *)

Lemma upsert_recipe_ok recipe c c' :
  _upsert_recipe recipe c = (Ok tt, c') ->
  exists recipe_id i lt row items c1,
    RecipeInDb_id recipe = Ok recipe_id /\
    bind_param recipe_id = Ok i /\
    _localized_values (dict_get (data recipe) "localizedTitle" JNull) = Ok lt /\
    recipe_row_of recipe_id (isoformat (rdate recipe)) lt
      (json_dumps (JObj (data recipe))) = Ok row /\
    py_iter (dict_get (data recipe) "ingredients" (JArr [])) = Ok items /\
    has_schema (current c) = true /\
    on_disk c1 = on_disk c /\
    current c1 =
      Database true
        (upsert_recipe_row row (recipes (current c)))
        (ingredients (current c))
        (links_kept i (current c)) /\
    link_ingredients recipe_id 0 items c1 = (Ok tt, c').
Proof.
  unfold _upsert_recipe. intros H.
  apply bind_ok in H. destruct H as [recipe_id [c0 [Hid H]]].
  apply lift_ok in Hid. destruct Hid as [Hid ->].
  apply bind_ok in H. destruct H as [lt [c0 [Hlt H]]].
  apply lift_ok in Hlt. destruct Hlt as [Hlt ->].
  apply bind_ok in H. destruct H as [[] [ca [Hins H]]].
  apply execute_write_ok in Hins. destruct Hins as [Hs [dba [Hrun [Hda Hpa]]]].
  apply bind_ok in H. destruct H as [[] [cb [Hdel H]]].
  apply execute_write_ok in Hdel. destruct Hdel as [Hs' [dbb [Hrun' [Hdb Hpb]]]].
  apply bind_ok in H. destruct H as [items [c0 [Hit H]]].
  apply lift_ok in Hit. destruct Hit as [Hit ->].
  unfold sql_insert_recipe in Hrun. result_inv Hrun. inversion Hrun; subst dba.
  assert (Hca : current ca = set_recipes (current c) (upsert_recipe_row v (recipes (current c)))).
  { unfold current at 1. now rewrite Hpa. }
  rewrite Hca in Hrun'. unfold sql_delete_links in Hrun'. result_inv Hrun'.
  inversion Hrun'; subst dbb.
  pose proof Hv as Hrow. unfold recipe_row_of in Hv. result_inv Hv.
  exists recipe_id, v0, lt, v, items, cb. repeat split; try assumption; try congruence.
  unfold links_kept. unfold current at 1. rewrite Hpb. unfold set_recipe_ingredients, set_recipes. simpl.
  rewrite Hs. reflexivity.
Qed.


(** ** What needs_to_be_synced reads *)




(** ** The canonical ingredient key (C3) *)

Lemma split_from_some_nonempty x s : split_from (Some x) s <> [].
Proof.
  revert x. induction s as [| c rest IH]; intros x; simpl; [discriminate |].
  destruct (is_space c); [discriminate | apply IH].
Qed.

Lemma append_nil_r (s : string) : (s ++ "")%string = s.
Proof. induction s; simpl; congruence. Qed.

Lemma append_assoc (a b c : string) : ((a ++ b) ++ c)%string = (a ++ (b ++ c))%string.
Proof. induction a; simpl; congruence. Qed.

Lemma join_split_from (s : string) :
  (forall x, join_underscore (split_from (Some x) s)
             = (x ++ collapse_from true false s)%string) /\
  (forall x, join_underscore (x :: split_from None s)
             = (x ++ collapse_from true true s)%string) /\
  join_underscore (split_from None s) = collapse_from false false s.
Proof.
  unfold join_underscore.
  induction s as [| c rest [IH1 [IH2 IH3]]]; simpl.
  - repeat split; intros; now rewrite ?append_nil_r.
  - destruct (is_space c); repeat split; intros; simpl.
    + apply IH2.
    + apply IH2.
    + apply IH3.
    + rewrite IH1. now rewrite append_assoc.
    + pose proof (split_from_some_nonempty (String c "") rest) as Hne.
      destruct (split_from (Some (String c "")) rest) as [| y l] eqn:E;
        [congruence |].
      rewrite <- E, IH1. reflexivity.
    + apply IH1.
Qed.

(** [title.lower().split()] joined by underscores is the title with its
    whitespace collapsed, as the specification words it. *)
Lemma join_split_collapse (s : string) :
  join_underscore (split s) = collapse_whitespace s.
Proof. apply join_split_from. Qed.

Lemma key_from_titles_spec (titles : dict) (langs : list string) :
  forallb text_or_null (map (fun lang => dict_get titles lang JNull) langs) = true ->
  key_from_titles (JObj titles) langs =
  match spec_first_title (map (fun lang => dict_get titles lang JNull) langs) with
  | Some s => Ok (join_underscore (str_split (str_lower s)))
  | None => Raise ValueError
  end.
Proof.
  induction langs as [| lang rest IH]; simpl; [reflexivity |].
  intros H. apply andb_prop in H. destruct H as [Hv Hrest].
  destruct (dict_get titles lang JNull) as [| | | s | |]; simpl in *;
    try discriminate; auto.
  destruct (String.eqb s ""); simpl; [auto | reflexivity].
Qed.

Lemma lower_char_ascii (c : ascii) :
  (N_of_ascii c <? 128)%N = true -> (N_of_ascii (lower_char c) <? 128)%N = true.
Proof. destruct c as [[] [] [] [] [] [] [] []]; intros H; try discriminate; reflexivity. Qed.

Lemma is_ascii_lower (s : string) : is_ascii s = true -> is_ascii (lower s) = true.
Proof.
  unfold is_ascii. induction s as [| c rest IH]; simpl; [reflexivity |].
  intros H. apply andb_prop in H. destruct H as [Hc Hrest].
  now rewrite (lower_char_ascii c Hc), IH.
Qed.

(** On an ASCII title Python's lower, split and join give the title
    lower-cased with its whitespace collapsed. *)
Lemma ascii_key (s : string) :
  python_strings -> is_ascii s = true ->
  join_underscore (str_split (str_lower s)) = collapse_whitespace (lower s).
Proof.
  intros Hpy Hs. destruct (Hpy s Hs) as [-> _].
  destruct (Hpy (lower s) (is_ascii_lower s Hs)) as [_ ->].
  apply join_split_collapse.
Qed.

Lemma first_title_ascii (titles : list json) (s : string) :
  forallb ascii_title titles = true -> spec_first_title titles = Some s ->
  is_ascii s = true.
Proof.
  induction titles as [| v rest IH]; simpl; [discriminate |].
  intros H Hfirst. apply andb_prop in H. destruct H as [Hv Hrest].
  destruct v as [| | | t | |]; auto.
  destruct (String.eqb t ""); [auto |]. inversion Hfirst; subst. exact Hv.
Qed.

(** C3, as amended: for an ingredient object whose localizedTitle is
    missing or an object with texts (or nothing) under the five
    languages, the key is derived as follows.  If the typ is present and
    not empty the key is that typ (its [str]; the typ itself when it is a
    string).  Otherwise the key is made from the first non-empty title in
    the order en, de, es, fr, pt: the words [str.split] finds in the
    title lower-cased by [str.lower], joined by underscores; when the
    titles are ASCII texts, that is the title with its letters A-Z
    lower-cased, the whitespace around it dropped and each run of
    whitespace inside it replaced by one underscore.  If there is no such
    title either, the derivation raises ValueError.  A typ that is
    present but empty counts as missing. *)
Theorem canonical_key_derivation (d titles : dict) :
  dict_get d "localizedTitle" (JObj []) = JObj titles ->
  forallb text_or_null (titles_in_order titles) = true ->
  _canonical_ingredient_key (JObj d) = derived_key d titles /\
  (python_strings -> forallb ascii_title (titles_in_order titles) = true ->
   _canonical_ingredient_key (JObj d) = spec_key d titles) /\
  (forall t, lookup "typ" d = Some (JStr t) -> t <> "" ->
             _canonical_ingredient_key (JObj d) = Ok t) /\
  (truthy (dict_get d "typ" JNull) = false ->
   spec_first_title (titles_in_order titles) = None ->
   _canonical_ingredient_key (JObj d) = Raise ValueError).
Proof.
  intros Htitles Hshape.
  assert (Hkey : _canonical_ingredient_key (JObj d) = derived_key d titles).
  { unfold _canonical_ingredient_key, derived_key, py_get, py_getitem.
    cbn [result_bind].
    destruct (truthy (dict_get d "typ" JNull)) eqn:Ht.
    - unfold dict_get in *. destruct (lookup "typ" d); [reflexivity | discriminate].
    - cbn [result_bind]. rewrite Htitles. now apply key_from_titles_spec. }
  split; [exact Hkey | split; [| split]].
  - intros Hpy Hascii. rewrite Hkey. unfold derived_key, spec_key.
    destruct (truthy (dict_get d "typ" JNull)); [reflexivity |].
    destruct (spec_first_title (titles_in_order titles)) as [s |] eqn:Hfirst;
      [| reflexivity].
    now rewrite (ascii_key s Hpy (first_title_ascii _ s Hascii Hfirst)).
  - intros t Ht Hne. rewrite Hkey. unfold derived_key, dict_get. rewrite Ht. simpl.
    destruct (String.eqb t "") eqn:E; [| reflexivity].
    apply String.eqb_eq in E. contradiction.
  - intros Ht Hnone. rewrite Hkey. unfold derived_key. now rewrite Ht, Hnone.
Qed.

(** ** Dates and their ISO text *)

Lemma N_of_digit (n : Z) : 0 <= n < 10 -> N_of_ascii (digit n) = (48 + Z.to_N n)%N.
Proof. intros H. unfold digit. apply N_ascii_embedding. lia. Qed.

Lemma digit_value_digit (n : Z) : 0 <= n < 10 -> digit_value (digit n) = Some n.
Proof.
  intros H. unfold digit_value. rewrite N_of_digit by exact H.
  replace ((48 <=? 48 + Z.to_N n)%N && (48 + Z.to_N n <=? 57)%N) with true.
  - f_equal. lia.
  - symmetry. apply andb_true_intro. split; apply N.leb_le; lia.
Qed.

Lemma digit_compare (a b : Z) :
  0 <= a < 10 -> 0 <= b < 10 -> Ascii.compare (digit a) (digit b) = (a ?= b).
Proof.
  intros Ha Hb. unfold Ascii.compare. rewrite !N_of_digit by assumption.
  destruct (Z.compare_spec a b) as [H | H | H].
  - subst. apply N.compare_refl.
  - apply N.compare_lt_iff. lia.
  - apply N.compare_gt_iff. lia.
Qed.

Lemma length_append (a b : string) :
  String.length (a ++ b) = (String.length a + String.length b)%nat.
Proof. induction a; simpl; congruence. Qed.

Lemma length_pad (w : nat) (n : Z) : String.length (pad w n) = w.
Proof.
  revert n. induction w as [| w IH]; intros n; simpl; [reflexivity |].
  rewrite length_append, IH. simpl. lia.
Qed.

Lemma split_at_append (p q : string) : split_at (String.length p) (p ++ q) = (p, q).
Proof.
  induction p as [| c p IH]; simpl.
  - destruct q; reflexivity.
  - now rewrite IH.
Qed.

Lemma parse_digits_append (p q : string) (acc : Z) :
  parse_digits acc (p ++ q) =
  match parse_digits acc p with
  | Some a => parse_digits a q
  | None => None
  end.
Proof.
  revert acc. induction p as [| c p IH]; intros acc; simpl; [reflexivity |].
  destruct (digit_value c); [apply IH | reflexivity].
Qed.

Lemma parse_digits_pad (w : nat) (n acc : Z) :
  0 <= n < 10 ^ Z.of_nat w ->
  parse_digits acc (pad w n) = Some (acc * 10 ^ Z.of_nat w + n).
Proof.
  revert n. induction w as [| w IH]; intros n Hn.
  - simpl in *. f_equal. lia.
  - rewrite Nat2Z.inj_succ, Z.pow_succ_r in * by lia.
    cbn [pad]. rewrite parse_digits_append, IH.
    + cbn [parse_digits]. rewrite digit_value_digit.
      * f_equal. pose proof (Z.div_mod n 10). lia.
      * apply Z.mod_pos_bound. lia.
    + split; [apply Z.div_pos; lia | apply Z.div_lt_upper_bound; lia].
Qed.

Lemma compare_append (p q s t : string) :
  String.length p = String.length q ->
  String.compare (p ++ s) (q ++ t) =
  match String.compare p q with
  | Eq => String.compare s t
  | c => c
  end.
Proof.
  revert q. induction p as [| a p IH]; intros [| b q] Hlen; simpl in *;
    try discriminate; [reflexivity |].
  destruct (Ascii.compare a b); [apply IH; congruence | reflexivity | reflexivity].
Qed.

Lemma compare_by_digits (a b : Z) :
  0 <= a -> 0 <= b ->
  match a / 10 ?= b / 10 with
  | Eq => a mod 10 ?= b mod 10
  | c => c
  end = (a ?= b).
Proof.
  intros Ha Hb. pose proof (Z.div_mod a 10). pose proof (Z.div_mod b 10).
  pose proof (Z.mod_pos_bound a 10). pose proof (Z.mod_pos_bound b 10).
  symmetry.
  destruct (Z.compare_spec (a / 10) (b / 10)) as [E | E | E].
  - destruct (Z.compare_spec (a mod 10) (b mod 10)).
    + apply Z.compare_eq_iff. lia.
    + apply Z.compare_lt_iff. lia.
    + apply Z.compare_gt_iff. lia.
  - apply Z.compare_lt_iff. lia.
  - apply Z.compare_gt_iff. lia.
Qed.

Lemma compare_pad (w : nat) (a b : Z) :
  0 <= a < 10 ^ Z.of_nat w -> 0 <= b < 10 ^ Z.of_nat w ->
  String.compare (pad w a) (pad w b) = (a ?= b).
Proof.
  revert a b. induction w as [| w IH]; intros a b Ha Hb.
  - simpl in *. symmetry. apply Z.compare_eq_iff. lia.
  - rewrite Nat2Z.inj_succ, Z.pow_succ_r in * by lia.
    cbn [pad]. rewrite compare_append by now rewrite !length_pad.
    rewrite IH.
    + rewrite <- (compare_by_digits a b) by lia.
      destruct (a / 10 ?= b / 10); try reflexivity.
      cbn [String.compare]. rewrite digit_compare.
      * now destruct (a mod 10 ?= b mod 10).
      * apply Z.mod_pos_bound. lia.
      * apply Z.mod_pos_bound. lia.
    + split; [apply Z.div_pos; lia | apply Z.div_lt_upper_bound; lia].
    + split; [apply Z.div_pos; lia | apply Z.div_lt_upper_bound; lia].
Qed.

Lemma valid_date_bounds (d : date) :
  valid_date d = true ->
  0 <= year d < 10 ^ Z.of_nat 4 /\ 0 <= month d < 10 ^ Z.of_nat 2 /\
  0 <= day d < 10 ^ Z.of_nat 2.
Proof.
  unfold valid_date, days_in_month. intros H.
  repeat (apply andb_prop in H; destruct H as [H ?]).
  repeat match goal with
         | H : (_ <=? _) = true |- _ => apply Z.leb_le in H
         end.
  change (10 ^ Z.of_nat 4) with 10000. change (10 ^ Z.of_nat 2) with 100.
  repeat match goal with
         | H : context [if ?b then _ else _] |- _ => destruct b
         end; lia.
Qed.

(** [fromisoformat] reads back what [isoformat] wrote. *)
Lemma fromisoformat_isoformat (d : date) :
  valid_date d = true -> fromisoformat (isoformat d) = Ok d.
Proof.
  intros Hv. destruct (valid_date_bounds d Hv) as [Hy [Hm Hd]].
  unfold fromisoformat, isoformat.
  rewrite <- (length_pad 4 (year d)) at 1. rewrite split_at_append.
  change ("-" ++ pad 2 (month d) ++ "-" ++ pad 2 (day d))%string
    with ("-" ++ (pad 2 (month d) ++ "-" ++ pad 2 (day d)))%string.
  change 1%nat with (String.length "-") at 1. rewrite split_at_append.
  rewrite <- (length_pad 2 (month d)) at 1. rewrite split_at_append.
  change 1%nat with (String.length "-") at 1. rewrite split_at_append.
  rewrite !length_append, !length_pad. cbn [String.length Nat.add Nat.eqb].
  cbn [String.eqb Ascii.eqb Bool.eqb andb].
  rewrite !parse_digits_pad by assumption. cbn [Z.mul Z.add].
  destruct d as [y m dd]. simpl in *. now rewrite Hv.
Qed.

(** The ISO texts of two dates compare as the dates do. *)
Lemma isoformat_compare (a b : date) :
  valid_date a = true -> valid_date b = true ->
  String.compare (isoformat a) (isoformat b) = date_compare a b.
Proof.
  intros Ha Hb.
  destruct (valid_date_bounds a Ha) as [Hya [Hma Hda]].
  destruct (valid_date_bounds b Hb) as [Hyb [Hmb Hdb]].
  unfold isoformat, date_compare.
  rewrite compare_append by now rewrite !length_pad.
  rewrite compare_pad by assumption.
  destruct (year a ?= year b); try reflexivity.
  change ("-" ++ pad 2 (month a) ++ "-" ++ pad 2 (day a))%string
    with (String "-" (pad 2 (month a) ++ "-" ++ pad 2 (day a)))%string.
  change ("-" ++ pad 2 (month b) ++ "-" ++ pad 2 (day b))%string
    with (String "-" (pad 2 (month b) ++ "-" ++ pad 2 (day b)))%string.
  cbn [String.compare Ascii.compare N_of_ascii N.compare]. simpl (N_of_ascii "-" ?= _)%N.
  rewrite compare_append by now rewrite !length_pad.
  rewrite compare_pad by assumption.
  destruct (month a ?= month b); try reflexivity.
  change ("-" ++ pad 2 (day a))%string with (String "-" (pad 2 (day a))).
  change ("-" ++ pad 2 (day b))%string with (String "-" (pad 2 (day b))).
  cbn [String.compare]. simpl (Ascii.compare "-" "-").
  now apply compare_pad.
Qed.

Lemma isoformat_injective (a b : date) :
  valid_date a = true -> valid_date b = true ->
  isoformat a = isoformat b -> a = b.
Proof.
  intros Ha Hb H. apply fromisoformat_isoformat in Ha, Hb.
  rewrite H in Ha. congruence.
Qed.

(** ** add, then get (C1) *)

Lemma pk_conflict_eq (a b : sqlval) : pk_conflict a b = true -> a = b.
Proof.
  destruct a, b; simpl; try discriminate; intros H.
  - apply Z.eqb_eq in H. now subst.
  - apply String.eqb_eq in H. now subst.
Qed.

(** An in-place update writes the whole new row. *)
Lemma recipe_update_is_new (old new : recipe_row) :
  pk_conflict (r_id old) (r_id new) = true ->
  {| r_id := r_id old; r_date := r_date new;
     r_title := r_title new; r_raw_json := r_raw_json new |} = new.
Proof. intros H. apply pk_conflict_eq in H. rewrite H. now destruct new. Qed.

Lemma find_upsert_recipe_row (s : string) (new : recipe_row) (rows : list recipe_row) :
  r_id new = SText s ->
  find (id_is s) (upsert_recipe_row new rows) = Some new.
Proof.
  intros Hid. assert (Hnew : id_is s new = true).
  { unfold id_is. rewrite Hid. simpl. apply String.eqb_refl. }
  induction rows as [| old rest IH]; simpl.
  - now rewrite Hnew.
  - destruct (pk_conflict (r_id old) (r_id new)) eqn:E.
    + rewrite recipe_update_is_new by exact E. simpl. now rewrite Hnew.
    + simpl. unfold id_is at 1. rewrite <- Hid, E. exact IH.
Qed.

Lemma existsb_upsert_recipe_row (s : string) (new : recipe_row) (rows : list recipe_row) :
  r_id new = SText s ->
  existsb (id_is s) (upsert_recipe_row new rows) = true.
Proof.
  intros Hid. assert (Hnew : id_is s new = true).
  { unfold id_is. rewrite Hid. simpl. apply String.eqb_refl. }
  induction rows as [| old rest IH]; simpl.
  - now rewrite Hnew.
  - destruct (pk_conflict (r_id old) (r_id new)) eqn:E.
    + rewrite recipe_update_is_new by exact E. simpl. now rewrite Hnew.
    + simpl. rewrite IH. apply orb_true_r.
Qed.

Lemma read_on_existing {A : Type} (q : database -> A) w db :
  db_file w = Some db -> has_schema db = true ->
  _connect (execute_read q) w = (Ok (q db), w).
Proof.
  intros Hdb Hs. unfold _connect, execute_read. rewrite Hdb. unfold current. simpl.
  rewrite Hs. simpl. destruct w. simpl in *. now subst.
Qed.

(** The files after an [add] that returned: the database holds the
    upserted recipe row, the ingredient table and the links are those the
    loop over the ingredients left. *)
Lemma add_ok recipe w w' :
  add recipe w = (Ok tt, w') ->
  exists recipe_id i lt row items c1 c',
    RecipeInDb_id recipe = Ok recipe_id /\
    bind_param recipe_id = Ok i /\
    _localized_values (dict_get (data recipe) "localizedTitle" JNull) = Ok lt /\
    recipe_row_of recipe_id (isoformat (rdate recipe)) lt
      (json_dumps (JObj (data recipe))) = Ok row /\
    py_iter (dict_get (data recipe) "ingredients" (JArr [])) = Ok items /\
    has_schema (opened w) = true /\
    current c1 =
      Database true
        (upsert_recipe_row row (recipes (opened w)))
        (ingredients (opened w))
        (links_kept i (opened w)) /\
    link_ingredients recipe_id 0 items c1 = (Ok tt, c') /\
    db_file w' = Some (current c') /\
    has_schema (current c') = true /\
    recipes (current c') = upsert_recipe_row row (recipes (opened w)).
Proof.
  intros Hadd. unfold add in Hadd.
  destruct (connect_ok _ _ _ _ (tidy_upsert_recipe recipe) Hadd) as [c' [Hrun [Hfile _]]].
  rewrite opened_create_backup in Hrun.
  destruct (upsert_recipe_ok _ _ _ Hrun)
    as [rid [i [lt [row [items [c1 [Hid [Hi [Hlt [Hrow [Hit [Hs [_ [Hc1 Hloop]]]]]]]]]]]]]].
  pose proof (link_ingredients_keeps_recipes rid items 0 c1) as Hrec.
  pose proof (link_ingredients_keeps_schema rid items 0 c1) as Hsch.
  rewrite Hloop in Hrec, Hsch. simpl in Hrec, Hsch. rewrite Hc1 in Hrec, Hsch.
  simpl in Hrec, Hsch. unfold current in Hs, Hc1 at 2 3 4. simpl in Hs, Hc1.
  exists rid, i, lt, row, items, c1, c'. repeat split; assumption.
Qed.

(** C1, as amended: when [add] of a recipe returns (it raises for a
    payload with an ingredient that has no key, for one), a [get] with the
    recipe's id returns a record with the date and the payload that were
    added.  The recipe carries a string identifier at [_id.$oid], its date
    is a date a [datetime.date] can hold, and its payload is one that
    [json.loads] reads back from what [json.dumps] wrote. *)
Theorem add_then_get (recipe : RecipeInDb) (recipe_id : string) (w w' : world) :
  RecipeInDb_id recipe = Ok (JStr recipe_id) ->
  valid_date (rdate recipe) = true ->
  json_loads (json_dumps (JObj (data recipe))) = Some (JObj (data recipe)) ->
  add recipe w = (Ok tt, w') ->
  fst (get recipe_id w') = Ok (Some recipe).
Proof.
  intros Hid Hdate Hjson Hadd.
  destruct (add_ok _ _ _ Hadd)
    as [rid [i [lt [row [items [c1 [c' [Hid' [Hi [_ [Hrow [_ [_ [_ [_ [Hfile [Hs Hrec]]]]]]]]]]]]]]]]].
  rewrite Hid in Hid'. inversion Hid'; subst rid. simpl in Hi. inversion Hi; subst i.
  unfold recipe_row_of in Hrow. result_inv Hrow. inversion Hv; subst v.
  inversion Hrow; subst row. clear Hrow Hv Hi Hid'.
  unfold get. rewrite (read_on_existing _ w' (current c') Hfile Hs).
  rewrite Hrec. rewrite find_upsert_recipe_row by reflexivity.
  cbn [option_map selected r_date r_raw_json _rows_to_recipes].
  rewrite fromisoformat_isoformat by exact Hdate. rewrite Hjson.
  cbn [result_bind fst]. now destruct recipe.
Qed.

(** ** Invariants of the database *)

Lemma preserves_same {A : Type} (I : database -> Prop) (m : DB A) :
  (forall c, snd (m c) = c) -> preserves I m.
Proof. intros H c. now rewrite H. Qed.

Lemma preserves_ret {A : Type} (I : database -> Prop) (a : A) : preserves I (ret a).
Proof. now apply preserves_same. Qed.

Lemma preserves_lift {A : Type} (I : database -> Prop) (r : result A) :
  preserves I (lift r).
Proof. now apply preserves_same. Qed.

Lemma preserves_bind {A B : Type} (I : database -> Prop) (m : DB A) (k : A -> DB B) :
  preserves I m -> (forall a, preserves I (k a)) -> preserves I (bind m k).
Proof.
  intros Hm Hk c HI. unfold bind. specialize (Hm c HI).
  destruct (m c) as [[a | e] c1]; simpl in Hm; [| exact Hm].
  now apply Hk.
Qed.

Lemma preserves_execute_write (I : database -> Prop) s run :
  (forall db db', I db -> run db = Ok db' -> I db') -> preserves I (execute_write s run).
Proof.
  intros Hrun c HI. unfold execute_write.
  destruct (has_schema (current c)); [| exact HI].
  destruct (run (current c)) as [db' | e] eqn:E; simpl; [| exact HI].
  now apply (Hrun (current c)).
Qed.

Ltac preserves_steps_with leaf :=
  repeat first [ leaf | apply preserves_ret | apply preserves_lift
               | apply preserves_bind; [| intros ? ] ].

(** *** Upserts keep keys unique *)

Lemma ingredient_update_is_new (old new : ingredient_row) :
  String.eqb (i_key old) (i_key new) = true ->
  {| i_key := i_key old; i_typ := i_typ new; i_category := i_category new;
     i_title := i_title new; i_number_title := i_number_title new;
     i_uncountable_title := i_uncountable_title new |} = new.
Proof. intros H. apply String.eqb_eq in H. rewrite H. now destruct new. Qed.

Lemma filter_other_key (k : string) (new : ingredient_row) (rows : list ingredient_row) :
  key_is k new = false ->
  filter (key_is k) (upsert_ingredient_row new rows) = filter (key_is k) rows.
Proof.
  intros Hk. induction rows as [| old rest IH]; simpl.
  - now rewrite Hk.
  - destruct (String.eqb (i_key old) (i_key new)) eqn:E.
    + rewrite ingredient_update_is_new by exact E. simpl. rewrite Hk.
      apply String.eqb_eq in E. unfold key_is in *. rewrite E, Hk. reflexivity.
    + simpl. now rewrite IH.
Qed.

Lemma filter_same_key (new : ingredient_row) (rows : list ingredient_row) :
  (List.length (filter (key_is (i_key new)) rows) <= 1)%nat ->
  filter (key_is (i_key new)) (upsert_ingredient_row new rows) = [new].
Proof.
  assert (Hnew : key_is (i_key new) new = true) by apply String.eqb_refl.
  induction rows as [| old rest IH]; simpl; intros Hu.
  - now rewrite Hnew.
  - unfold key_is at 1 in Hu. destruct (String.eqb (i_key old) (i_key new)) eqn:E.
    + rewrite ingredient_update_is_new by exact E. simpl. rewrite Hnew.
      simpl in Hu. destruct (filter (key_is (i_key new)) rest); [reflexivity |].
      simpl in Hu. lia.
    + simpl. unfold key_is at 1. rewrite E. now apply IH.
Qed.

Lemma unique_keys_upsert (new : ingredient_row) (rows : list ingredient_row) :
  (forall k, (List.length (filter (key_is k) rows) <= 1)%nat) ->
  forall k, (List.length (filter (key_is k) (upsert_ingredient_row new rows)) <= 1)%nat.
Proof.
  intros Hu k. destruct (key_is k new) eqn:E.
  - apply String.eqb_eq in E. subst k. rewrite filter_same_key by apply Hu.
    simpl. lia.
  - rewrite filter_other_key by exact E. apply Hu.
Qed.

Lemma filter_other_id (s : string) (new : recipe_row) (rows : list recipe_row) :
  id_is s new = false ->
  filter (id_is s) (upsert_recipe_row new rows) = filter (id_is s) rows.
Proof.
  intros Hs. induction rows as [| old rest IH]; simpl.
  - now rewrite Hs.
  - destruct (pk_conflict (r_id old) (r_id new)) eqn:E.
    + rewrite recipe_update_is_new by exact E. simpl. rewrite Hs.
      apply pk_conflict_eq in E. unfold id_is in *. rewrite E, Hs. reflexivity.
    + simpl. now rewrite IH.
Qed.

Lemma filter_same_id (s : string) (new : recipe_row) (rows : list recipe_row) :
  r_id new = SText s ->
  (List.length (filter (id_is s) rows) <= 1)%nat ->
  filter (id_is s) (upsert_recipe_row new rows) = [new].
Proof.
  intros Hid. assert (Hnew : id_is s new = true).
  { unfold id_is. rewrite Hid. simpl. apply String.eqb_refl. }
  induction rows as [| old rest IH]; simpl; intros Hu.
  - now rewrite Hnew.
  - unfold id_is at 1 in Hu. rewrite <- Hid in Hu.
    destruct (pk_conflict (r_id old) (r_id new)) eqn:E.
    + rewrite recipe_update_is_new by exact E. simpl. rewrite Hnew.
      simpl in Hu.
      destruct (filter (id_is s) rest); [reflexivity |]. simpl in Hu. lia.
    + simpl. unfold id_is at 1. rewrite <- Hid, E. now apply IH.
Qed.

Lemma unique_ids_upsert (new : recipe_row) (rows : list recipe_row) :
  (forall s, (List.length (filter (id_is s) rows) <= 1)%nat) ->
  forall s, (List.length (filter (id_is s) (upsert_recipe_row new rows)) <= 1)%nat.
Proof.
  intros Hu s. destruct (id_is s new) eqn:E.
  - rewrite (filter_same_id s); [simpl; lia | | apply Hu].
    unfold id_is in E. destruct (r_id new); simpl in E; try discriminate.
    apply String.eqb_eq in E. now subst.
  - rewrite filter_other_id by exact E. apply Hu.
Qed.

(** *** Every statement keeps the database consistent *)

Lemma texty_text_affinity (v : sqlval) : texty (text_affinity v) = true.
Proof. now destruct v. Qed.

Lemma texty_localized_map (l : localized sqlval) :
  texty_localized (localized_map text_affinity l) = true.
Proof. unfold texty_localized, localized_map. simpl. now rewrite !texty_text_affinity. Qed.

Lemma ingredient_row_of_key k t c lt nt ut row :
  ingredient_row_of k t c lt nt ut = Ok row -> i_key row = k.
Proof. unfold ingredient_row_of. intros H. result_inv H. inversion H. reflexivity. Qed.

Lemma ingredient_row_of_text k t c lt nt ut row :
  ingredient_row_of k t c lt nt ut = Ok row -> text_columns row = true.
Proof.
  unfold ingredient_row_of. intros H. result_inv H. inversion H. unfold text_columns.
  simpl. now rewrite !texty_text_affinity, !texty_localized_map.
Qed.

Lemma forallb_upsert_ingredient (p : ingredient_row -> bool) new rows :
  p new = true -> forallb p rows = true ->
  forallb p (upsert_ingredient_row new rows) = true.
Proof.
  intros Hnew. induction rows as [| old rest IH]; simpl; intros H.
  - now rewrite Hnew.
  - apply andb_prop in H. destruct H as [Hold Hrest].
    destruct (String.eqb (i_key old) (i_key new)) eqn:E.
    + rewrite ingredient_update_is_new by exact E. simpl. now rewrite Hnew, Hrest.
    + simpl. now rewrite Hold, IH.
Qed.

Lemma insert_ingredient_consistent k t c lt nt ut db db' :
  consistent db -> sql_insert_ingredient k t c lt nt ut db = Ok db' -> consistent db'.
Proof.
  intros [Hs Hi Hk Ht] H. unfold sql_insert_ingredient in H. result_inv H.
  inversion H; subst db'. constructor; simpl; try assumption.
  - now apply unique_keys_upsert.
  - apply forallb_upsert_ingredient; [| exact Ht].
    now apply ingredient_row_of_text in Hv.
Qed.

Lemma insert_recipe_consistent i d lt raw db db' :
  consistent db -> sql_insert_recipe i d lt raw db = Ok db' -> consistent db'.
Proof.
  intros [Hs Hi Hk Ht] H. unfold sql_insert_recipe in H. result_inv H.
  inversion H; subst db'. constructor; simpl; try assumption.
  now apply unique_ids_upsert.
Qed.

Lemma delete_links_consistent i db db' :
  consistent db -> sql_delete_links i db = Ok db' -> consistent db'.
Proof.
  intros [Hs Hi Hk Ht] H. unfold sql_delete_links in H. result_inv H.
  inversion H; subst db'. constructor; simpl; assumption.
Qed.

Lemma insert_link_consistent i k q m p db db' :
  consistent db -> sql_insert_link i k q m p db = Ok db' -> consistent db'.
Proof.
  intros [Hs Hi Hk Ht] H. unfold sql_insert_link in H. result_inv H.
  destruct (text_affinity v); try discriminate.
  destruct (has_recipe s db && has_ingredient k db); try discriminate.
  inversion H; subst db'. constructor; simpl; assumption.
Qed.

Lemma upsert_ingredient_consistent details :
  preserves consistent (_upsert_ingredient details).
Proof.
  unfold _upsert_ingredient. preserves_steps_with fail.
  apply preserves_execute_write. intros db db'. apply insert_ingredient_consistent.
Qed.

Lemma link_ingredients_consistent recipe_id items :
  forall position, preserves consistent (link_ingredients recipe_id position items).
Proof.
  induction items as [| ingredient rest IH]; intros position; simpl.
  - apply preserves_ret.
  - preserves_steps_with ltac:(first [apply IH | apply upsert_ingredient_consistent]).
    apply preserves_execute_write. intros db db'. apply insert_link_consistent.
Qed.

Lemma upsert_recipe_consistent recipe : preserves consistent (_upsert_recipe recipe).
Proof.
  unfold _upsert_recipe.
  preserves_steps_with ltac:(apply link_ingredients_consistent).
  - apply preserves_execute_write. intros db db'. apply insert_recipe_consistent.
  - apply preserves_execute_write. intros db db'. apply delete_links_consistent.
Qed.

Lemma upsert_each_consistent rs : preserves consistent (upsert_each rs).
Proof.
  induction rs as [| r rest IH]; simpl.
  - apply preserves_ret.
  - apply preserves_bind; [apply upsert_recipe_consistent | intros _; exact IH].
Qed.

(** What holds of the file when a connection opens, and is preserved by
    the body, holds of the file when the connection's block is left. *)
Lemma connect_invariant {A : Type} (I : database -> Prop) (body : DB A) w :
  tidy body -> preserves I body -> I (opened w) ->
  exists db', db_file (snd (_connect body w)) = Some db' /\ I db'.
Proof.
  intros Ht Hp HI. unfold _connect. fold (opened w).
  specialize (Hp (Connection (opened w) None (log w)) HI).
  destruct (Ht (Connection (opened w) None (log w))) as [Hd _].
  destruct (body (Connection (opened w) None (log w))) as [[a | e] c]; simpl in *.
  - exists (current c). split; [| exact Hp].
    unfold commit, current. now destruct (pending c).
  - exists (opened w). split; [| exact HI].
    unfold rollback. destruct (pending c); simpl; congruence.
Qed.

Lemma init_file w :
  db_file (__init__ w)
  = Some (Database true (recipes (opened w)) (ingredients (opened w))
            (recipe_ingredients (opened w))).
Proof. reflexivity. Qed.

Lemma init_existing w db :
  db_file w = Some db -> has_schema db = true -> db_file (__init__ w) = Some db.
Proof.
  intros Hdb Hs. rewrite init_file, (opened_some w db Hdb).
  destruct db. simpl in *. now subst.
Qed.

Lemma empty_consistent : consistent (Database true [] [] []).
Proof. constructor; simpl; auto. Qed.

Lemma reachable_consistent (P : RecipeInDb -> Prop) (w : world) :
  reachable P w -> exists db, db_file w = Some db /\ consistent db.
Proof.
  induction 1 as [| w _ [db [Hdb Hc]] | r w _ _ [db [Hdb Hc]] | rs w _ _ [db [Hdb Hc]]].
  - exists (Database true [] [] []). split; [reflexivity | apply empty_consistent].
  - exists db. split; [| exact Hc]. apply init_existing; [exact Hdb | apply Hc].
  - unfold add. apply connect_invariant.
    + apply tidy_upsert_recipe.
    + apply upsert_recipe_consistent.
    + now rewrite opened_create_backup, (opened_some w db Hdb).
  - unfold add_list. apply connect_invariant.
    + apply tidy_upsert_each.
    + apply upsert_each_consistent.
    + now rewrite opened_create_backup, (opened_some w db Hdb).
Qed.

(** ** One row per ingredient key (C4) *)

Lemma ret_ok {A : Type} (a b : A) c c' : ret a c = (Ok b, c') -> a = b /\ c' = c.
Proof. unfold ret. intros H. inversion H. split; reflexivity. Qed.

Lemma upsert_ingredient_ok details c k c' :
  _upsert_ingredient details c = (Ok k, c') ->
  exists row,
    ingredient_row_for details = Ok row /\
    i_key row = k /\
    _canonical_ingredient_key details = Ok k /\
    has_schema (current c) = true /\
    on_disk c' = on_disk c /\
    current c' = set_ingredients (current c)
                   (upsert_ingredient_row row (ingredients (current c))).
Proof.
  unfold _upsert_ingredient. intros H.
  apply bind_ok in H. destruct H as [k0 [c0 [Hk H]]].
  apply lift_ok in Hk. destruct Hk as [Hk ->].
  apply bind_ok in H. destruct H as [lt [c0 [Hlt H]]].
  apply lift_ok in Hlt. destruct Hlt as [Hlt ->].
  apply bind_ok in H. destruct H as [nt [c0 [Hnt H]]].
  apply lift_ok in Hnt. destruct Hnt as [Hnt ->].
  apply bind_ok in H. destruct H as [ut [c0 [Hut H]]].
  apply lift_ok in Hut. destruct Hut as [Hut ->].
  apply bind_ok in H. destruct H as [t [c0 [Ht H]]].
  apply lift_ok in Ht. destruct Ht as [Ht ->].
  apply bind_ok in H. destruct H as [ct [c0 [Hct H]]].
  apply lift_ok in Hct. destruct Hct as [Hct ->].
  apply bind_ok in H. destruct H as [[] [c1 [Hw H]]].
  apply ret_ok in H. destruct H as [-> ->].
  apply execute_write_ok in Hw. destruct Hw as [Hs [db' [Hrun [Hd Hp]]]].
  unfold sql_insert_ingredient in Hrun. result_inv Hrun. inversion Hrun; subst db'.
  exists v. repeat split; try assumption.
  - unfold ingredient_row_for. rewrite Hk. cbn [result_bind].
    rewrite Hlt, Hnt, Hut. cbn [result_bind]. rewrite Ht, Hct. exact Hv.
  - eapply ingredient_row_of_key; eassumption.
  - unfold current at 1. now rewrite Hp.
Qed.

Lemma link_ingredients_cons_ok recipe_id position item rest c c' :
  link_ingredients recipe_id position (item :: rest) c = (Ok tt, c') ->
  exists details k q m c1 c2,
    py_get item "ingredient" (JObj []) = Ok details /\
    _upsert_ingredient details c = (Ok k, c1) /\
    py_get item "quantity" JNull = Ok q /\
    py_get item "measure" JNull = Ok m /\
    execute_write InsertLink (sql_insert_link recipe_id k q m position) c1 = (Ok tt, c2) /\
    link_ingredients recipe_id (S position) rest c2 = (Ok tt, c').
Proof.
  cbn [link_ingredients]. intros H.
  apply bind_ok in H. destruct H as [details [c0 [Hd H]]].
  apply lift_ok in Hd. destruct Hd as [Hd ->].
  apply bind_ok in H. destruct H as [k [c1 [Hk H]]].
  apply bind_ok in H. destruct H as [q [c0 [Hq H]]].
  apply lift_ok in Hq. destruct Hq as [Hq ->].
  apply bind_ok in H. destruct H as [m [c0 [Hm H]]].
  apply lift_ok in Hm. destruct Hm as [Hm ->].
  apply bind_ok in H. destruct H as [[] [c2 [Hw H]]].
  exists details, k, q, m, c1, c2. repeat split; assumption.
Qed.

Lemma existsb_upsert_old (k : string) new rows :
  existsb (key_is k) rows = true ->
  existsb (key_is k) (upsert_ingredient_row new rows) = true.
Proof.
  induction rows as [| old rest IH]; simpl; [discriminate |].
  intros H. destruct (String.eqb (i_key old) (i_key new)) eqn:E; simpl.
  - apply orb_prop in H. destruct H as [H | H]; [| now rewrite H, orb_true_r].
    unfold key_is in *. simpl. now rewrite H.
  - apply orb_prop in H. destruct H as [H | H]; [now rewrite H |].
    rewrite IH by exact H. apply orb_true_r.
Qed.

Lemma existsb_upsert_new new rows :
  existsb (key_is (i_key new)) (upsert_ingredient_row new rows) = true.
Proof.
  induction rows as [| old rest IH]; simpl.
  - unfold key_is. now rewrite String.eqb_refl.
  - destruct (String.eqb (i_key old) (i_key new)) eqn:E; simpl.
    + unfold key_is. simpl. now rewrite E.
    + rewrite IH. apply orb_true_r.
Qed.










Lemma opened_after {A : Type} (body : DB A) w a w' :
  tidy body -> _connect body w = (Ok a, w') ->
  exists c, body (Connection (opened w) None (log w)) = (Ok a, c) /\
            opened w' = current c.
Proof.
  intros Ht H. destruct (connect_ok _ _ _ _ Ht H) as [c [Hrun [Hf _]]].
  exists c. split; [exact Hrun | now apply opened_some].
Qed.

(** *** The columns an upsert writes *)

Lemma bound_column (v : json) (x : sqlval) :
  bind_param v = Ok x -> text_affinity x = column_text v.
Proof.
  destruct v as [| b | n | t | |]; cbn [bind_param column_text]; intros H;
    try discriminate.
  - now inversion H.
  - now inversion H.
  - match type of H with
    | context [if ?b then _ else _] => destruct b
    end; [now inversion H | discriminate].
  - now inversion H.
Qed.

Lemma bound_titles (v : json) (lt : localized json) (lt' : localized sqlval) :
  _localized_values v = Ok lt -> bind_localized lt = Ok lt' ->
  localized_map text_affinity lt' = title_columns v.
Proof.
  intros Hlt Hbind.
  assert (H : exists t, py_or v (JObj []) = JObj t /\
                        title_columns v = title_columns (JObj t)).
  { unfold _localized_values in Hlt.
    destruct (py_or v (JObj [])) as [| | | | | t] eqn:E; try discriminate.
    exists t. split; [reflexivity |]. unfold py_or in E.
    destruct (truthy v) eqn:Ev; [now rewrite E |].
    inversion E; subst t. destruct v as [| | | | | [| f fs]]; try reflexivity.
    discriminate. }
  destruct H as [t [Hor ->]]. unfold _localized_values in Hlt. rewrite Hor in Hlt.
  cbn [py_get result_bind] in Hlt. inversion Hlt; subst lt. clear Hlt.
  unfold bind_localized in Hbind. cbn [en de es fr pt] in Hbind. result_inv Hbind.
  inversion Hbind; subst lt'. unfold localized_map, title_columns. cbn [en de es fr pt].
  now rewrite (bound_column _ _ Hv), (bound_column _ _ Hv0), (bound_column _ _ Hv1),
    (bound_column _ _ Hv2), (bound_column _ _ Hv3).
Qed.


(** ** Re-adding a recipe replaces it (C5) *)

Lemma upsert_link_row_fresh new rows :
  forallb (fun l => negb (same_link_key l new)) rows = true ->
  upsert_link_row new rows = (rows ++ [new])%list.
Proof.
  induction rows as [| old rest IH]; simpl; [reflexivity |].
  intros H. apply andb_prop in H. destruct H as [Hold Hrest].
  destruct (same_link_key old new); [discriminate |]. now rewrite IH.
Qed.

Lemma below_fresh rid position q m k rows :
  below rid position rows ->
  forallb (fun l => negb (same_link_key l (LinkRow rid k q m position))) rows = true.
Proof.
  intros Hb. apply forallb_forall. intros l Hin. unfold same_link_key. simpl.
  destruct (String.eqb (l_recipe_id l) rid) eqn:E; [| reflexivity].
  apply String.eqb_eq in E. specialize (Hb l Hin E).
  destruct (Nat.eqb (l_position l) position) eqn:E'; [| reflexivity].
  apply Nat.eqb_eq in E'. lia.
Qed.

Lemma link_ingredients_appends rid items :
  forall position c c',
    link_ingredients (JStr rid) position items c = (Ok tt, c') ->
    below rid position (recipe_ingredients (current c)) ->
    exists links,
      link_rows_for rid position items = Ok links /\
      recipe_ingredients (current c') = (recipe_ingredients (current c) ++ links)%list.
Proof.
  induction items as [| item rest IH]; intros position c c' Hrun Hb.
  - apply ret_ok in Hrun. destruct Hrun as [_ ->]. exists []. split; [reflexivity |].
    now rewrite app_nil_r.
  - destruct (link_ingredients_cons_ok _ _ _ _ _ _ Hrun)
      as [details [k [q [m [c1 [c2 [Hd [Hup [Hq [Hm [Hw Hrest]]]]]]]]]]].
    pose proof (upsert_ingredient_keeps_links details c) as Hl1.
    rewrite Hup in Hl1. simpl in Hl1.
    destruct (upsert_ingredient_ok _ _ _ _ Hup) as [row [_ [_ [Hk _]]]].
    apply execute_write_ok in Hw. destruct Hw as [Hs [db2 [Hins [_ Hp2]]]].
    unfold sql_insert_link in Hins. simpl in Hins. result_inv Hins.
    destruct (has_recipe rid (current c1) && has_ingredient k (current c1));
      [| discriminate].
    inversion Hins; subst db2. clear Hins.
    assert (Hc2 : recipe_ingredients (current c2)
                  = (recipe_ingredients (current c)
                       ++ [LinkRow rid k (real_affinity v) (text_affinity v0) position])%list).
    { unfold current at 1. rewrite Hp2. simpl. rewrite Hl1.
      apply upsert_link_row_fresh. now apply below_fresh. }
    destruct (IH (S position) c2 c' Hrest) as [links [Hlinks Hfinal]].
    { rewrite Hc2. intros l Hin Hrid. apply in_app_or in Hin.
      destruct Hin as [Hin | [<- | []]]; [| simpl; lia].
      specialize (Hb l Hin Hrid). lia. }
    exists (LinkRow rid k (real_affinity v) (text_affinity v0) position :: links).
    split.
    + cbn [link_rows_for]. unfold link_row_for. rewrite Hd. cbn [result_bind].
      rewrite Hk. cbn [result_bind]. rewrite Hq, Hm. cbn [result_bind].
      rewrite Hv, Hv0. cbn [result_bind]. now rewrite Hlinks.
    + rewrite Hfinal, Hc2. now rewrite <- app_assoc.
Qed.

Lemma link_rows_for_shape rid items :
  forall position links,
    link_rows_for rid position items = Ok links ->
    map l_position links = seq position (List.length items) /\
    forallb (link_of_recipe (SText rid)) links = true.
Proof.
  induction items as [| item rest IH]; intros position links H; simpl in H.
  - inversion H. split; reflexivity.
  - result_inv H. inversion H; subst links. destruct (IH _ _ Hv0) as [Hpos Hrid].
    unfold link_row_for in Hv. result_inv Hv. inversion Hv; subst v. simpl.
    split; [now rewrite Hpos |]. rewrite Hrid.
    unfold link_of_recipe. simpl. now rewrite String.eqb_refl.
Qed.

Lemma filter_all {A : Type} (p : A -> bool) (l : list A) :
  forallb p l = true -> filter p l = l.
Proof.
  induction l as [| x l IH]; simpl; [reflexivity |].
  intros H. apply andb_prop in H. destruct H as [-> H]. now rewrite IH.
Qed.

Lemma filter_none {A : Type} (p : A -> bool) (l : list A) :
  forallb (fun x => negb (p x)) l = true -> filter p l = [].
Proof.
  induction l as [| x l IH]; simpl; [reflexivity |].
  intros H. apply andb_prop in H. destruct H as [Hx H].
  destruct (p x); [discriminate | now apply IH].
Qed.

Lemma forallb_filter {A : Type} (p : A -> bool) (l : list A) :
  forallb p (filter p l) = true.
Proof.
  induction l as [| x l IH]; simpl; [reflexivity |].
  destruct (p x) eqn:E; simpl; [now rewrite E |]; exact IH.
Qed.

Lemma forallb_negb_negb {A : Type} (p : A -> bool) (l : list A) :
  forallb p l = true -> forallb (fun x => negb (negb (p x))) l = true.
Proof.
  intros H. rewrite forallb_forall in *. intros x Hx. now rewrite H.
Qed.

(** *** The trace of an [add] that returns *)

Lemma execute_write_trace s run c c' :
  execute_write s run c = (Ok tt, c') ->
  trace c' = ((match pending c with
               | Some _ => trace c
               | None => trace c ++ [EvBegin]
               end) ++ [EvExec s])%list /\
  pending c' <> None.
Proof.
  unfold execute_write. destruct (has_schema (current c)); [| discriminate].
  destruct (run (current c)); intros H; inversion H; subst. simpl.
  split; [reflexivity | discriminate].
Qed.

Lemma upsert_ingredient_trace details c k c' :
  _upsert_ingredient details c = (Ok k, c') -> pending c <> None ->
  trace c' = (trace c ++ [EvExec InsertIngredient])%list /\ pending c' <> None.
Proof.
  unfold _upsert_ingredient. intros H Hp.
  repeat (apply bind_ok in H;
          let a := fresh "a" in
          let c0 := fresh "c" in
          let Hl := fresh "Hl" in
          destruct H as [a [c0 [Hl H]]];
          try (apply lift_ok in Hl; destruct Hl as [Hl ->])).
  apply ret_ok in H. destruct H as [_ ->].
  match goal with
  | Hw : execute_write _ _ _ = (Ok ?u, _) |- _ =>
      destruct u; apply execute_write_trace in Hw;
      destruct (pending c); [exact Hw | congruence]
  end.
Qed.

Lemma link_ingredients_trace recipe_id items :
  forall position c c',
    link_ingredients recipe_id position items c = (Ok tt, c') ->
    pending c <> None ->
    trace c' = (trace c
                  ++ flat_map (fun _ => [EvExec InsertIngredient; EvExec InsertLink]) items)%list
    /\ pending c' <> None.
Proof.
  induction items as [| item rest IH]; intros position c c' Hrun Hp.
  - apply ret_ok in Hrun. destruct Hrun as [_ ->]. simpl. now rewrite app_nil_r.
  - destruct (link_ingredients_cons_ok _ _ _ _ _ _ Hrun)
      as [details [k [q [m [c1 [c2 [_ [Hup [_ [_ [Hw Hrest]]]]]]]]]]].
    destruct (upsert_ingredient_trace _ _ _ _ Hup Hp) as [Ht1 Hp1].
    destruct (execute_write_trace _ _ _ _ Hw) as [Ht2 Hp2].
    destruct (IH _ _ _ Hrest Hp2) as [Ht3 Hp3].
    split; [| exact Hp3]. rewrite Ht3, Ht2.
    destruct (pending c1); [| congruence]. rewrite Ht1. simpl.
    now rewrite <- !app_assoc.
Qed.

Lemma upsert_recipe_trace recipe c c' items :
  _upsert_recipe recipe c = (Ok tt, c') ->
  pending c = None ->
  py_iter (dict_get (data recipe) "ingredients" (JArr [])) = Ok items ->
  trace c' = (trace c
                ++ [EvBegin; EvExec InsertRecipe; EvExec DeleteLinks]
                ++ flat_map (fun _ => [EvExec InsertIngredient; EvExec InsertLink]) items)%list
  /\ pending c' <> None.
Proof.
  unfold _upsert_recipe. intros H Hp Hit.
  apply bind_ok in H. destruct H as [recipe_id [c0 [Hid H]]].
  apply lift_ok in Hid. destruct Hid as [Hid ->].
  apply bind_ok in H. destruct H as [lt [c0 [Hlt H]]].
  apply lift_ok in Hlt. destruct Hlt as [Hlt ->].
  apply bind_ok in H. destruct H as [[] [ca [Hins H]]].
  apply bind_ok in H. destruct H as [[] [cb [Hdel H]]].
  apply bind_ok in H. destruct H as [items0 [c0 [Hit0 H]]].
  apply lift_ok in Hit0. destruct Hit0 as [Hit0 ->].
  rewrite Hit in Hit0. inversion Hit0; subst items0.
  destruct (execute_write_trace _ _ _ _ Hins) as [Ht1 Hp1]. rewrite Hp in Ht1.
  destruct (execute_write_trace _ _ _ _ Hdel) as [Ht2 Hp2].
  destruct (link_ingredients_trace _ _ _ _ _ H Hp2) as [Ht3 Hp3].
  split; [| exact Hp3]. rewrite Ht3, Ht2.
  destruct (pending ca); [| congruence]. rewrite Ht1.
  now rewrite <- !app_assoc.
Qed.

Lemma add_trace recipe w w' items :
  add recipe w = (Ok tt, w') ->
  py_iter (dict_get (data recipe) "ingredients" (JArr [])) = Ok items ->
  log w' = (log w ++ effects_of_add items)%list.
Proof.
  intros Hadd Hit. unfold add, _connect in Hadd. fold (opened (create_backup w)) in Hadd.
  destruct (_upsert_recipe recipe
              (Connection (opened (create_backup w)) None (log (create_backup w))))
    as [[[] | e] c] eqn:Hrun; [| discriminate].
  destruct (upsert_recipe_trace _ _ _ _ Hrun eq_refl Hit) as [Ht Hp].
  inversion Hadd; subst w'. clear Hadd. simpl.
  unfold commit. destruct (pending c); [| congruence]. simpl. rewrite Ht.
  assert (Hs : has_schema (opened (create_backup w)) = true).
  { destruct (upsert_recipe_ok _ _ _ Hrun)
      as [? [? [? [? [? [? [_ [_ [_ [_ [_ [Hs _]]]]]]]]]]]]. exact Hs. }
  unfold create_backup, opened in *. destruct (db_file w) eqn:E.
  - simpl. unfold effects_of_add. now rewrite <- !app_assoc.
  - rewrite E in Hs. discriminate.
Qed.

(** C5: in any reachable world, when [add] of a recipe with the string
    id [rid] returns (whether or not a recipe with that id was stored
    before), then afterwards (1) the one recipe row with that id holds
    the new recipe and nothing else: its date column is the ISO text of
    the new date (from which the date is read back), its five title
    columns are the titles of the new payload, NULL where it has none, and
    its raw_json is the new payload as [json.dumps] writes it; no column
    keeps its earlier value; (2) the links of that
    id are exactly the rows computed from the new ingredient list, at the
    positions 0, 1, .. of that list, so no link of the earlier version
    remains; (3) the links of the other recipes are untouched; and (4) the
    call executed, in this order, the backup copy, the recipe upsert, the
    DELETE of the recipe's links, and then for each ingredient its upsert
    and the insert of its link, before it committed. *)
Theorem readd_replaces_recipe_and_links
    (recipe : RecipeInDb) (rid : string) (w w' : world) :
  reachable any_recipe w ->
  RecipeInDb_id recipe = Ok (JStr rid) ->
  add recipe w = (Ok tt, w') ->
  exists lt row items links,
    _localized_values (dict_get (data recipe) "localizedTitle" JNull) = Ok lt /\
    recipe_row_of (JStr rid) (isoformat (rdate recipe)) lt
      (json_dumps (JObj (data recipe))) = Ok row /\
    row = recipe_columns rid recipe /\
    (valid_date (rdate recipe) = true -> fromisoformat (r_date row) = Ok (rdate recipe)) /\
    filter (id_is rid) (recipes (opened w')) = [row] /\
    py_iter (dict_get (data recipe) "ingredients" (JArr [])) = Ok items /\
    link_rows_for rid 0 items = Ok links /\
    links_of rid (opened w') = links /\
    map l_position links = seq 0 (List.length items) /\
    links_of_others rid (opened w') = links_of_others rid (opened w) /\
    log w' = (log w ++ effects_of_add items)%list.
Proof.
  intros Hreach Hid Hadd.
  destruct (reachable_consistent _ _ Hreach) as [db [Hdb Hc]].
  destruct (add_ok _ _ _ Hadd)
    as [rid' [i [lt [row [items [c1 [c'
         [Hid' [Hi [Hlt [Hrow [Hit [_ [Hc1 [Hloop [Hfile [_ Hrec]]]]]]]]]]]]]]]]].
  rewrite Hid in Hid'. inversion Hid'; subst rid'. simpl in Hi. inversion Hi; subst i.
  clear Hid' Hi.
  assert (Hcols : row = recipe_columns rid recipe).
  { pose proof Hrow as Hrow'. unfold recipe_row_of in Hrow'. result_inv Hrow'.
    cbn [bind_param] in Hv. inversion Hv; subst v. inversion Hrow'.
    unfold recipe_columns. cbn [text_affinity]. f_equal.
    exact (bound_titles _ _ _ Hlt Hv0). }
  assert (Hrid : r_id row = SText rid) by now rewrite Hcols.
  assert (Hback : valid_date (rdate recipe) = true ->
                  fromisoformat (r_date row) = Ok (rdate recipe)).
  { intros Hvalid. rewrite Hcols. now apply fromisoformat_isoformat. }
  destruct (link_ingredients_appends rid items 0 c1 c' Hloop) as [links [Hlinks Hfinal]].
  { rewrite Hc1. simpl. intros l Hin Hl. unfold links_kept in Hin.
    apply filter_In in Hin. destruct Hin as [_ Hin].
    unfold link_of_recipe in Hin. simpl in Hin. rewrite Hl, String.eqb_refl in Hin.
    discriminate. }
  destruct (link_rows_for_shape rid items 0 links Hlinks) as [Hpos Hown].
  rewrite Hc1 in Hfinal. simpl in Hfinal.
  exists lt, row, items, links.
  rewrite (opened_some w' _ Hfile).
  repeat split; try assumption.
  - rewrite Hrec, (opened_some w db Hdb).
    apply filter_same_id; [exact Hrid | apply Hc].
  - unfold links_of. rewrite Hfinal, filter_app.
    rewrite (filter_none _ (links_kept (SText rid) (opened w))) by apply forallb_filter.
    now rewrite filter_all.
  - unfold links_of_others. rewrite Hfinal, filter_app.
    rewrite (filter_all _ (links_kept (SText rid) (opened w))) by apply forallb_filter.
    rewrite filter_none by now apply forallb_negb_negb.
    now rewrite app_nil_r.
  - now apply (add_trace recipe).
Qed.

(** ** ORDER BY sorts *)

Section SortingFacts.
Context {A : Type} (le : A -> A -> bool).
Hypothesis le_total : forall x y, le x y = false -> le y x = true.

Lemma insert_sorted_perm (x : A) (l : list A) :
  Permutation (x :: l) (insert_sorted le x l).
Proof.
  induction l as [| y l IH]; simpl; [apply Permutation_refl |].
  destruct (le x y); [apply Permutation_refl |].
  eapply perm_trans; [apply perm_swap | now apply perm_skip].
Qed.

Lemma order_by_perm (l : list A) : Permutation l (order_by le l).
Proof.
  induction l as [| x l IH]; simpl; [apply perm_nil |].
  eapply perm_trans; [apply perm_skip, IH | apply insert_sorted_perm].
Qed.

Lemma insert_sorted_sorted (x : A) (l : list A) :
  Sorted (fun a b => le a b = true) l ->
  Sorted (fun a b => le a b = true) (insert_sorted le x l).
Proof.
  induction l as [| y l IH]; simpl; intros Hs.
  - repeat constructor.
  - destruct (le x y) eqn:E.
    + constructor; [exact Hs | constructor; exact E].
    + inversion Hs as [| ? ? Hl Hhd]; subst. constructor; [now apply IH |].
      destruct l as [| z l]; simpl.
      * constructor. now apply le_total.
      * destruct (le x z); constructor; [now apply le_total |].
        now inversion Hhd.
Qed.

Lemma order_by_sorted (l : list A) : Sorted (fun a b => le a b = true) (order_by le l).
Proof.
  induction l as [| x l IH]; simpl; [constructor | now apply insert_sorted_sorted].
Qed.

End SortingFacts.

Lemma forallb_perm {A : Type} (p : A -> bool) (l l' : list A) :
  Permutation l l' -> forallb p l = true -> forallb p l' = true.
Proof.
  intros Hp H. rewrite forallb_forall in *. intros x Hx. apply H.
  eapply Permutation_in; [apply Permutation_sym; exact Hp | exact Hx].
Qed.

(** ** list_ingredients and the plural forms (C8) *)

Lemma optional_text_texty (v : sqlval) :
  texty v = true ->
  exists o, optional_text v = Ok o /\ nonempty o = negb (empty_field v).
Proof.
  destruct v; simpl; intros H; try discriminate.
  - now exists None.
  - now exists (Some s).
Qed.

Lemma localized_string_texty (cols : localized sqlval) :
  texty_localized cols = true ->
  exists l, LocalizedString_of cols = Ok l /\ any_value l = negb (all_empty cols).
Proof.
  unfold texty_localized. intros H.
  repeat (apply andb_prop in H; destruct H as [H ?]).
  destruct (optional_text_texty (en cols)) as [a [Ha Ha']]; [assumption |].
  destruct (optional_text_texty (de cols)) as [b [Hb Hb']]; [assumption |].
  destruct (optional_text_texty (es cols)) as [c [Hc Hc']]; [assumption |].
  destruct (optional_text_texty (fr cols)) as [d [Hd Hd']]; [assumption |].
  destruct (optional_text_texty (pt cols)) as [e [He He']]; [assumption |].
  exists (Localized a b c d e). unfold LocalizedString_of, any_value, all_empty.
  rewrite Ha, Hb, Hc, Hd, He. simpl. split; [reflexivity |].
  rewrite Ha', Hb', Hc', Hd', He'. now rewrite !negb_andb.
Qed.

Lemma reported_of_texty (cols : localized sqlval) :
  texty_localized cols = true ->
  exists l, LocalizedString_of cols = Ok l /\
            reported cols (if any_value l then Some l else None).
Proof.
  intros H. destruct (localized_string_texty cols H) as [l [Hl Hany]].
  exists l. split; [exact Hl |]. exists l. split; [exact Hl |].
  rewrite Hany. now destruct (all_empty cols).
Qed.

Lemma ingredient_record_of_texty (row : ingredient_row) :
  text_columns row = true ->
  exists rec, ingredient_record_of row = Ok rec /\ reports row rec.
Proof.
  unfold text_columns. intros H.
  repeat (apply andb_prop in H; destruct H as [H ?]).
  destruct (localized_string_texty (i_title row)) as [lt [Hlt _]]; [assumption |].
  destruct (reported_of_texty (i_number_title row)) as [nt [Hnt Hrn]]; [assumption |].
  destruct (reported_of_texty (i_uncountable_title row)) as [ut [Hut Hru]]; [assumption |].
  destruct (optional_text_texty (i_typ row)) as [t [Ht _]]; [assumption |].
  destruct (optional_text_texty (i_category row)) as [c [Hc _]]; [assumption |].
  unfold ingredient_record_of. rewrite Hlt, Hnt, Hut, Ht, Hc. cbn [result_bind].
  eexists. split; [reflexivity |]. repeat split; assumption.
Qed.

Lemma ingredient_records_texty (rows : list ingredient_row) :
  forallb text_columns rows = true ->
  exists recs, ingredient_records rows = Ok recs /\ Forall2 reports rows recs.
Proof.
  induction rows as [| row rest IH]; simpl; intros H.
  - exists []. split; [reflexivity | constructor].
  - apply andb_prop in H. destruct H as [Hrow Hrest].
    destruct (ingredient_record_of_texty row Hrow) as [rec [Hrec Hrep]].
    destruct (IH Hrest) as [recs [Hrecs Hreps]].
    exists (rec :: recs). rewrite Hrec, Hrecs. split; [reflexivity | now constructor].
Qed.

(** C8, as amended: in every reachable world [list_ingredients] returns,
    with one record for each stored ingredient row, and in each record
    [number_title] and [uncountable_title] are absent exactly when every
    language column of the form is NULL or the empty string, and are
    otherwise the mapping of the five columns as stored.  A form recorded
    with empty strings only is therefore reported as absent, like a form
    that was never recorded. *)
Theorem list_ingredients_plural_forms (w : world) :
  reachable any_recipe w ->
  exists rows recs,
    Permutation (ingredients (opened w)) rows /\
    list_ingredients w = (Ok recs, w) /\
    Forall2 reports rows recs.
Proof.
  intros Hreach. destruct (reachable_consistent _ _ Hreach) as [db [Hdb Hc]].
  rewrite (opened_some w db Hdb).
  exists (order_by ingredient_order (ingredients db)).
  pose proof (order_by_perm ingredient_order (ingredients db)) as Hperm.
  destruct (ingredient_records_texty (order_by ingredient_order (ingredients db)))
    as [recs [Hrecs Hreps]].
  { eapply forallb_perm; [exact Hperm | apply Hc]. }
  exists recs. split; [exact Hperm | split; [| exact Hreps]].
  unfold list_ingredients.
  rewrite (read_on_existing _ w db Hdb (has_tables db Hc)). now rewrite Hrecs.
Qed.

(** ** list() (C6) *)

Lemma sqlval_compare_antisym (a b : sqlval) :
  sqlval_compare a b = CompOpp (sqlval_compare b a).
Proof.
  destruct a, b; simpl; try reflexivity.
  - apply Z.compare_antisym.
  - apply String.compare_antisym.
Qed.

Lemma recipe_order_total (a b : recipe_row) :
  recipe_order a b = false -> recipe_order b a = true.
Proof.
  unfold recipe_order.
  rewrite (String.compare_antisym (r_date b) (r_date a)).
  rewrite (sqlval_compare_antisym (r_id b) (r_id a)).
  destruct (String.compare (r_date a) (r_date b)); simpl; try discriminate; auto.
  destruct (sqlval_compare (r_id a) (r_id b)); simpl; try discriminate; auto.
Qed.

Lemma recipe_order_listed (ra rb : RecipeInDb) (a b : recipe_row) :
  stored_as ra a -> stored_as rb b -> recipe_order a b = listed_before ra rb.
Proof.
  intros [[Hva _] [Hia [Hda _]]] [[Hvb _] [Hib [Hdb _]]].
  unfold recipe_order, listed_before.
  rewrite Hda, Hdb, Hia, Hib, isoformat_compare by assumption.
  reflexivity.
Qed.

Lemma Forall_upsert_recipe_row (P : recipe_row -> Prop) new rows :
  P new -> Forall P rows -> Forall P (upsert_recipe_row new rows).
Proof.
  intros Hnew. induction 1 as [| old rest Hold Hrest IH]; simpl.
  - now constructor.
  - destruct (pk_conflict (r_id old) (r_id new)) eqn:E.
    + rewrite recipe_update_is_new by exact E. now constructor.
    + now constructor.
Qed.

Lemma preserves_bind_lift_ok {A B : Type} (I : database -> Prop) (a : A) (k : A -> DB B) :
  preserves I (k a) -> preserves I (bind (lift (Ok a)) k).
Proof. intros H c. apply H. Qed.

Lemma preserves_recipes_only {A : Type} (m : DB A) :
  keeps recipes m -> preserves decodable m.
Proof. intros H c. unfold decodable. now rewrite H. Qed.

Lemma upsert_recipe_decodable recipe :
  valid_input recipe -> preserves decodable (_upsert_recipe recipe).
Proof.
  intros Hvalid. pose proof Hvalid as [Hdate [[s Hid] Hjson]].
  unfold _upsert_recipe. rewrite Hid. apply preserves_bind_lift_ok.
  apply preserves_bind; [apply preserves_lift | intros lt].
  apply preserves_bind.
  - apply preserves_execute_write. intros db db' Hdec H.
    unfold sql_insert_recipe in H. result_inv H. inversion H; subst db'.
    unfold decodable. simpl. apply Forall_upsert_recipe_row; [| exact Hdec].
    exists recipe. unfold recipe_row_of in Hv. result_inv Hv.
    simpl in Hv0. inversion Hv0; subst v0. inversion Hv; subst v. simpl.
    repeat split; try assumption.
    + now exists s.
    + unfold id_text. now rewrite Hid.
  - intros _. apply preserves_recipes_only.
    keeps_steps_with ltac:(apply link_ingredients_keeps_recipes).
    apply keeps_execute_write. intros db db' H. now apply delete_links_frame in H.
Qed.

Lemma upsert_each_decodable rs :
  Forall valid_input rs -> preserves decodable (upsert_each rs).
Proof.
  induction 1 as [| r rest Hr Hrest IH]; simpl.
  - apply preserves_ret.
  - apply preserves_bind; [now apply upsert_recipe_decodable | intros _; exact IH].
Qed.

Lemma reachable_decodable (w : world) :
  reachable valid_input w -> decodable (opened w).
Proof.
  induction 1 as [| w _ IH | r w Hr _ IH | rs w Hrs _ IH].
  - constructor.
  - unfold opened. rewrite init_file. exact IH.
  - destruct (connect_invariant decodable (_upsert_recipe r) (create_backup w)
                (tidy_upsert_recipe r) (upsert_recipe_decodable r Hr)) as [db [Hf Hd]].
    + now rewrite opened_create_backup.
    + unfold add. now rewrite (opened_some _ _ Hf).
  - destruct (connect_invariant decodable (upsert_each rs) (create_backup w)
                (tidy_upsert_each rs) (upsert_each_decodable rs Hrs)) as [db [Hf Hd]].
    + now rewrite opened_create_backup.
    + unfold add_list. now rewrite (opened_some _ _ Hf).
Qed.

(** Reading the rows back gives the recipes they hold. *)
Lemma rows_to_recipes_decodable (rows : list recipe_row) :
  Forall (fun row => exists r, stored_as r row) rows ->
  exists rs, _rows_to_recipes (map selected rows) = Ok rs /\ Forall2 stored_as rs rows.
Proof.
  induction 1 as [| row rest [r Hr] _ [rs [Hrs Hall]]].
  - exists []. split; [reflexivity | constructor].
  - exists (r :: rs). split; [| now constructor].
    destruct Hr as [[Hdate [_ Hjson]] [_ [Hd Hraw]]].
    cbn [map selected _rows_to_recipes]. rewrite Hd, Hraw.
    rewrite fromisoformat_isoformat by exact Hdate. rewrite Hjson.
    cbn [result_bind]. rewrite Hrs. cbn [result_bind]. now destruct r.
Qed.

Lemma rows_to_recipes_cons row rows rs :
  _rows_to_recipes (row :: rows) = Ok rs ->
  exists r rest, rs = r :: rest /\ _rows_to_recipes [row] = Ok [r] /\
                 _rows_to_recipes rows = Ok rest.
Proof.
  destruct row as [d raw]. cbn [_rows_to_recipes]. intros H. result_inv H.
  inversion H; subst rs. exists v1, v2. repeat split; [| exact Hv2].
  rewrite Hv, Hv0. cbn [result_bind]. rewrite Hv1. reflexivity.
Qed.

Lemma rows_to_recipes_join row rows r rest :
  _rows_to_recipes [row] = Ok [r] -> _rows_to_recipes rows = Ok rest ->
  _rows_to_recipes (row :: rows) = Ok (r :: rest).
Proof.
  destruct row as [d raw]. cbn [_rows_to_recipes]. intros H Hrest.
  result_inv H. inversion H; subst v1. rewrite Hv, Hv0. cbn [result_bind].
  rewrite Hv1. cbn [result_bind]. now rewrite Hrest.
Qed.

Lemma rows_to_recipes_perm (rows rows' : list (string * string)) :
  Permutation rows rows' ->
  forall rs, _rows_to_recipes rows = Ok rs ->
             exists rs', _rows_to_recipes rows' = Ok rs' /\ Permutation rs rs'.
Proof.
  induction 1 as [| x l l' Hp IH | x y l | l l' l'' Hp1 IH1 Hp2 IH2]; intros rs H.
  - exists rs. split; [exact H | apply Permutation_refl].
  - destruct (rows_to_recipes_cons _ _ _ H) as [r [rest [-> [Hx Hl]]]].
    destruct (IH _ Hl) as [rest' [Hl' Hperm]].
    exists (r :: rest'). split; [now apply rows_to_recipes_join | now apply perm_skip].
  - destruct (rows_to_recipes_cons _ _ _ H) as [ry [rest0 [-> [Hy H0]]]].
    destruct (rows_to_recipes_cons _ _ _ H0) as [rx [rest [-> [Hx Hl]]]].
    exists (rx :: ry :: rest). split; [| apply perm_swap].
    apply rows_to_recipes_join; [exact Hx |]. now apply rows_to_recipes_join.
  - destruct (IH1 _ H) as [rs' [H' Hperm']].
    destruct (IH2 _ H') as [rs'' [H'' Hperm'']].
    exists rs''. split; [exact H'' | eapply perm_trans; eassumption].
Qed.

Lemma sorted_transfer (rs : list RecipeInDb) (rows : list recipe_row) :
  Forall2 stored_as rs rows ->
  Sorted (fun a b => recipe_order a b = true) rows ->
  Sorted (fun a b => listed_before a b = true) rs.
Proof.
  induction 1 as [| r row rs rows Hr Hrest IH]; intros Hs; [constructor |].
  inversion Hs as [| ? ? Hs' Hhd]; subst. constructor; [now apply IH |].
  destruct Hrest as [| r' row' rs' rows' Hr' _]; constructor.
  inversion Hhd; subst. now rewrite <- (recipe_order_listed r r' row row').
Qed.

Lemma string_leb_trans (a b c : string) :
  String.leb a b = true -> String.leb b c = true -> String.leb a c = true.
Proof.
  unfold String.leb. intros Hab Hbc.
  destruct (String.compare a b) eqn:Eab; try discriminate.
  - apply String.compare_eq_iff in Eab. now subst.
  - destruct (String.compare b c) eqn:Ebc; try discriminate.
    + apply String.compare_eq_iff in Ebc. subst. now rewrite Eab.
    + apply OrderedTypeEx.String_as_OT.cmp_lt in Eab, Ebc.
      pose proof (OrderedTypeEx.String_as_OT.lt_trans _ _ _ Eab Ebc) as H.
      apply OrderedTypeEx.String_as_OT.cmp_lt in H.
      unfold OrderedTypeEx.String_as_OT.cmp in H. now rewrite H.
Qed.

Lemma date_compare_eq (a b : date) :
  date_compare a b = Eq -> year a = year b /\ month a = month b /\ day a = day b.
Proof.
  unfold date_compare.
  destruct (Z.compare_spec (year a) (year b)); try discriminate.
  destruct (Z.compare_spec (month a) (month b)); try discriminate.
  destruct (Z.compare_spec (day a) (day b)); try discriminate. auto.
Qed.

Lemma date_compare_gt (a b : date) :
  date_compare a b = Gt <->
  year a > year b \/
  (year a = year b /\ (month a > month b \/ (month a = month b /\ day a > day b))).
Proof.
  unfold date_compare.
  destruct (Z.compare_spec (year a) (year b));
    destruct (Z.compare_spec (month a) (month b));
    destruct (Z.compare_spec (day a) (day b));
    split; intros; try discriminate; try reflexivity; lia.
Qed.

Lemma date_compare_trans_gt (a b c : date) :
  (date_compare a b = Gt /\ date_compare b c <> Lt) \/
  (date_compare a b <> Lt /\ date_compare b c = Gt) ->
  date_compare a c = Gt.
Proof.
  intros H. apply date_compare_gt.
  destruct H as [[Hab Hbc] | [Hab Hbc]].
  - apply date_compare_gt in Hab.
    destruct (date_compare b c) eqn:E; try congruence.
    + apply date_compare_eq in E. lia.
    + apply date_compare_gt in E. lia.
  - apply date_compare_gt in Hbc.
    destruct (date_compare a b) eqn:E; try congruence.
    + apply date_compare_eq in E. lia.
    + apply date_compare_gt in E. lia.
Qed.

Lemma date_compare_trans_eq (a b c : date) :
  date_compare a b = Eq -> date_compare b c = Eq -> date_compare a c = Eq.
Proof.
  intros Hab Hbc. apply date_compare_eq in Hab, Hbc. unfold date_compare.
  destruct Hab as [-> [-> ->]], Hbc as [-> [-> ->]]. now rewrite !Z.compare_refl.
Qed.

Lemma listed_before_trans : Transitive (fun a b => listed_before a b = true).
Proof.
  intros a b c. unfold listed_before.
  destruct (date_compare (rdate a) (rdate b)) eqn:Eab; try discriminate;
    destruct (date_compare (rdate b) (rdate c)) eqn:Ebc; try discriminate;
    intros Hab Hbc.
  - rewrite (date_compare_trans_eq _ _ _ Eab Ebc).
    eapply string_leb_trans; eassumption.
  - rewrite (date_compare_trans_gt _ (rdate b)); [reflexivity |].
    right. split; congruence.
  - rewrite (date_compare_trans_gt _ (rdate b)); [reflexivity |].
    left. split; congruence.
  - rewrite (date_compare_trans_gt _ (rdate b)); [reflexivity |].
    left. split; congruence.
Qed.

(** C6: in every world reached by adding valid recipes, [list] returns
    (and changes nothing); what it returns holds every stored recipe
    once, each as it was added; it is ordered by date, later dates first,
    and among recipes of one date by id, smaller ids first: every
    returned recipe stands in that order to every recipe returned after
    it.  On an empty table the result is the empty list. *)
Theorem list_returns_all_sorted (w : world) :
  reachable valid_input w ->
  exists stored listed,
    Forall2 stored_as stored (recipes (opened w)) /\
    list_recipes w = (Ok listed, w) /\
    Permutation stored listed /\
    StronglySorted (fun a b => listed_before a b = true) listed /\
    (recipes (opened w) = [] -> listed = []).
Proof.
  intros Hreach.
  destruct (reachable_consistent _ _ Hreach) as [db [Hdb Hc]].
  pose proof (reachable_decodable w Hreach) as Hdec.
  rewrite (opened_some w db Hdb) in *. unfold decodable in Hdec.
  destruct (rows_to_recipes_decodable _ Hdec) as [stored [Hstored Hall]].
  pose proof (order_by_perm recipe_order (recipes db)) as Hperm.
  destruct (rows_to_recipes_decodable (order_by recipe_order (recipes db)))
    as [listed [Hlisted Hall']].
  { eapply Permutation_Forall; eassumption. }
  destruct (rows_to_recipes_perm _ _ (Permutation_map selected Hperm) _ Hstored)
    as [listed' [Hlisted' Hp]].
  rewrite Hlisted in Hlisted'. inversion Hlisted'; subst listed'.
  exists stored, listed. repeat split.
  - exact Hall.
  - unfold list_recipes.
    rewrite (read_on_existing _ w db Hdb (has_tables db Hc)). now rewrite Hlisted.
  - exact Hp.
  - apply Sorted_StronglySorted; [exact listed_before_trans |].
    eapply sorted_transfer; [exact Hall' |].
    apply order_by_sorted. exact recipe_order_total.
  - intros Hempty. rewrite Hempty in Hall. inversion Hall; subst.
    now apply Permutation_nil in Hp.
Qed.

(** ** needs_to_be_synced and the dates of the stored recipes (C7) *)




(** ** A recipe with a keyless ingredient is rejected whole (C2) *)

Lemma bindable_ok (v : json) : bindable v = true -> exists s, bind_param v = Ok s.
Proof. unfold bindable. destruct (bind_param v) as [s | e]; [now exists s | discriminate]. Qed.

Lemma shaped_titles_ok (v : json) :
  shaped_titles v = true ->
  exists lt lt', _localized_values v = Ok lt /\ bind_localized lt = Ok lt'.
Proof.
  intros H. unfold _localized_values.
  assert (Hd : exists d, py_or v (JObj []) = JObj d /\
                         forallb (fun lang => bindable (dict_get d lang JNull)) languages = true).
  { unfold py_or. destruct v; simpl in H; try (apply negb_true_iff in H; simpl; rewrite H);
      try (exists []; split; reflexivity).
    destruct fields as [| f fs]; [exists []; split; reflexivity |].
    exists (f :: fs). split; [reflexivity | exact H]. }
  destruct Hd as [d [-> Hd]]. simpl in Hd.
  repeat (apply andb_prop in Hd; let Hx := fresh "Hx" in destruct Hd as [Hx Hd]).
  apply bindable_ok in Hx, Hx0, Hx1, Hx2, Hx3.
  destruct Hx as [a Ha], Hx0 as [b Hb], Hx1 as [c Hc], Hx2 as [d' Hd'], Hx3 as [e He].
  eexists. eexists. cbn [py_get result_bind]. split; [reflexivity |].
  unfold bind_localized. simpl. rewrite Ha, Hb, Hc, Hd', He. reflexivity.
Qed.

Lemma key_from_titles_keyless (t : dict) (langs : list string) :
  existsb truthy (map (fun lang => dict_get t lang JNull) langs) = false ->
  key_from_titles (JObj t) langs = Raise ValueError.
Proof.
  induction langs as [| lang rest IH]; simpl; [reflexivity |].
  intros H. apply orb_false_elim in H. destruct H as [Hv Hrest].
  rewrite Hv. now apply IH.
Qed.

Lemma keyless_details_raises (details : json) :
  keyless_details details = true ->
  _canonical_ingredient_key details = Raise ValueError.
Proof.
  destruct details as [| | | | | d]; simpl; try discriminate.
  intros H. apply andb_prop in H. destruct H as [Ht Hk].
  apply negb_true_iff in Ht. unfold _canonical_ingredient_key.
  cbn [py_get result_bind]. rewrite Ht.
  destruct (dict_get d "localizedTitle" (JObj [])) as [| | | | | t]; try discriminate.
  apply negb_true_iff in Hk. now apply key_from_titles_keyless.
Qed.

Lemma key_from_titles_shaped (t : dict) (langs : list string) :
  forallb text_or_null (map (fun lang => dict_get t lang JNull) langs) = true ->
  existsb truthy (map (fun lang => dict_get t lang JNull) langs) = true ->
  exists k, key_from_titles (JObj t) langs = Ok k.
Proof.
  induction langs as [| lang rest IH]; simpl; [discriminate |].
  intros Hs He. apply andb_prop in Hs. destruct Hs as [Hv Hs].
  destruct (truthy (dict_get t lang JNull)) eqn:E.
  - destruct (dict_get t lang JNull); try discriminate. eexists. reflexivity.
  - simpl in He. now apply IH.
Qed.

Lemma shaped_details_key (details : json) :
  shaped_details details = true -> keyless_details details = false ->
  exists k, _canonical_ingredient_key details = Ok k.
Proof.
  destruct details as [| | | | | d]; try discriminate.
  intros Hs Hk. unfold shaped_details in Hs. unfold keyless_details in Hk.
  repeat (apply andb_prop in Hs; destruct Hs as [Hs ?]).
  unfold _canonical_ingredient_key. cbn [py_get result_bind].
  destruct (truthy (dict_get d "typ" JNull)) eqn:Et.
  - unfold py_getitem, dict_get in *. destruct (lookup "typ" d); [| discriminate].
    eexists. reflexivity.
  - cbn [result_bind]. cbn [negb andb orb] in *.
    match goal with H : shaped_key_titles _ = true |- _ => rename H into Hkt end.
    unfold shaped_key_titles in Hkt. unfold dict_get in Hk |- * at 1.
    destruct (lookup "localizedTitle" d) as [[| | | | | t] |]; try discriminate.
    apply negb_false_iff in Hk. now apply key_from_titles_shaped.
Qed.

Lemma shaped_details_row (details : json) :
  shaped_details details = true -> keyless_details details = false ->
  exists row, ingredient_row_for details = Ok row.
Proof.
  intros Hs Hk. destruct (shaped_details_key details Hs Hk) as [k Hkey].
  destruct details as [| | | | | d]; simpl in Hs; try discriminate.
  repeat (apply andb_prop in Hs; destruct Hs as [Hs ?]).
  repeat match goal with
         | H : bindable _ = true |- _ => apply bindable_ok in H; destruct H as [? ?]
         | H : shaped_titles _ = true |- _ =>
             apply shaped_titles_ok in H; destruct H as [? [? [? ?]]]
         end.
  unfold ingredient_row_for. rewrite Hkey. cbn [py_get result_bind].
  repeat match goal with
         | H : _localized_values _ = Ok _ |- _ => rewrite H; clear H
         end.
  cbn [result_bind]. unfold ingredient_row_of.
  repeat match goal with
         | H : bind_param _ = Ok _ |- _ => rewrite H; clear H
         | H : bind_localized _ = Ok _ |- _ => rewrite H; clear H
         end.
  cbn [result_bind]. eexists. reflexivity.
Qed.

(** Running the steps forward. *)
Lemma upsert_ingredient_runs details c row :
  ingredient_row_for details = Ok row ->
  has_schema (current c) = true ->
  exists c',
    _upsert_ingredient details c = (Ok (i_key row), c') /\
    current c' = set_ingredients (current c)
                   (upsert_ingredient_row row (ingredients (current c))).
Proof.
  intros Hrow Hs. pose proof Hrow as Hrow'. unfold ingredient_row_for in Hrow.
  result_inv Hrow. unfold _upsert_ingredient.
  unfold bind at 1. unfold lift at 1. rewrite Hv.
  unfold bind at 1. unfold lift at 1. rewrite Hv0.
  unfold bind at 1. unfold lift at 1. rewrite Hv1.
  unfold bind at 1. unfold lift at 1. rewrite Hv2.
  unfold bind at 1. unfold lift at 1. rewrite Hv3.
  unfold bind at 1. unfold lift at 1. rewrite Hv4.
  unfold bind, execute_write, sql_insert_ingredient. rewrite Hs, Hrow.
  cbn [result_bind]. rewrite (ingredient_row_of_key _ _ _ _ _ _ _ Hrow).
  eexists. split; reflexivity.
Qed.

(** One turn of the loop on an entry of the expected shape that has a
    key: the ingredient is upserted, the link inserted, and the loop goes
    on with the next position. *)
Lemma shaped_entry_runs rid item rest position c :
  linkable rid c -> shaped_entry item = true -> keyless item = false ->
  exists c2,
    link_ingredients (JStr rid) position (item :: rest) c
    = link_ingredients (JStr rid) (S position) rest c2 /\
    linkable rid c2.
Proof.
  intros [Hs Hr] Hitem Ek.
  destruct item as [| | | | | e]; try discriminate.
  cbn [link_ingredients py_get]. unfold bind at 1. unfold lift at 1.
  simpl in Hitem, Ek. apply andb_prop in Hitem. destruct Hitem as [Hitem Hm].
  apply andb_prop in Hitem. destruct Hitem as [Hd Hq].
  destruct (shaped_details_row _ Hd Ek) as [row Hrow].
  destruct (upsert_ingredient_runs _ c row Hrow Hs) as [c1 [Hup Hc1]].
  unfold bind at 1. rewrite Hup.
  unfold bind at 1. unfold lift at 1.
  unfold bind at 1. unfold lift at 1.
  apply bindable_ok in Hq, Hm. destruct Hq as [q Hq], Hm as [m Hm].
  assert (Hs1 : has_schema (current c1) = true) by now rewrite Hc1.
  assert (Hr1 : has_recipe rid (current c1) = true) by now rewrite Hc1.
  assert (Hi1 : has_ingredient (i_key row) (current c1) = true).
  { rewrite Hc1. unfold has_ingredient. simpl. apply existsb_upsert_new. }
  unfold bind at 1. unfold execute_write at 1. rewrite Hs1.
  unfold sql_insert_link. cbn [bind_param result_bind text_affinity].
  rewrite Hq, Hm. cbn [result_bind]. rewrite Hr1, Hi1. cbn [andb].
  eexists. split; [reflexivity |].
  split; unfold current; simpl; assumption.
Qed.

Lemma link_ingredients_rejects rid items :
  forall position c,
    linkable rid c ->
    forallb shaped_entry items = true ->
    existsb keyless items = true ->
    fst (link_ingredients (JStr rid) position items c) = Raise ValueError.
Proof.
  induction items as [| item rest IH]; intros position c Hc Hshaped Hbad;
    [discriminate |].
  simpl in Hshaped. apply andb_prop in Hshaped. destruct Hshaped as [Hitem Hrest].
  destruct (keyless item) eqn:Ek.
  - destruct item as [| | | | | e]; try discriminate.
    cbn [link_ingredients py_get]. unfold bind at 1. unfold lift at 1.
    simpl in Ek. unfold _upsert_ingredient. unfold bind at 1. unfold lift at 1.
    now rewrite (keyless_details_raises _ Ek).
  - simpl in Hbad. rewrite Ek in Hbad. simpl in Hbad.
    destruct (shaped_entry_runs rid item rest position c Hc Hitem Ek) as [c2 [-> Hc2]].
    now apply IH.
Qed.

Lemma link_ingredients_accepts rid items :
  forall position c,
    linkable rid c ->
    forallb shaped_entry items = true ->
    existsb keyless items = false ->
    exists c', link_ingredients (JStr rid) position items c = (Ok tt, c').
Proof.
  induction items as [| item rest IH]; intros position c Hc Hshaped Hgood.
  - exists c. reflexivity.
  - simpl in Hshaped. apply andb_prop in Hshaped. destruct Hshaped as [Hitem Hrest].
    simpl in Hgood. apply orb_false_elim in Hgood. destruct Hgood as [Ek Hgood].
    destruct (shaped_entry_runs rid item rest position c Hc Hitem Ek) as [c2 [-> Hc2]].
    now apply IH.
Qed.

(** The steps of [_upsert_recipe] before the loop, on a recipe with a
    string id and acceptable titles. *)
Lemma upsert_recipe_reaches_loop recipe rid items db trace0 :
  has_schema db = true ->
  RecipeInDb_id recipe = Ok (JStr rid) ->
  shaped_titles (dict_get (data recipe) "localizedTitle" JNull) = true ->
  dict_get (data recipe) "ingredients" (JArr []) = JArr items ->
  exists c1,
    _upsert_recipe recipe (Connection db None trace0)
    = link_ingredients (JStr rid) 0 items c1 /\
    linkable rid c1.
Proof.
  intros Hs Hid Htitles Hitems.
  destruct (shaped_titles_ok _ Htitles) as [lt [lt' [Hlt Hlt']]].
  unfold _upsert_recipe.
  unfold bind at 1. unfold lift at 1. rewrite Hid.
  unfold bind at 1. unfold lift at 1. rewrite Hlt.
  unfold bind at 1. unfold execute_write at 1.
  unfold sql_insert_recipe, recipe_row_of.
  cbn [bind_param result_bind text_affinity current pending on_disk].
  rewrite Hs, Hlt'. cbn [result_bind].
  unfold bind at 1. unfold execute_write at 1.
  cbn [current pending on_disk set_recipes has_schema]. rewrite Hs.
  unfold sql_delete_links. cbn [bind_param result_bind].
  unfold bind at 1. unfold lift at 1. rewrite Hitems. cbn [py_iter].
  eexists. split; [reflexivity |].
  split; unfold current; simpl; [exact Hs |].
  unfold has_recipe. simpl. now apply existsb_upsert_recipe_row.
Qed.

(** C2: on a repository whose database file exists with its tables, for
    a recipe with a string id, a title mapping the INSERT accepts and an
    ingredient list whose entries have the shape the upstream client
    supplies: if some ingredient has no typ (none, or an empty one) and
    no non-empty localized title, [add] raises ValueError (the
    malformed-ingredient error), and the database file holds afterwards
    exactly what it held before: no recipe row, no ingredient row and no
    link row of the call is stored, also not those of the ingredients
    before the malformed one. *)
Theorem add_rejects_keyless_ingredient
    (recipe : RecipeInDb) (rid : string) (items : list json) (w : world) (db : database) :
  db_file w = Some db -> has_schema db = true ->
  RecipeInDb_id recipe = Ok (JStr rid) ->
  shaped_titles (dict_get (data recipe) "localizedTitle" JNull) = true ->
  dict_get (data recipe) "ingredients" (JArr []) = JArr items ->
  forallb shaped_entry items = true ->
  existsb keyless items = true ->
  fst (add recipe w) = Raise ValueError /\
  db_file (snd (add recipe w)) = Some db.
Proof.
  intros Hdb Hs Hid Htitles Hitems Hshaped Hbad.
  assert (Hfst : fst (add recipe w) = Raise ValueError).
  { unfold add, _connect. fold (opened (create_backup w)).
    rewrite opened_create_backup, (opened_some w db Hdb).
    destruct (upsert_recipe_reaches_loop recipe rid items db (log (create_backup w))
                Hs Hid Htitles Hitems) as [c1 [-> Hc1]].
    pose proof (link_ingredients_rejects rid items 0 c1 Hc1 Hshaped Hbad) as Hrun.
    destruct (link_ingredients (JStr rid) 0 items c1) as [[[] | e] c]; simpl in Hrun;
      [discriminate | now subst]. }
  split; [exact Hfst |].
  destruct (add recipe w) as [res w'] eqn:Hadd. simpl in *. subst res.
  unfold add in Hadd.
  destruct (connect_raise _ _ _ _ (tidy_upsert_recipe recipe) Hadd) as [Hf _].
  now rewrite Hf, opened_create_backup, (opened_some w db Hdb).
Qed.


(** ** Which recipes [add] accepts *)

(** X1: on a repository whose database file exists with its tables,
    [add] returns for every recipe with a string id, a title mapping the
    INSERT accepts and an ingredient list whose entries have the shape the
    upstream client supplies and each have a typ or a non-empty localized
    title. *)
Theorem add_accepts_shaped_recipe
    (recipe : RecipeInDb) (rid : string) (items : list json) (w : world) (db : database) :
  db_file w = Some db -> has_schema db = true ->
  RecipeInDb_id recipe = Ok (JStr rid) ->
  shaped_titles (dict_get (data recipe) "localizedTitle" JNull) = true ->
  dict_get (data recipe) "ingredients" (JArr []) = JArr items ->
  forallb shaped_entry items = true ->
  existsb keyless items = false ->
  fst (add recipe w) = Ok tt.
Proof.
  intros Hdb Hs Hid Htitles Hitems Hshaped Hgood.
  unfold add, _connect. fold (opened (create_backup w)).
  rewrite opened_create_backup, (opened_some w db Hdb).
  destruct (upsert_recipe_reaches_loop recipe rid items db (log (create_backup w))
              Hs Hid Htitles Hitems) as [c1 [-> Hc1]].
  destruct (link_ingredients_accepts rid items 0 c1 Hc1 Hshaped Hgood) as [c' ->].
  reflexivity.
Qed.

(** ** Reading changes nothing *)

(** X2: on a repository whose database file exists with its tables, the
    four read operations leave the files and the trace as they are. *)
Theorem reads_change_nothing (w : world) (db : database) (d : date) (recipe_id : string) :
  db_file w = Some db -> has_schema db = true ->
  snd (list_recipes w) = w /\
  snd (get recipe_id w) = w /\
  snd (list_ingredients w) = w /\
  snd (needs_to_be_synced d w) = w.
Proof.
  intros Hdb Hs.
  unfold list_recipes, get, list_ingredients, needs_to_be_synced.
  rewrite !(read_on_existing _ w db Hdb Hs).
  repeat split. now destruct (find (id_is recipe_id) (recipes db)).
Qed.

(** X3: the ISO texts of two dates compare, byte by byte, as the dates
    do, and [fromisoformat] reads back what [isoformat] wrote: the TEXT
    column [date] orders and identifies the rows by their date. *)
Theorem iso_text_orders_dates (a b : date) :
  valid_date a = true -> valid_date b = true ->
  String.compare (isoformat a) (isoformat b) = date_compare a b /\
  fromisoformat (isoformat a) = Ok a /\
  (isoformat a = isoformat b -> a = b).
Proof.
  intros Ha Hb. split; [now apply isoformat_compare | split].
  - now apply fromisoformat_isoformat.
  - now apply isoformat_injective.
Qed.

(** ** Whatever [add] raises, nothing is stored *)

(** X4: on a repository whose database file exists, whatever exception
    [add] raises (a missing [_id], a value SQLite cannot bind, a malformed
    ingredient, ...), the database file holds afterwards what it held
    before the call, and the backup holds the same. *)
Theorem add_raising_stores_nothing
    (recipe : RecipeInDb) (w w' : world) (db : database) (e : exn) :
  db_file w = Some db ->
  add recipe w = (Raise e, w') ->
  db_file w' = Some db /\ backup_file w' = Some db.
Proof.
  intros Hdb Hadd. unfold add in Hadd.
  destruct (connect_raise _ _ _ _ (tidy_upsert_recipe recipe) Hadd) as [Hf Hb].
  rewrite Hf, Hb, opened_create_backup, (opened_some w db Hdb).
  split; [reflexivity |]. unfold create_backup. now rewrite Hdb.
Qed.

(** ** Recipes are never lost *)

Lemma existsb_upsert_recipe_old (s : string) new rows :
  existsb (id_is s) rows = true ->
  existsb (id_is s) (upsert_recipe_row new rows) = true.
Proof.
  induction rows as [| old rest IH]; simpl; [discriminate |].
  intros H. destruct (pk_conflict (r_id old) (r_id new)) eqn:E; simpl.
  - rewrite recipe_update_is_new by exact E.
    apply pk_conflict_eq in E. unfold id_is in *. now rewrite <- E.
  - apply orb_prop in H. destruct H as [H | H]; [now rewrite H |].
    rewrite IH by exact H. apply orb_true_r.
Qed.

Lemma insert_recipe_holds s i d lt raw db db' :
  holds_recipe s db -> sql_insert_recipe i d lt raw db = Ok db' -> holds_recipe s db'.
Proof.
  intros Hs H. unfold sql_insert_recipe in H. result_inv H. inversion H; subst db'.
  unfold holds_recipe, has_recipe in *. simpl. now apply existsb_upsert_recipe_old.
Qed.

Lemma holds_recipe_same_recipes s db db' :
  recipes db' = recipes db -> holds_recipe s db -> holds_recipe s db'.
Proof. unfold holds_recipe, has_recipe. now intros ->. Qed.

Lemma upsert_recipe_holds s recipe : preserves (holds_recipe s) (_upsert_recipe recipe).
Proof.
  unfold _upsert_recipe.
  apply preserves_bind; [apply preserves_lift | intros recipe_id].
  apply preserves_bind; [apply preserves_lift | intros lt].
  apply preserves_bind.
  - apply preserves_execute_write. intros db db'. apply insert_recipe_holds.
  - intros _. intros c Hc.
    assert (Hk : keeps recipes
                   (execute_write DeleteLinks (sql_delete_links recipe_id) ;;;
                    items <- lift (py_iter (dict_get (data recipe) "ingredients" (JArr []))) ;;
                    link_ingredients recipe_id 0 items)).
    { keeps_steps_with ltac:(apply link_ingredients_keeps_recipes).
      apply keeps_execute_write. intros db db' H. now apply delete_links_frame in H. }
    eapply holds_recipe_same_recipes; [apply Hk | exact Hc].
Qed.

Lemma upsert_each_holds s rs : preserves (holds_recipe s) (upsert_each rs).
Proof.
  induction rs as [| r rest IH]; simpl.
  - apply preserves_ret.
  - apply preserves_bind; [apply upsert_recipe_holds | intros _; exact IH].
Qed.

(** X5: [add] and [add_list] never remove a recipe: a recipe id that has
    a row before the call has one after it, whether the call returns or
    raises; and an [add] of a recipe with the string id [rid] leaves the
    rows of every other id exactly as they were. *)
Theorem recipes_are_never_lost
    (w : world) (s : string) (recipe : RecipeInDb) (rs : list RecipeInDb) :
  has_recipe s (opened w) = true ->
  has_recipe s (opened (snd (add recipe w))) = true /\
  has_recipe s (opened (snd (add_list rs w))) = true /\
  (forall rid, RecipeInDb_id recipe = Ok (JStr rid) -> s <> rid ->
               filter (id_is s) (recipes (opened (snd (add recipe w))))
               = filter (id_is s) (recipes (opened w))).
Proof.
  intros Hs.
  assert (Hs' : holds_recipe s (opened (create_backup w))).
  { now rewrite opened_create_backup. }
  split; [| split].
  - destruct (connect_invariant (holds_recipe s) (_upsert_recipe recipe) (create_backup w)
                (tidy_upsert_recipe recipe) (upsert_recipe_holds s recipe) Hs')
      as [db' [Hf Hh]].
    unfold add. now rewrite (opened_some _ _ Hf).
  - destruct (connect_invariant (holds_recipe s) (upsert_each rs) (create_backup w)
                (tidy_upsert_each rs) (upsert_each_holds s rs) Hs')
      as [db' [Hf Hh]].
    unfold add_list. now rewrite (opened_some _ _ Hf).
  - intros rid Hid Hne. destruct (add recipe w) as [[[] | e] w'] eqn:Hadd; simpl.
    + destruct (add_ok _ _ _ Hadd)
        as [rid' [i [lt [row [items [c1 [c'
             [Hid' [Hi [_ [Hrow [_ [_ [_ [_ [Hfile [_ Hrec]]]]]]]]]]]]]]]]].
      rewrite Hid in Hid'. inversion Hid'; subst rid'. simpl in Hi.
      inversion Hi; subst i.
      rewrite (opened_some w' _ Hfile), Hrec. apply filter_other_id.
      unfold recipe_row_of in Hrow. result_inv Hrow. simpl in Hv.
      inversion Hv; subst v. inversion Hrow. unfold id_is. simpl.
      apply String.eqb_neq. congruence.
    + unfold add in Hadd.
      destruct (connect_raise _ _ _ _ (tidy_upsert_recipe recipe) Hadd) as [Hf _].
      now rewrite (opened_some w' _ Hf), opened_create_backup.
Qed.

(** ** The foreign keys of the links *)

Lemma link_resolves_grows (db db' : database) (l : link_row) :
  (forall s, has_recipe s db = true -> has_recipe s db' = true) ->
  (forall k, has_ingredient k db = true -> has_ingredient k db' = true) ->
  link_resolves db l = true -> link_resolves db' l = true.
Proof.
  unfold link_resolves. intros Hr Hi H. apply andb_prop in H. destruct H as [H1 H2].
  now rewrite Hr, Hi.
Qed.

Lemma references_grow (db db' : database) :
  (forall s, has_recipe s db = true -> has_recipe s db' = true) ->
  (forall k, has_ingredient k db = true -> has_ingredient k db' = true) ->
  recipe_ingredients db' = recipe_ingredients db ->
  references_hold db -> references_hold db'.
Proof.
  unfold references_hold. intros Hr Hi -> H. rewrite forallb_forall in *.
  intros l Hl. eapply link_resolves_grows; eauto.
Qed.

Lemma insert_recipe_references i d lt raw db db' :
  references_hold db -> sql_insert_recipe i d lt raw db = Ok db' -> references_hold db'.
Proof.
  intros Href H. unfold sql_insert_recipe in H. result_inv H. inversion H; subst db'.
  apply (references_grow db); [| | reflexivity | exact Href].
  - intros s. unfold has_recipe. simpl. apply existsb_upsert_recipe_old.
  - auto.
Qed.

Lemma insert_ingredient_references k t c lt nt ut db db' :
  references_hold db -> sql_insert_ingredient k t c lt nt ut db = Ok db' ->
  references_hold db'.
Proof.
  intros Href H. unfold sql_insert_ingredient in H. result_inv H. inversion H; subst db'.
  apply (references_grow db); [| | reflexivity | exact Href].
  - auto.
  - intros k'. unfold has_ingredient. simpl. apply existsb_upsert_old.
Qed.

Lemma delete_links_references i db db' :
  references_hold db -> sql_delete_links i db = Ok db' -> references_hold db'.
Proof.
  intros Href H. unfold sql_delete_links in H. result_inv H. inversion H; subst db'.
  unfold references_hold in *. rewrite forallb_forall in *. simpl.
  intros l Hl. apply filter_In in Hl. destruct Hl as [Hl _]. exact (Href l Hl).
Qed.

Lemma forallb_upsert_link (p : link_row -> bool) new rows :
  p new = true ->
  (forall old, same_link_key old new = true ->
               p {| l_recipe_id := l_recipe_id old;
                    l_ingredient_key := l_ingredient_key new;
                    l_quantity := l_quantity new;
                    l_measure := l_measure new;
                    l_position := l_position old |} = true) ->
  forallb p rows = true -> forallb p (upsert_link_row new rows) = true.
Proof.
  intros Hnew Hupd. induction rows as [| old rest IH]; simpl; intros H.
  - now rewrite Hnew.
  - apply andb_prop in H. destruct H as [Hold Hrest].
    destruct (same_link_key old new) eqn:E; simpl.
    + now rewrite Hupd, Hrest.
    + now rewrite Hold, IH.
Qed.

Lemma insert_link_references i k q m p db db' :
  references_hold db -> sql_insert_link i k q m p db = Ok db' -> references_hold db'.
Proof.
  intros Href H. unfold sql_insert_link in H. result_inv H.
  destruct (text_affinity v) as [| | rid]; try discriminate.
  destruct (has_recipe rid db && has_ingredient k db) eqn:E; try discriminate.
  inversion H; subst db'. unfold references_hold in *. simpl.
  apply forallb_upsert_link; [exact E | | exact Href].
  intros old Hsame. unfold link_resolves. simpl.
  unfold same_link_key in Hsame. simpl in Hsame.
  apply andb_prop in Hsame. destruct Hsame as [Hsame _].
  apply String.eqb_eq in Hsame. now rewrite Hsame.
Qed.

Lemma upsert_ingredient_references details :
  preserves references_hold (_upsert_ingredient details).
Proof.
  unfold _upsert_ingredient. preserves_steps_with fail.
  apply preserves_execute_write. intros db db'. apply insert_ingredient_references.
Qed.

Lemma link_ingredients_references recipe_id items :
  forall position, preserves references_hold (link_ingredients recipe_id position items).
Proof.
  induction items as [| ingredient rest IH]; intros position; simpl.
  - apply preserves_ret.
  - preserves_steps_with ltac:(first [apply IH | apply upsert_ingredient_references]).
    apply preserves_execute_write. intros db db'. apply insert_link_references.
Qed.

Lemma upsert_recipe_references recipe : preserves references_hold (_upsert_recipe recipe).
Proof.
  unfold _upsert_recipe.
  preserves_steps_with ltac:(apply link_ingredients_references).
  - apply preserves_execute_write. intros db db'. apply insert_recipe_references.
  - apply preserves_execute_write. intros db db'. apply delete_links_references.
Qed.

Lemma upsert_each_references rs : preserves references_hold (upsert_each rs).
Proof.
  induction rs as [| r rest IH]; simpl.
  - apply preserves_ret.
  - apply preserves_bind; [apply upsert_recipe_references | intros _; exact IH].
Qed.

(** X6: in every world reached by any sequence of [add] and [add_list]
    calls, every link names a recipe that has a row and an ingredient
    that has a row: the two foreign keys of recipe_ingredients hold. *)
Theorem links_name_existing_rows (w : world) :
  reachable any_recipe w ->
  forall l, In l (recipe_ingredients (opened w)) ->
            has_recipe (l_recipe_id l) (opened w) = true /\
            has_ingredient (l_ingredient_key l) (opened w) = true.
Proof.
  intros Hreach.
  assert (H : references_hold (opened w)).
  { induction Hreach as [| w _ IH | r w _ _ IH | rs w _ _ IH].
    - reflexivity.
    - unfold opened. rewrite init_file. exact IH.
    - destruct (connect_invariant references_hold (_upsert_recipe r) (create_backup w)
                  (tidy_upsert_recipe r) (upsert_recipe_references r)) as [db [Hf Hd]].
      + now rewrite opened_create_backup.
      + unfold add. now rewrite (opened_some _ _ Hf).
    - destruct (connect_invariant references_hold (upsert_each rs) (create_backup w)
                  (tidy_upsert_each rs) (upsert_each_references rs)) as [db [Hf Hd]].
      + now rewrite opened_create_backup.
      + unfold add_list. now rewrite (opened_some _ _ Hf). }
  intros l Hl. unfold references_hold in H. rewrite forallb_forall in H.
  specialize (H l Hl). unfold link_resolves in H. now apply andb_prop in H.
Qed.

(** ** [get] finds exactly the stored recipes *)

Lemma find_id_is (s : string) (rows : list recipe_row) :
  match find (id_is s) rows with
  | Some row => In row rows /\ r_id row = SText s
  | None => existsb (id_is s) rows = false
  end.
Proof.
  destruct (find (id_is s) rows) as [row |] eqn:E.
  - apply find_some in E. destruct E as [Hin Hid]. split; [exact Hin |].
    now apply pk_conflict_eq in Hid.
  - induction rows as [| r rest IH]; [reflexivity |]. simpl in *.
    destruct (id_is s r); [discriminate |]. now apply IH.
Qed.

Lemma stored_row_decodes (r : RecipeInDb) (row : recipe_row) :
  stored_as r row -> _rows_to_recipes [selected row] = Ok [r].
Proof.
  intros [[Hdate [_ Hjson]] [_ [Hd Hraw]]].
  cbn [map selected _rows_to_recipes]. rewrite Hd, Hraw.
  rewrite fromisoformat_isoformat by exact Hdate. rewrite Hjson.
  cbn [result_bind]. now destruct r.
Qed.

Lemma stored_id_text (r : RecipeInDb) (row : recipe_row) (s : string) :
  stored_as r row -> r_id row = SText s -> id_text r = s.
Proof. intros [_ [Hid _]] Hs. rewrite Hs in Hid. now inversion Hid. Qed.

(** [get] on a file with its tables whose rows hold recipes. *)
Lemma get_on_store (s : string) (w : world) (db : database) :
  db_file w = Some db -> has_schema db = true ->
  Forall (fun row => exists r, stored_as r row) (recipes db) ->
  (has_recipe s db = false /\ get s w = (Ok None, w)) \/
  (exists r row,
      In row (recipes db) /\ stored_as r row /\ id_text r = s /\
      has_recipe s db = true /\ get s w = (Ok (Some r), w)).
Proof.
  intros Hdb Hs Hdec.
  unfold get. rewrite (read_on_existing _ w db Hdb Hs).
  pose proof (find_id_is s (recipes db)) as Hfind.
  destruct (find (id_is s) (recipes db)) as [row |] eqn:E; cbn [option_map].
  - right. destruct Hfind as [Hin Hid].
    rewrite Forall_forall in Hdec. destruct (Hdec row Hin) as [r Hr].
    exists r, row. split; [exact Hin |]. split; [exact Hr |]. split; [| split].
    + now apply (stored_id_text r row).
    + unfold has_recipe. apply existsb_exists. exists row. split; [exact Hin |].
      apply find_some in E. apply E.
    + rewrite (stored_row_decodes r row Hr). reflexivity.
  - left. split; [exact Hfind | reflexivity].
Qed.

(** X7: in every world reached by adding valid recipes, [get] never
    raises and changes nothing; it answers None exactly when no row has
    the id, and otherwise the recipe held by a row of the table, whose id
    is the one asked for. *)
Theorem get_finds_exactly_the_stored (w : world) (s : string) :
  reachable valid_input w ->
  (has_recipe s (opened w) = false /\ get s w = (Ok None, w)) \/
  (exists r row,
      In row (recipes (opened w)) /\ stored_as r row /\ id_text r = s /\
      has_recipe s (opened w) = true /\ get s w = (Ok (Some r), w)).
Proof.
  intros Hreach.
  destruct (reachable_consistent _ _ Hreach) as [db [Hdb Hc]].
  pose proof (reachable_decodable w Hreach) as Hdec.
  rewrite (opened_some w db Hdb) in *.
  apply (get_on_store s w db Hdb (has_tables db Hc)). exact Hdec.
Qed.

(** ** [list_by_id] is [get], tabulated *)

Lemma filter_length_perm {A : Type} (p : A -> bool) (l l' : list A) :
  Permutation l l' -> List.length (filter p l) = List.length (filter p l').
Proof.
  induction 1 as [| x l l' _ IH | x y l | l l' l'' _ IH1 _ IH2]; simpl.
  - reflexivity.
  - destruct (p x); simpl; now rewrite IH.
  - destruct (p x), (p y); reflexivity.
  - now rewrite IH1.
Qed.

Lemma filter_unique {A : Type} (p : A -> bool) (l : list A) (x y : A) :
  (List.length (filter p l) <= 1)%nat ->
  In x l -> In y l -> p x = true -> p y = true -> x = y.
Proof.
  intros Hlen Hx Hy Hpx Hpy.
  assert (Hfx : In x (filter p l)) by (apply filter_In; now split).
  assert (Hfy : In y (filter p l)) by (apply filter_In; now split).
  destruct (filter p l) as [| a [| b rest]]; simpl in *.
  - contradiction.
  - destruct Hfx as [<- | []], Hfy as [<- | []]. reflexivity.
  - lia.
Qed.

Lemma Forall2_In_right {A B : Type} (R : A -> B -> Prop) (l : list A) (l' : list B) (y : B) :
  Forall2 R l l' -> In y l' -> exists x, In x l /\ R x y.
Proof.
  induction 1 as [| a b l l' Hab _ IH]; simpl; [contradiction |].
  intros [<- | Hin].
  - exists a. now split; [left |].
  - destruct (IH Hin) as [x [Hx HR]]. exists x. now split; [right |].
Qed.

Lemma Forall2_In_left {A B : Type} (R : A -> B -> Prop) (l : list A) (l' : list B) (x : A) :
  Forall2 R l l' -> In x l -> exists y, In y l' /\ R x y.
Proof.
  induction 1 as [| a b l l' Hab _ IH]; simpl; [contradiction |].
  intros [<- | Hin].
  - exists b. now split; [left |].
  - destruct (IH Hin) as [y [Hy HR]]. exists y. now split; [right |].
Qed.

Lemma stored_id_is (r : RecipeInDb) (row : recipe_row) :
  stored_as r row -> id_is (id_text r) row = true.
Proof.
  intros [_ [Hid _]]. unfold id_is. rewrite Hid. simpl. apply String.eqb_refl.
Qed.

Lemma stored_ids_distinct (rs : list RecipeInDb) (rows : list recipe_row) :
  (forall s, (List.length (filter (id_is s) rows) <= 1)%nat) ->
  Forall2 stored_as rs rows -> NoDup (map id_text rs).
Proof.
  intros Huniq Hall. induction Hall as [| r row rs rows Hr Hall IH]; simpl.
  - constructor.
  - constructor.
    + intros Hin. apply in_map_iff in Hin. destruct Hin as [r' [Heq Hin]].
      destruct (Forall2_In_left _ _ _ _ Hall Hin) as [row' [Hrow' Hr']].
      specialize (Huniq (id_text r)). simpl in Huniq.
      rewrite (stored_id_is r row Hr) in Huniq. simpl in Huniq.
      assert (Hf : In row' (filter (id_is (id_text r)) rows)).
      { apply filter_In. split; [exact Hrow' |]. rewrite <- Heq. now apply stored_id_is. }
      destruct (filter (id_is (id_text r)) rows); [contradiction | simpl in Huniq; lia].
    + apply IH. intros s. specialize (Huniq s). simpl in Huniq.
      destruct (id_is s row); simpl in Huniq; lia.
Qed.

Lemma dict_setitem_new (k : json) (v : RecipeInDb) (d : recipes_by_id) :
  (forall kv, In kv d -> key_eq (fst kv) k = false) ->
  dict_setitem k v d = (d ++ [(k, v)])%list.
Proof.
  induction d as [| [k' v'] rest IH]; simpl; intros H; [reflexivity |].
  pose proof (H (k', v') (or_introl eq_refl)) as Hk. simpl in Hk. rewrite Hk.
  rewrite IH; [reflexivity |].
  intros kv Hkv. apply H. now right.
Qed.

Lemma by_id_of_distinct (rs : list RecipeInDb) :
  forall acc,
    Forall (fun r => exists s, RecipeInDb_id r = Ok (JStr s)) rs ->
    NoDup (map id_text rs) ->
    (forall r kv, In r rs -> In kv acc -> key_eq (fst kv) (JStr (id_text r)) = false) ->
    by_id_of rs acc = Ok (acc ++ map (fun r => (JStr (id_text r), r)) rs)%list.
Proof.
  induction rs as [| r rest IH]; intros acc Hids Hnodup Hacc; simpl.
  - now rewrite app_nil_r.
  - inversion Hids as [| ? ? [s Hs] Hids']; subst.
    inversion Hnodup as [| ? ? Hnotin Hnodup']; subst.
    assert (Hr : id_text r = s) by (unfold id_text; now rewrite Hs).
    rewrite Hs. cbn [result_bind hashable].
    rewrite dict_setitem_new.
    + rewrite IH; [now rewrite <- app_assoc, Hr | exact Hids' | exact Hnodup' |].
      intros r' kv Hr' Hkv. apply in_app_or in Hkv. destruct Hkv as [Hkv | [<- | []]].
      * apply Hacc; [now right | exact Hkv].
      * simpl. apply String.eqb_neq. intros Heq. apply Hnotin.
        rewrite Hr, Heq. now apply in_map.
    + intros kv Hkv. rewrite <- Hr. apply Hacc; [now left | exact Hkv].
Qed.

Lemma dict_getitem_entries (s : string) (rs : list RecipeInDb) :
  dict_getitem (JStr s) (map (fun r => (JStr (id_text r), r)) rs)
  = find (fun r => String.eqb (id_text r) s) rs.
Proof.
  unfold dict_getitem. induction rs as [| r rest IH]; simpl; [reflexivity |].
  destruct (String.eqb (id_text r) s); [reflexivity | exact IH].
Qed.

(** X8: in every world reached by adding valid recipes, [list_by_id]
    returns a dict (and changes nothing) whose values are the recipes of
    [list] in that order, which has one entry for each recipe row, and in
    which looking up an id gives what [get] returns for that id: the
    recipe, or None. *)
Theorem list_by_id_tabulates_get (w : world) :
  reachable valid_input w ->
  exists by_id listed,
    list_by_id w = (Ok by_id, w) /\
    list_recipes w = (Ok listed, w) /\
    map snd by_id = listed /\
    List.length by_id = List.length (recipes (opened w)) /\
    forall s, fst (get s w) = Ok (dict_getitem (JStr s) by_id).
Proof.
  intros Hreach.
  destruct (reachable_consistent _ _ Hreach) as [db [Hdb Hc]].
  pose proof (reachable_decodable w Hreach) as Hdec.
  rewrite (opened_some w db Hdb) in *. unfold decodable in Hdec.
  pose proof (order_by_perm recipe_order (recipes db)) as Hperm.
  destruct (rows_to_recipes_decodable (order_by recipe_order (recipes db)))
    as [listed [Hlisted Hall]].
  { eapply Permutation_Forall; eassumption. }
  assert (Hlist : list_recipes w = (Ok listed, w)).
  { unfold list_recipes.
    rewrite (read_on_existing _ w db Hdb (has_tables db Hc)). now rewrite Hlisted. }
  assert (Huniq : forall s,
             (List.length (filter (id_is s) (order_by recipe_order (recipes db))) <= 1)%nat).
  { intros s. rewrite <- (filter_length_perm _ _ _ Hperm). apply (unique_ids db Hc). }
  assert (Hids : Forall (fun r => exists s, RecipeInDb_id r = Ok (JStr s)) listed).
  { apply Forall_forall. intros r Hr.
    destruct (Forall2_In_left _ _ _ _ Hall Hr) as [row [_ [[_ [Hid _]] _]]]. exact Hid. }
  exists (map (fun r => (JStr (id_text r), r)) listed), listed.
  split; [| split; [exact Hlist | split; [| split]]].
  - unfold list_by_id. rewrite Hlist.
    rewrite (by_id_of_distinct listed []); [reflexivity | exact Hids | |].
    + exact (stored_ids_distinct _ _ Huniq Hall).
    + intros r kv _ [].
  - rewrite map_map. simpl. apply map_id.
  - rewrite length_map, (Forall2_length Hall). symmetry. now apply Permutation_length.
  - intros s. rewrite dict_getitem_entries.
    unfold get. rewrite (read_on_existing _ w db Hdb (has_tables db Hc)). cbn [fst].
    pose proof (find_id_is s (recipes db)) as Hfind.
    destruct (find (id_is s) (recipes db)) as [row |] eqn:E; cbn [option_map fst].
    + destruct Hfind as [Hin Hid].
      assert (Hin' : In row (order_by recipe_order (recipes db))).
      { eapply Permutation_in; eassumption. }
      destruct (Forall2_In_right _ _ _ _ Hall Hin') as [r [Hr Hstored]].
      rewrite (stored_row_decodes r row Hstored). cbn [result_bind]. f_equal.
      destruct (find (fun r0 => String.eqb (id_text r0) s) listed) as [r' |] eqn:E'.
      * apply find_some in E'. destruct E' as [Hr' Hs'].
        apply String.eqb_eq in Hs'.
        destruct (Forall2_In_left _ _ _ _ Hall Hr') as [row' [Hrow' Hstored']].
        assert (row' = row).
        { apply (filter_unique (id_is s) _ _ _ (Huniq s) Hrow' Hin').
          - rewrite <- Hs'. now apply stored_id_is.
          - apply find_some in E. apply E. }
        subst row'. pose proof (stored_row_decodes r' row Hstored') as Hd.
        rewrite (stored_row_decodes r row Hstored) in Hd. now inversion Hd.
      * exfalso. apply (find_none _ _ E') in Hr.
        rewrite (stored_id_text r row s Hstored Hid) in Hr.
        now rewrite String.eqb_refl in Hr.
    + f_equal. destruct (find (fun r0 => String.eqb (id_text r0) s) listed) as [r' |] eqn:E';
        [| reflexivity].
      exfalso. apply find_some in E'. destruct E' as [Hr' Hs'].
      apply String.eqb_eq in Hs'.
      destruct (Forall2_In_left _ _ _ _ Hall Hr') as [row' [Hrow' Hstored']].
      assert (Hrow : In row' (recipes db)).
      { eapply Permutation_in; [apply Permutation_sym; exact Hperm | exact Hrow']. }
      assert (Hex : existsb (id_is s) (recipes db) = true).
      { apply existsb_exists. exists row'. split; [exact Hrow |].
        rewrite <- Hs'. now apply stored_id_is. }
      congruence.
Qed.

(** ** [add_list] and a loop of [add] *)

Lemma view_only_ret {A : Type} (a : A) : view_only (ret a).
Proof. intros c1 c2 H. now split. Qed.

Lemma view_only_lift {A : Type} (r : result A) : view_only (lift r).
Proof. intros c1 c2 H. now split. Qed.

Lemma view_only_bind {A B : Type} (m : DB A) (k : A -> DB B) :
  view_only m -> (forall a, view_only (k a)) -> view_only (bind m k).
Proof.
  intros Hm Hk c1 c2 H. unfold bind. destruct (Hm c1 c2 H) as [Hf Hc].
  destruct (m c1) as [[a1 | e1] c1'], (m c2) as [[a2 | e2] c2']; simpl in *;
    try discriminate.
  - inversion Hf; subst a2. now apply Hk.
  - inversion Hf. split; [reflexivity | exact Hc].
Qed.

Lemma view_only_execute_write s run : view_only (execute_write s run).
Proof.
  intros c1 c2 H. unfold execute_write. rewrite <- H.
  destruct (has_schema (current c1)); [| now split].
  destruct (run (current c1)); now split.
Qed.

Ltac view_only_steps_with leaf :=
  repeat first [ leaf | apply view_only_ret | apply view_only_lift
               | apply view_only_execute_write
               | apply view_only_bind; [| intros ? ] ].

Lemma view_only_upsert_ingredient details : view_only (_upsert_ingredient details).
Proof. unfold _upsert_ingredient. view_only_steps_with fail. Qed.

Lemma view_only_link_ingredients recipe_id items :
  forall position, view_only (link_ingredients recipe_id position items).
Proof.
  induction items as [| ingredient rest IH]; intros position; simpl.
  - apply view_only_ret.
  - view_only_steps_with ltac:(first [apply IH | apply view_only_upsert_ingredient]).
Qed.

Lemma view_only_upsert_recipe recipe : view_only (_upsert_recipe recipe).
Proof.
  unfold _upsert_recipe. view_only_steps_with ltac:(apply view_only_link_ingredients).
Qed.

Lemma connect_outcome {A : Type} (body : DB A) (w : world) :
  fst (_connect body w) = fst (body (Connection (opened w) None (log w))) /\
  (forall a, fst (_connect body w) = Ok a ->
             opened (snd (_connect body w))
             = current (snd (body (Connection (opened w) None (log w))))).
Proof.
  unfold _connect. fold (opened w).
  destruct (body (Connection (opened w) None (log w))) as [[a | e] c]; simpl.
  - split; [reflexivity |]. intros _ _. unfold opened, commit, current.
    now destruct (pending c).
  - split; [reflexivity | discriminate].
Qed.

Lemma add_each_runs (rs : list RecipeInDb) :
  forall w c, current c = opened w ->
    fst (add_each rs w) = fst (upsert_each rs c) /\
    (fst (add_each rs w) = Ok tt ->
     opened (snd (add_each rs w)) = current (snd (upsert_each rs c))).
Proof.
  induction rs as [| r rest IH]; intros w c Hc; simpl.
  - split; [reflexivity |]. now intros _.
  - destruct (connect_outcome (_upsert_recipe r) (create_backup w)) as [Hfst Hopened].
    fold (add r w) in Hfst, Hopened.
    destruct (view_only_upsert_recipe r c
                (Connection (opened (create_backup w)) None (log (create_backup w))))
      as [Hsame Hview].
    { rewrite Hc. now rewrite opened_create_backup. }
    rewrite <- Hsame in Hfst. rewrite <- Hview in Hopened.
    unfold bind. destruct (add r w) as [[[] | e] w'], (_upsert_recipe r c) as [[[] | e'] c'];
      simpl in *; try discriminate.
    + apply IH. symmetry. now apply (Hopened tt).
    + split; [exact Hfst | discriminate].
Qed.

(** X9: [add_list] against the loop that calls [add] once for each
    recipe and gives up at the first exception.  Both have the same
    outcome, the same exception included, and when they return, the
    database file holds the same content after either. *)
Theorem add_list_is_add_each (rs : list RecipeInDb) (w : world) :
  fst (add_list rs w) = fst (add_each rs w) /\
  (fst (add_list rs w) = Ok tt ->
   opened (snd (add_list rs w)) = opened (snd (add_each rs w))).
Proof.
  destruct (connect_outcome (upsert_each rs) (create_backup w)) as [Hfst Hopened].
  fold (add_list rs w) in Hfst, Hopened.
  destruct (add_each_runs rs w
              (Connection (opened (create_backup w)) None (log (create_backup w))))
    as [Hsame Hview].
  { simpl. unfold current. simpl. apply opened_create_backup. }
  split.
  - now rewrite Hfst, Hsame.
  - intros Hok. rewrite (Hopened tt Hok). symmetry. apply Hview.
    now rewrite Hsame, <- Hfst.
Qed.

(** ** The order of [list_ingredients] *)

Lemma optional_text_column (v : sqlval) (o : option string) :
  optional_text v = Ok o -> v = column_of o.
Proof. destruct v; simpl; intros H; inversion H; reflexivity. Qed.

Lemma record_sort_key (row : ingredient_row) (rec : IngredientRecord) :
  ingredient_record_of row = Ok rec ->
  key rec = i_key row /\ ingredient_sort_key row = column_of (shown_title rec).
Proof.
  unfold ingredient_record_of. intros H. result_inv H. inversion H; subst rec; clear H.
  split; [reflexivity |].
  unfold LocalizedString_of in Hv. result_inv Hv. inversion Hv; subst v; clear Hv.
  repeat match goal with
         | Hx : optional_text _ = Ok _ |- _ => apply optional_text_column in Hx
         end.
  unfold ingredient_sort_key, shown_title. simpl.
  repeat match goal with
         | Hx : _ = column_of _ |- _ => rewrite Hx; clear Hx
         end.
  repeat match goal with
         | o : option string |- _ => destruct o
         end; reflexivity.
Qed.

Lemma ingredient_records_each (rows : list ingredient_row) :
  forall recs, ingredient_records rows = Ok recs ->
               Forall2 (fun row rec => ingredient_record_of row = Ok rec) rows recs.
Proof.
  induction rows as [| row rest IH]; simpl; intros recs H.
  - inversion H. constructor.
  - result_inv H. inversion H; subst recs. constructor; [exact Hv | now apply IH].
Qed.

Lemma ingredient_order_listed (a b : ingredient_row) (ra rb : IngredientRecord) :
  ingredient_record_of a = Ok ra -> ingredient_record_of b = Ok rb ->
  ingredient_order a b = ingredient_listed_before ra rb.
Proof.
  intros Ha Hb. apply record_sort_key in Ha, Hb.
  destruct Ha as [_ Ha], Hb as [_ Hb].
  unfold ingredient_order, ingredient_listed_before. rewrite Ha, Hb.
  destruct (shown_title ra), (shown_title rb); reflexivity.
Qed.

Lemma ingredient_order_total (a b : ingredient_row) :
  ingredient_order a b = false -> ingredient_order b a = true.
Proof.
  unfold ingredient_order.
  rewrite (sqlval_compare_antisym (ingredient_sort_key b) (ingredient_sort_key a)).
  destruct (sqlval_compare (ingredient_sort_key a) (ingredient_sort_key b));
    simpl; auto; discriminate.
Qed.

Lemma ingredient_listed_before_trans (a b c : IngredientRecord) :
  ingredient_listed_before a b = true -> ingredient_listed_before b c = true ->
  ingredient_listed_before a c = true.
Proof.
  unfold ingredient_listed_before.
  destruct (shown_title a), (shown_title b), (shown_title c); try discriminate; auto.
  apply string_leb_trans.
Qed.

Lemma ingredients_sorted_transfer (rows : list ingredient_row) (recs : list IngredientRecord) :
  Forall2 (fun row rec => ingredient_record_of row = Ok rec) rows recs ->
  Sorted (fun a b => ingredient_order a b = true) rows ->
  Sorted (fun a b => ingredient_listed_before a b = true) recs.
Proof.
  induction 1 as [| row rec rows recs Hr Hrest IH]; intros Hs; [constructor |].
  inversion Hs as [| ? ? Hs' Hhd]; subst. constructor; [now apply IH |].
  destruct Hrest as [| row' rec' rows' recs' Hr' _]; constructor.
  inversion Hhd; subst. now rewrite <- (ingredient_order_listed row row' rec rec').
Qed.

Lemma keys_distinct (rows : list ingredient_row) :
  (forall k, (List.length (filter (key_is k) rows) <= 1)%nat) -> NoDup (map i_key rows).
Proof.
  induction rows as [| row rest IH]; simpl; intros Huniq; constructor.
  - intros Hin. apply in_map_iff in Hin. destruct Hin as [row' [Heq Hin]].
    specialize (Huniq (i_key row)). unfold key_is in Huniq at 1.
    rewrite String.eqb_refl in Huniq. simpl in Huniq.
    assert (Hf : In row' (filter (key_is (i_key row)) rest)).
    { apply filter_In. split; [exact Hin |]. unfold key_is. rewrite Heq.
      apply String.eqb_refl. }
    destruct (filter (key_is (i_key row)) rest); [contradiction | simpl in Huniq; lia].
  - apply IH. intros k. specialize (Huniq k).
    destruct (key_is k row); simpl in Huniq; lia.
Qed.

Lemma keys_of_records (rows : list ingredient_row) (recs : list IngredientRecord) :
  Forall2 (fun row rec => ingredient_record_of row = Ok rec) rows recs ->
  map key recs = map i_key rows.
Proof.
  induction 1 as [| row rec rows recs Hr _ IH]; simpl; [reflexivity |].
  apply record_sort_key in Hr. destruct Hr as [Hk _]. now rewrite Hk, IH.
Qed.

(** X10: in every world reached by any sequence of [add] and [add_list]
    calls, [list_ingredients] returns (and changes nothing) one record
    for each stored key and no key twice, ordered by the German title,
    where there is none by the English title, where there is neither by
    the typ: records with none of the three come first, the others in the
    order of the bytes of that text, and every record stands in this
    order to every record after it. *)
Theorem list_ingredients_sorted (w : world) :
  reachable any_recipe w ->
  exists recs,
    list_ingredients w = (Ok recs, w) /\
    Permutation (map i_key (ingredients (opened w))) (map key recs) /\
    NoDup (map key recs) /\
    StronglySorted (fun a b => ingredient_listed_before a b = true) recs.
Proof.
  intros Hreach. destruct (reachable_consistent _ _ Hreach) as [db [Hdb Hc]].
  rewrite (opened_some w db Hdb).
  pose proof (order_by_perm ingredient_order (ingredients db)) as Hperm.
  destruct (ingredient_records_texty (order_by ingredient_order (ingredients db)))
    as [recs [Hrecs _]].
  { eapply forallb_perm; [exact Hperm | apply Hc]. }
  pose proof (ingredient_records_each _ _ Hrecs) as Heach.
  pose proof (keys_of_records _ _ Heach) as Hkeys.
  exists recs. split; [| split; [| split]].
  - unfold list_ingredients.
    rewrite (read_on_existing _ w db Hdb (has_tables db Hc)). now rewrite Hrecs.
  - rewrite Hkeys. now apply Permutation_map.
  - rewrite Hkeys. eapply Permutation_NoDup; [apply Permutation_map; exact Hperm |].
    apply keys_distinct. apply (unique_keys db Hc).
  - apply Sorted_StronglySorted; [exact ingredient_listed_before_trans |].
    eapply ingredients_sorted_transfer; [exact Heach |].
    apply order_by_sorted. exact ingredient_order_total.
Qed.

(** ** How many recipes an [add_list] leaves *)

Lemma existsb_upsert_recipe_iff (s : string) new rows :
  existsb (id_is s) (upsert_recipe_row new rows)
  = existsb (id_is s) rows || id_is s new.
Proof.
  induction rows as [| old rest IH]; simpl.
  - apply orb_false_r.
  - destruct (pk_conflict (r_id old) (r_id new)) eqn:E; simpl.
    + rewrite recipe_update_is_new by exact E.
      apply pk_conflict_eq in E.
      assert (Hold : id_is s old = id_is s new) by (unfold id_is; now rewrite E).
      rewrite Hold.
      destruct (id_is s new), (existsb (id_is s) rest); reflexivity.
    + rewrite IH. apply orb_assoc.
Qed.

Lemma upsert_recipe_has_recipe (r : RecipeInDb) (rid : string) c c' :
  RecipeInDb_id r = Ok (JStr rid) ->
  _upsert_recipe r c = (Ok tt, c') ->
  forall s, has_recipe s (current c') = has_recipe s (current c) || String.eqb rid s.
Proof.
  intros Hid Hrun s.
  destruct (upsert_recipe_ok _ _ _ Hrun)
    as [rid' [i [lt [row [items [c1 [Hid' [Hi [_ [Hrow [_ [_ [_ [Hc1 Hlink]]]]]]]]]]]]]].
  rewrite Hid in Hid'. inversion Hid'; subst rid'. simpl in Hi. inversion Hi; subst i.
  pose proof (link_ingredients_keeps_recipes (JStr rid) items 0%nat c1) as Hkeep.
  rewrite Hlink in Hkeep. simpl in Hkeep.
  unfold has_recipe. rewrite Hkeep, Hc1. simpl. rewrite existsb_upsert_recipe_iff.
  f_equal. unfold recipe_row_of in Hrow. result_inv Hrow. simpl in Hv.
  inversion Hv; subst v. inversion Hrow. reflexivity.
Qed.

Lemma upsert_each_has_recipe (rs : list RecipeInDb) :
  Forall (fun r => exists rid, RecipeInDb_id r = Ok (JStr rid)) rs ->
  forall c c', upsert_each rs c = (Ok tt, c') ->
  forall s, has_recipe s (current c')
            = has_recipe s (current c) || existsb (fun r => String.eqb (id_text r) s) rs.
Proof.
  induction 1 as [| r rest [rid Hid] _ IH]; intros c c' Hrun s; simpl in *.
  - inversion Hrun; subst. now rewrite orb_false_r.
  - apply bind_ok in Hrun. destruct Hrun as [[] [c1 [Hr Hrest]]].
    rewrite (IH _ _ Hrest s), (upsert_recipe_has_recipe r rid c c1 Hid Hr s).
    unfold id_text. rewrite Hid. now rewrite orb_assoc.
Qed.

(** X11: in a world reached by adding valid recipes, after an [add_list]
    of valid recipes that returned, an id has a row exactly if it had one
    before or belongs to a recipe of the batch; and when the table was
    empty before, [list] returns as many recipes as there are distinct
    ids in the batch. *)
Theorem add_list_counts_distinct_ids (rs : list RecipeInDb) (w w' : world) :
  reachable valid_input w ->
  Forall valid_input rs ->
  add_list rs w = (Ok tt, w') ->
  (forall s, has_recipe s (opened w')
             = has_recipe s (opened w) || existsb (fun r => String.eqb (id_text r) s) rs) /\
  (recipes (opened w) = [] ->
   exists listed,
     list_recipes w' = (Ok listed, w') /\
     List.length listed = List.length (nodup string_dec (map id_text rs))).
Proof.
  intros Hreach Hvalid Hadd.
  assert (Hhas : forall s, has_recipe s (opened w')
                           = has_recipe s (opened w)
                             || existsb (fun r => String.eqb (id_text r) s) rs).
  { unfold add_list in Hadd.
    destruct (opened_after _ _ _ _ (tidy_upsert_each rs) Hadd) as [c [Hrun Hopen]].
    intros s. rewrite Hopen.
    rewrite (upsert_each_has_recipe rs) with (c := Connection (opened (create_backup w)) None
                                                    (log (create_backup w))).
    - unfold current. simpl. now rewrite opened_create_backup.
    - eapply Forall_impl; [| exact Hvalid]. intros r [_ [Hid _]]. exact Hid.
    - exact Hrun. }
  split; [exact Hhas |]. intros Hempty.
  assert (Hreach' : reachable valid_input w').
  { replace w' with (snd (add_list rs w)) by now rewrite Hadd.
    now apply reach_add_list. }
  destruct (reachable_consistent _ _ Hreach') as [db [Hdb Hc]].
  pose proof (reachable_decodable w' Hreach') as Hdec.
  rewrite (opened_some w' db Hdb) in *. unfold decodable in Hdec.
  destruct (rows_to_recipes_decodable _ Hdec) as [stored [_ Hall]].
  pose proof (order_by_perm recipe_order (recipes db)) as Hperm.
  destruct (rows_to_recipes_decodable (order_by recipe_order (recipes db)))
    as [listed [Hlisted Hall']].
  { eapply Permutation_Forall; eassumption. }
  exists listed. split.
  - unfold list_recipes.
    rewrite (read_on_existing _ w' db Hdb (has_tables db Hc)). now rewrite Hlisted.
  - rewrite (Forall2_length Hall'), <- (Permutation_length Hperm), <- (Forall2_length Hall).
    rewrite <- (length_map id_text stored). apply Permutation_length.
    apply NoDup_Permutation.
    + exact (stored_ids_distinct _ _ (unique_ids db Hc) Hall).
    + apply NoDup_nodup.
    + intros s. rewrite nodup_In. specialize (Hhas s).
      unfold has_recipe in Hhas at 2. rewrite Hempty in Hhas. simpl in Hhas.
      split; intros Hin.
      * apply in_map_iff in Hin. destruct Hin as [r [Hs Hr]].
        destruct (Forall2_In_left _ _ _ _ Hall Hr) as [row [Hrow Hstored]].
        assert (Hex : has_recipe s db = true).
        { apply existsb_exists. exists row. split; [exact Hrow |].
          rewrite <- Hs. now apply stored_id_is. }
        rewrite Hhas in Hex. apply existsb_exists in Hex.
        destruct Hex as [r' [Hr' Heq]]. apply String.eqb_eq in Heq.
        apply in_map_iff. now exists r'.
      * apply in_map_iff in Hin. destruct Hin as [r [Hs Hr]].
        assert (Hex : has_recipe s db = true).
        { rewrite Hhas. apply existsb_exists. exists r. split; [exact Hr |].
          now apply String.eqb_eq. }
        apply existsb_exists in Hex. destruct Hex as [row [Hrow Hid]].
        destruct (Forall2_In_right _ _ _ _ Hall Hrow) as [r' [Hr' Hstored]].
        apply in_map_iff. exists r'. split; [| exact Hr'].
        apply (stored_id_text r' row s Hstored). now apply pk_conflict_eq in Hid.
Qed.

(** ** The tables come from the constructor alone *)

Lemma read_without_tables {A : Type} (q : database -> A) (w : world) :
  has_schema (opened w) = false ->
  _connect (execute_read q) w
  = (Raise SqlOperationalError, World (Some (opened w)) (backup_file w) (log w)).
Proof.
  intros Hs. unfold _connect, execute_read. fold (opened w).
  unfold current. simpl. now rewrite Hs.
Qed.

Lemma upsert_each_cons_needs_tables r rs c c' :
  upsert_each (r :: rs) c = (Ok tt, c') -> has_schema (current c) = true.
Proof.
  simpl. intros H. apply bind_ok in H. destruct H as [[] [c1 [Hr _]]].
  destruct (upsert_recipe_ok _ _ _ Hr)
    as [? [? [? [? [? [? [_ [_ [_ [_ [_ [Hs _]]]]]]]]]]]]. exact Hs.
Qed.

(** X12: while the database has no tables (the file is missing, or is
    the empty file [sqlite3.connect] creates), every operation raises:
    [add] and [add_list] of a non-empty batch raise and leave the content
    as it is, still without tables, and the four reads raise
    sqlite3.OperationalError.  A missing file exists afterwards, empty. *)
Theorem operations_need_the_tables
    (recipe : RecipeInDb) (rs : list RecipeInDb) (s : string) (d : date) (w : world) :
  has_schema (opened w) = false ->
  (exists e, fst (add recipe w) = Raise e) /\
  (exists e, fst (add_list (recipe :: rs) w) = Raise e) /\
  db_file (snd (add recipe w)) = Some (opened w) /\
  db_file (snd (add_list (recipe :: rs) w)) = Some (opened w) /\
  fst (list_recipes w) = Raise SqlOperationalError /\
  fst (get s w) = Raise SqlOperationalError /\
  fst (list_ingredients w) = Raise SqlOperationalError /\
  fst (needs_to_be_synced d w) = Raise SqlOperationalError.
Proof.
  intros Hs.
  assert (Hadd : exists e, add recipe w = (Raise e, snd (add recipe w))).
  { destruct (add recipe w) as [[[] | e] w'] eqn:E; [| now exists e].
    destruct (add_ok _ _ _ E) as [? [? [? [? [? [? [? [_ [_ [_ [_ [_ [Hs' _]]]]]]]]]]]]].
    congruence. }
  assert (Hlist : exists e, add_list (recipe :: rs) w
                            = (Raise e, snd (add_list (recipe :: rs) w))).
  { destruct (add_list (recipe :: rs) w) as [[[] | e] w'] eqn:E; [| now exists e].
    unfold add_list in E.
    destruct (opened_after _ _ _ _ (tidy_upsert_each (recipe :: rs)) E) as [c [Hrun _]].
    apply upsert_each_cons_needs_tables in Hrun. unfold current in Hrun. simpl in Hrun.
    rewrite opened_create_backup in Hrun. congruence. }
  destruct Hadd as [e Hadd], Hlist as [e' Hlist].
  split; [exists e; now rewrite Hadd |]. split; [exists e'; now rewrite Hlist |].
  split; [| split].
  - unfold add in Hadd.
    destruct (connect_raise _ _ _ _ (tidy_upsert_recipe recipe) Hadd) as [Hf _].
    fold (add recipe w) in Hf. now rewrite Hf, opened_create_backup.
  - unfold add_list in Hlist.
    destruct (connect_raise _ _ _ _ (tidy_upsert_each (recipe :: rs)) Hlist) as [Hf _].
    fold (add_list (recipe :: rs) w) in Hf. now rewrite Hf, opened_create_backup.
  - unfold list_recipes, get, list_ingredients, needs_to_be_synced.
    rewrite !(read_without_tables _ w Hs). repeat split.
Qed.

(** X13: the constructor may run on any state of the directory and as
    often as one likes.  After it the tables exist; the rows of the three
    tables are those the file held (none, when there was no file); the
    backup is untouched; the one effect is the schema script; and a second
    run changes neither file. *)
Theorem constructor_creates_tables_once (w : world) :
  has_schema (opened (__init__ w)) = true /\
  recipes (opened (__init__ w)) = recipes (opened w) /\
  ingredients (opened (__init__ w)) = ingredients (opened w) /\
  recipe_ingredients (opened (__init__ w)) = recipe_ingredients (opened w) /\
  backup_file (__init__ w) = backup_file w /\
  log (__init__ w) = (log w ++ [EvExec CreateTables])%list /\
  db_file (__init__ (__init__ w)) = db_file (__init__ w) /\
  backup_file (__init__ (__init__ w)) = backup_file (__init__ w).
Proof.
  pose proof (opened_some _ _ (init_file w)) as Ho. rewrite Ho.
  do 6 (split; [reflexivity |]). split; [| reflexivity].
  apply init_existing; [apply init_file | reflexivity].
Qed.

(** ** The request handlers *)

Lemma get_repo_rows (w : world) : same_rows (opened (get_repo w)) (opened w).
Proof.
  unfold get_repo. rewrite (opened_some _ _ (init_file w)). repeat split.
Qed.

Lemma get_repo_existing (w : world) (db : database) :
  db_file w = Some db -> has_schema db = true ->
  db_file (get_repo w) = Some db /\ backup_file (get_repo w) = backup_file w.
Proof. intros Hdb Hs. split; [now apply init_existing | reflexivity]. Qed.

(** X14: in every world reached by adding valid recipes, the recipe page
    answers 404 exactly when no row has the id, and otherwise renders
    recipe.html with the recipe held by a row of the table, whose id is
    the one in the URL, and with the three fields of its payload; either
    way the two files hold afterwards what they held. *)
Theorem recipe_detail_answers (request : Request) (s : string) (w : world) :
  reachable valid_input w ->
  db_file (snd (recipe_detail request s w)) = db_file w /\
  backup_file (snd (recipe_detail request s w)) = backup_file w /\
  ((has_recipe s (opened w) = false /\
    fst (recipe_detail request s w) = HTTPException 404 "Recipe not found") \/
   (exists r row,
       In row (recipes (opened w)) /\ stored_as r row /\ id_text r = s /\
       fst (recipe_detail request s w)
       = Returns
           (TemplateResponse "recipe.html"
              [("request", CRequest request);
               ("recipe", CRecipe r);
               ("localized_title", CValue (dict_get (data r) "localizedTitle" (JObj [])));
               ("ingredients", CValue (dict_get (data r) "ingredients" (JArr [])));
               ("steps", CValue (dict_get (data r) "steps" (JArr [])))]))).
Proof.
  intros Hreach.
  destruct (reachable_consistent _ _ Hreach) as [db [Hdb Hc]].
  pose proof (reachable_decodable w Hreach) as Hdec.
  rewrite (opened_some w db Hdb) in *.
  destruct (get_repo_existing w db Hdb (has_tables db Hc)) as [Hfile Hbackup].
  unfold recipe_detail.
  destruct (get_on_store s (get_repo w) db Hfile (has_tables db Hc) Hdec)
    as [[Hnone ->] | [r [row [Hin [Hr [Hs [_ ->]]]]]]]; cbn [fst snd].
  - rewrite Hfile, Hdb. split; [reflexivity |]. split; [exact Hbackup |].
    left. now split.
  - rewrite Hfile, Hdb. split; [reflexivity |]. split; [exact Hbackup |].
    right. exists r, row.
    split; [exact Hin |]. split; [exact Hr |]. split; [exact Hs | reflexivity].
Qed.

Lemma unchanged_all_or_nothing (w : world) (o : outcome) :
  (forall r, o = Returns r -> r = RedirectResponse "/" 303) ->
  stores_all_or_nothing w (o, w).
Proof. intros H. split; [exact H |]. split; [intros _; repeat split | auto]. Qed.

(** The tail the three storing handlers share: a repository is built,
    the batch is added, the redirect is returned. *)
Lemma batch_stored_or_nothing (rs : list RecipeInDb) (w : world) :
  stores_all_or_nothing w
    (match add_list rs (get_repo w) with
     | (Ok _, w') => (Returns (RedirectResponse "/" 303), w')
     | (Raise e, w') => (Escapes e, w')
     end).
Proof.
  destruct (get_repo_rows w) as [Hrec [Hing Hlinks]].
  assert (Hkept : forall s, has_recipe s (opened w) = true ->
                            has_recipe s (opened (snd (add_list rs (get_repo w)))) = true).
  { intros s Hs.
    destruct (connect_invariant (holds_recipe s) (upsert_each rs)
                (create_backup (get_repo w)) (tidy_upsert_each rs) (upsert_each_holds s rs))
      as [db' [Hf Hh]].
    - rewrite opened_create_backup. unfold holds_recipe, has_recipe in *. now rewrite Hrec.
    - unfold add_list. now rewrite (opened_some _ _ Hf). }
  destruct (add_list rs (get_repo w)) as [[[] | e] w'] eqn:Hadd;
    unfold stores_all_or_nothing; cbn [fst snd] in *.
  - split; [| split; [| exact Hkept]].
    + intros r Hr. now inversion Hr.
    + intros Hnot. exfalso. now apply (Hnot (RedirectResponse "/" 303)).
  - split; [| split; [| exact Hkept]].
    + discriminate.
    + intros _. unfold add_list in Hadd.
      destruct (connect_raise _ _ _ _ (tidy_upsert_each rs) Hadd) as [Hf _].
      rewrite (opened_some _ _ Hf), opened_create_backup. now repeat split.
Qed.

(** X15: the search handler.  An identifier [parse_id] cannot read is
    answered with 400, and when the client finds no recipe the redirect
    is returned, in both cases without building a repository: no file is
    created, copied or changed.  In every case the handler keeps the
    guarantees of [stores_all_or_nothing]. *)
Theorem search_by_id_guards (recipe_identifier : string) (w : world) :
  (parse_id recipe_identifier = Ok JNull ->
   search_by_id recipe_identifier w
   = (HTTPException 400 "Could not parse recipe id", w)) /\
  (forall parsed, parse_id recipe_identifier = Ok parsed -> parsed <> JNull ->
                  get_by_ids [parsed] = Ok [] ->
                  search_by_id recipe_identifier w
                  = (Returns (RedirectResponse "/" 303), w)) /\
  stores_all_or_nothing w (search_by_id recipe_identifier w).
Proof.
  unfold search_by_id. split; [| split].
  - now intros ->.
  - intros parsed -> Hparsed ->. destruct parsed; try reflexivity. now destruct Hparsed.
  - destruct (parse_id recipe_identifier) as [parsed | e];
      [| apply unchanged_all_or_nothing; discriminate].
    assert (H : stores_all_or_nothing w
                  (match get_by_ids [parsed] with
                   | Ok [] => (Returns (RedirectResponse "/" 303), w)
                   | Ok ((_ :: _) as recipes_) =>
                       let repo := get_repo w in
                       match add_list recipes_ repo with
                       | (Ok _, w') => (Returns (RedirectResponse "/" 303), w')
                       | (Raise e, w') => (Escapes e, w')
                       end
                   | Raise e => (Escapes e, w)
                   end)).
    { destruct (get_by_ids [parsed]) as [[| r rs] | e].
      - apply unchanged_all_or_nothing. intros r Hr. now inversion Hr.
      - apply batch_stored_or_nothing.
      - apply unchanged_all_or_nothing. discriminate. }
    destruct parsed; try exact H. apply unchanged_all_or_nothing. discriminate.
Qed.

(** X16: the handlers that synchronise today's recipes and that back up
    the favorites keep the guarantees of [stores_all_or_nothing],
    whatever the client returns or raises: they return nothing but the
    redirect, leave the rows as they were when they do not return, and
    never lose a stored recipe. *)
Theorem sync_and_backup_store_all_or_nothing (w : world) :
  stores_all_or_nothing w (sync_today w) /\
  stores_all_or_nothing w (backup_favorites w).
Proof.
  split.
  - unfold sync_today. destruct list_today as [rs | e].
    + apply batch_stored_or_nothing.
    + apply unchanged_all_or_nothing. discriminate.
  - unfold backup_favorites.
    destruct (let? favorites := list_favorites in
              let? items := py_iter favorites in
              let? ids := favorite_ids items in get_by_ids ids) as [rs | e].
    + apply batch_stored_or_nothing.
    + apply unchanged_all_or_nothing. discriminate.
Qed.

(** X17: the two listing pages.  In every world reached by adding valid
    recipes they render what [list] and [list_ingredients] return on that
    world, and leave the database file as it is; on a directory without a
    database file (the first request ever) they render empty listings,
    and the recipe page answers 404. *)
Theorem pages_render_what_is_stored (request : Request) (w : world) :
  reachable valid_input w ->
  (exists listed recs,
      list_recipes w = (Ok listed, w) /\
      list_ingredients w = (Ok recs, w) /\
      fst (home request w)
      = Returns (TemplateResponse "index.html"
                   [("request", CRequest request); ("recipes", CRecipes listed)]) /\
      fst (ingredients_page request w)
      = Returns (TemplateResponse "ingredients.html"
                   [("request", CRequest request); ("ingredients", CIngredients recs)]) /\
      db_file (snd (home request w)) = db_file w /\
      db_file (snd (ingredients_page request w)) = db_file w) /\
  (forall w0 s, db_file w0 = None ->
      fst (home request w0)
      = Returns (TemplateResponse "index.html"
                   [("request", CRequest request); ("recipes", CRecipes [])]) /\
      fst (ingredients_page request w0)
      = Returns (TemplateResponse "ingredients.html"
                   [("request", CRequest request); ("ingredients", CIngredients [])]) /\
      fst (recipe_detail request s w0) = HTTPException 404 "Recipe not found").
Proof.
  intros Hreach. split.
  - destruct (reachable_consistent _ _ Hreach) as [db [Hdb Hc]].
    pose proof (reachable_decodable w Hreach) as Hdec.
    rewrite (opened_some w db Hdb) in Hdec. unfold decodable in Hdec.
    destruct (get_repo_existing w db Hdb (has_tables db Hc)) as [Hfile _].
    pose proof (order_by_perm recipe_order (recipes db)) as Hperm.
    destruct (rows_to_recipes_decodable (order_by recipe_order (recipes db)))
      as [listed [Hlisted _]].
    { eapply Permutation_Forall; eassumption. }
    destruct (ingredient_records_texty (order_by ingredient_order (ingredients db)))
      as [recs [Hrecs _]].
    { eapply forallb_perm; [apply order_by_perm | apply Hc]. }
    exists listed, recs.
    unfold home, ingredients_page, list_recipes, list_ingredients.
    rewrite !(read_on_existing _ w db Hdb (has_tables db Hc)).
    rewrite !(read_on_existing _ (get_repo w) db Hfile (has_tables db Hc)).
    rewrite Hlisted, Hrecs. cbn [fst snd]. rewrite Hfile, Hdb. now repeat split.
  - intros w0 s Hw0. unfold home, ingredients_page, recipe_detail.
    assert (Hfile : db_file (get_repo w0) = Some (Database true [] [] [])).
    { unfold get_repo. rewrite init_file. unfold opened. now rewrite Hw0. }
    unfold list_recipes, list_ingredients, get.
    rewrite !(read_on_existing _ (get_repo w0) _ Hfile eq_refl). now repeat split.
Qed.

(** ** A recipe whose id is None *)

Lemma upsert_recipe_row_null (new : recipe_row) (rows : list recipe_row) :
  r_id new = SNull -> upsert_recipe_row new rows = (rows ++ [new])%list.
Proof.
  intros Hid. induction rows as [| old rest IH]; simpl; [reflexivity |].
  rewrite Hid. destruct (r_id old); simpl; now rewrite IH.
Qed.

Lemma filter_true {A : Type} (l : list A) : filter (fun _ => true) l = l.
Proof. induction l as [| x l IH]; simpl; [reflexivity | now rewrite IH]. Qed.

(** The steps of [_upsert_recipe] before the loop, when the id is None:
    the row is appended, and the DELETE removes nothing. *)
Lemma upsert_recipe_null_id recipe items db trace0 :
  has_schema db = true ->
  RecipeInDb_id recipe = Ok JNull ->
  shaped_titles (dict_get (data recipe) "localizedTitle" JNull) = true ->
  dict_get (data recipe) "ingredients" (JArr []) = JArr items ->
  exists row c1,
    _upsert_recipe recipe (Connection db None trace0)
    = link_ingredients JNull 0 items c1 /\
    r_id row = SNull /\
    r_date row = isoformat (rdate recipe) /\
    r_raw_json row = json_dumps (JObj (data recipe)) /\
    current c1 = Database true (recipes db ++ [row])%list (ingredients db)
                   (recipe_ingredients db).
Proof.
  intros Hs Hid Htitles Hitems.
  destruct (shaped_titles_ok _ Htitles) as [lt [lt' [Hlt Hlt']]].
  unfold _upsert_recipe.
  unfold bind at 1. unfold lift at 1. rewrite Hid.
  unfold bind at 1. unfold lift at 1. rewrite Hlt.
  unfold bind at 1. unfold execute_write at 1.
  unfold sql_insert_recipe, recipe_row_of.
  cbn [bind_param result_bind text_affinity current pending on_disk].
  rewrite Hs, Hlt'. cbn [result_bind].
  unfold bind at 1. unfold execute_write at 1.
  cbn [current pending on_disk set_recipes has_schema]. rewrite Hs.
  unfold sql_delete_links. cbn [bind_param result_bind].
  unfold bind at 1. unfold lift at 1. rewrite Hitems. cbn [py_iter].
  exists {| r_id := SNull;
            r_date := isoformat (rdate recipe);
            r_title := localized_map text_affinity lt';
            r_raw_json := json_dumps (JObj (data recipe)) |}.
  eexists. split; [reflexivity |].
  split; [reflexivity |]. split; [reflexivity |]. split; [reflexivity |].
  unfold current, set_recipe_ingredients. simpl.
  rewrite upsert_recipe_row_null by reflexivity.
  rewrite filter_true. now rewrite Hs.
Qed.

(** X18: a recipe whose [_id.$oid] is None.  The recipes table takes a
    NULL id and NULL never conflicts, so on a repository with its tables
    an [add] of such a recipe without ingredients returns and appends a
    row with a NULL id, whatever rows are there, also rows of earlier adds
    of the same recipe; no [get] finds it.  With a first ingredient of the
    expected shape the link cannot be inserted: [add] raises
    sqlite3.IntegrityError and stores nothing. *)
Theorem null_id_is_never_replaced
    (recipe : RecipeInDb) (items : list json) (w : world) (db : database) :
  db_file w = Some db -> has_schema db = true ->
  RecipeInDb_id recipe = Ok JNull ->
  shaped_titles (dict_get (data recipe) "localizedTitle" JNull) = true ->
  dict_get (data recipe) "ingredients" (JArr []) = JArr items ->
  (items = [] ->
   exists row,
     fst (add recipe w) = Ok tt /\
     r_id row = SNull /\
     r_date row = isoformat (rdate recipe) /\
     r_raw_json row = json_dumps (JObj (data recipe)) /\
     opened (snd (add recipe w))
     = Database true (recipes db ++ [row])%list (ingredients db) (recipe_ingredients db) /\
     forall s, has_recipe s (opened (snd (add recipe w))) = has_recipe s db) /\
  (forall item rest,
      items = item :: rest -> shaped_entry item = true -> keyless item = false ->
      fst (add recipe w) = Raise SqlIntegrityError /\
      db_file (snd (add recipe w)) = Some db).
Proof.
  intros Hdb Hs Hid Htitles Hitems.
  destruct (upsert_recipe_null_id recipe items db (log (create_backup w))
              Hs Hid Htitles Hitems) as [row [c1 [Hrun [Hrid [Hdate [Hraw Hc1]]]]]].
  assert (Hadd : add recipe w
                 = _connect (fun _ => link_ingredients JNull 0 items c1) (create_backup w)).
  { unfold add, _connect. fold (opened (create_backup w)).
    rewrite opened_create_backup, (opened_some w db Hdb), Hrun. reflexivity. }
  split.
  - intros ->. exists row. rewrite Hadd. unfold _connect. cbn [link_ingredients ret fst snd].
    split; [reflexivity |]. split; [exact Hrid |]. split; [exact Hdate |].
    split; [exact Hraw |].
    assert (Ho : opened {| db_file := Some (on_disk (commit c1));
                           backup_file := backup_file (create_backup w);
                           log := trace (commit c1) |} = current c1).
    { unfold opened, commit, current. simpl. now destruct (pending c1). }
    rewrite Ho, Hc1. split; [reflexivity |].
    intros s. unfold has_recipe. simpl. rewrite existsb_app. simpl.
    unfold id_is at 2. rewrite Hrid. simpl. now rewrite !orb_false_r.
  - intros item rest -> Hitem Ek.
    assert (Hloop : fst (link_ingredients JNull 0 (item :: rest) c1)
                    = Raise SqlIntegrityError).
    { destruct item as [| | | | | e]; try discriminate.
      cbn [link_ingredients py_get]. unfold bind at 1. unfold lift at 1.
      simpl in Hitem, Ek. apply andb_prop in Hitem. destruct Hitem as [Hitem Hm].
      apply andb_prop in Hitem. destruct Hitem as [Hd Hq].
      destruct (shaped_details_row _ Hd Ek) as [irow Hirow].
      assert (Hs1 : has_schema (current c1) = true) by now rewrite Hc1.
      destruct (upsert_ingredient_runs _ c1 irow Hirow Hs1) as [c2 [Hup Hc2]].
      unfold bind at 1. rewrite Hup.
      unfold bind at 1. unfold lift at 1.
      unfold bind at 1. unfold lift at 1.
      apply bindable_ok in Hq, Hm. destruct Hq as [q Hq], Hm as [m Hm].
      assert (Hs2 : has_schema (current c2) = true) by now rewrite Hc2.
      unfold bind at 1. unfold execute_write at 1. rewrite Hs2.
      unfold sql_insert_link. cbn [bind_param result_bind text_affinity].
      rewrite Hq, Hm. reflexivity. }
    assert (Hfst : fst (add recipe w) = Raise SqlIntegrityError).
    { rewrite Hadd. unfold _connect.
      destruct (link_ingredients JNull 0 (item :: rest) c1) as [[[] | e] c2];
        simpl in *; [discriminate | exact Hloop]. }
    split; [exact Hfst |].
    destruct (add recipe w) as [res w'] eqn:E. simpl in Hfst. subst res.
    unfold add in E.
    destruct (connect_raise _ _ _ _ (tidy_upsert_recipe recipe) E) as [Hf _].
    cbn [snd]. now rewrite Hf, opened_create_backup, (opened_some w db Hdb).
Qed.

(** ** The positions of the links *)

Lemma hoare_ret {A : Type} (P : database -> Prop) (a : A) (Q : A -> database -> Prop) R :
  (forall db, P db -> Q a db) -> hoare P (ret a) Q R.
Proof. intros H c Hc. now apply H. Qed.

Lemma hoare_lift {A : Type} (P : database -> Prop) (r : result A) (R : database -> Prop) :
  (forall db, P db -> R db) -> hoare P (lift r) (fun _ => P) R.
Proof. intros H c Hc. unfold lift. destruct r; [exact Hc | now apply H]. Qed.

Lemma hoare_bind {A B : Type} (P : database -> Prop) (m : DB A) (k : A -> DB B)
    (Q : A -> database -> Prop) (Q' : B -> database -> Prop) (R : database -> Prop) :
  hoare P m Q R -> (forall a, hoare (Q a) (k a) Q' R) -> hoare P (bind m k) Q' R.
Proof.
  intros Hm Hk c Hc. unfold bind. specialize (Hm c Hc).
  destruct (m c) as [[a | e] c1]; [now apply Hk | exact Hm].
Qed.

Lemma hoare_execute_write (P : database -> Prop) s run (Q : unit -> database -> Prop) R :
  (forall db db', P db -> run db = Ok db' -> Q tt db') ->
  (forall db, P db -> R db) ->
  hoare P (execute_write s run) Q R.
Proof.
  intros Hok Hraise c Hc. unfold execute_write.
  destruct (has_schema (current c)); [| now apply Hraise].
  destruct (run (current c)) as [db' | e] eqn:E.
  - now apply (Hok (current c)).
  - now apply Hraise.
Qed.

Lemma hoare_keeps {X A : Type} (f : database -> X) (P : database -> Prop) (m : DB A) R :
  keeps f m -> (forall db db', f db' = f db -> P db -> P db') ->
  (forall db, P db -> R db) ->
  hoare P m (fun _ => P) R.
Proof.
  intros Hk Hf HR c Hc. specialize (Hk c).
  destruct (m c) as [[a | e] c1]; simpl in Hk.
  - now apply (Hf (current c)).
  - apply HR. now apply (Hf (current c)).
Qed.

Lemma hoare_preserves {A : Type} (I : database -> Prop) (m : DB A) :
  hoare I m (fun _ => I) I -> preserves I m.
Proof.
  intros H c Hc. specialize (H c Hc). now destruct (m c) as [[a | e] c1].
Qed.

Lemma positions_same_links (db db' : database) :
  recipe_ingredients db' = recipe_ingredients db ->
  positions_in_order db -> positions_in_order db'.
Proof. unfold positions_in_order, links_of. now intros ->. Qed.

Lemma linked_same_links recipe_id position (db db' : database) :
  recipe_ingredients db' = recipe_ingredients db ->
  linked_up_to recipe_id position db -> linked_up_to recipe_id position db'.
Proof. unfold linked_up_to, positions_in_order, links_of. now intros ->. Qed.

Lemma link_target_text recipe_id i rid :
  bind_param recipe_id = Ok i -> text_affinity i = SText rid ->
  link_target recipe_id = Some rid.
Proof. unfold link_target. now intros -> ->. Qed.

Lemma positions_below rid position rows :
  map l_position (filter (link_of_recipe (SText rid)) rows)
  = seq 0 (List.length (filter (link_of_recipe (SText rid)) rows)) ->
  List.length (filter (link_of_recipe (SText rid)) rows) = position ->
  below rid position rows.
Proof.
  intros Hpos Hlen l Hin Hrid.
  assert (Hl : In l (filter (link_of_recipe (SText rid)) rows)).
  { apply filter_In. split; [exact Hin |]. unfold link_of_recipe. simpl.
    rewrite Hrid. apply String.eqb_refl. }
  apply (in_map l_position) in Hl. rewrite Hpos, Hlen in Hl.
  apply in_seq in Hl. lia.
Qed.

(** A link inserted at the next position of its recipe. *)
Lemma insert_link_positions recipe_id k q m position db db' :
  linked_up_to recipe_id position db ->
  sql_insert_link recipe_id k q m position db = Ok db' ->
  linked_up_to recipe_id (S position) db'.
Proof.
  intros [Hpos Hlen] H. unfold sql_insert_link in H. result_inv H.
  destruct (text_affinity v) as [| | rid] eqn:Et; try discriminate.
  destruct (has_recipe rid db && has_ingredient k db); try discriminate.
  inversion H; subst db'. clear H.
  pose proof (link_target_text recipe_id v rid Hv Et) as Htarget.
  specialize (Hlen rid Htarget).
  assert (Hnew : recipe_ingredients
                   (set_recipe_ingredients db
                      (upsert_link_row
                         (LinkRow rid k (real_affinity v0) (text_affinity v1) position)
                         (recipe_ingredients db)))
                 = (recipe_ingredients db
                    ++ [LinkRow rid k (real_affinity v0) (text_affinity v1) position])%list).
  { simpl. apply upsert_link_row_fresh. apply below_fresh.
    apply positions_below; [apply Hpos | exact Hlen]. }
  assert (Hof : forall r,
             links_of r (set_recipe_ingredients db
                           (upsert_link_row
                              (LinkRow rid k (real_affinity v0) (text_affinity v1) position)
                              (recipe_ingredients db)))
             = (links_of r db
                ++ if String.eqb rid r
                   then [LinkRow rid k (real_affinity v0) (text_affinity v1) position]
                   else [])%list).
  { intros r. unfold links_of. rewrite Hnew, filter_app. simpl.
    unfold link_of_recipe at 2. simpl. now destruct (String.eqb rid r). }
  split.
  - intros r. rewrite Hof. destruct (String.eqb rid r) eqn:E.
    + apply String.eqb_eq in E. subst r.
      rewrite map_app, length_app, Hpos, Hlen. simpl.
      now rewrite Nat.add_1_r, seq_S.
    + rewrite app_nil_r. apply Hpos.
  - intros r Hr. rewrite Htarget in Hr. inversion Hr; subst r.
    rewrite Hof, String.eqb_refl, length_app, Hlen. simpl. lia.
Qed.

Lemma link_ingredients_positions recipe_id items :
  forall position,
    hoare (linked_up_to recipe_id position)
      (link_ingredients recipe_id position items)
      (fun _ => positions_in_order) positions_in_order.
Proof.
  assert (Hweak : forall position db,
             linked_up_to recipe_id position db -> positions_in_order db).
  { now intros position db [H _]. }
  induction items as [| ingredient rest IH]; intros position; simpl.
  - apply hoare_ret. apply Hweak.
  - eapply hoare_bind; [apply hoare_lift; apply Hweak | intros details].
    eapply hoare_bind.
    { apply (hoare_keeps recipe_ingredients).
      - apply upsert_ingredient_keeps_links.
      - intros db db'. apply linked_same_links.
      - apply Hweak. }
    intros k.
    eapply hoare_bind; [apply hoare_lift; apply Hweak | intros q].
    eapply hoare_bind; [apply hoare_lift; apply Hweak | intros m].
    apply hoare_bind with (Q := fun _ => linked_up_to recipe_id (S position));
      [| intros []; apply (IH (S position))].
    apply hoare_execute_write; [| apply Hweak].
    intros db db'. apply insert_link_positions.
Qed.

Lemma filter_filter_neg {A : Type} (p q : A -> bool) (l : list A) :
  (forall x, p x = true -> q x = false) ->
  filter p (filter (fun x => negb (q x)) l) = filter p l.
Proof.
  intros H. induction l as [| x l IH]; simpl; [reflexivity |].
  destruct (p x) eqn:E.
  - rewrite (H x E). simpl. now rewrite E, IH.
  - destruct (q x); simpl; [exact IH | now rewrite E, IH].
Qed.

Lemma filter_filter_out {A : Type} (p : A -> bool) (l : list A) :
  filter p (filter (fun x => negb (p x)) l) = [].
Proof.
  induction l as [| x l IH]; simpl; [reflexivity |].
  destruct (p x) eqn:E; simpl; [exact IH | now rewrite E, IH].
Qed.

(** After the DELETE the recipe has no link, and the links of the others
    are as before. *)
Lemma delete_links_positions recipe_id db db' :
  positions_in_order db ->
  sql_delete_links recipe_id db = Ok db' ->
  linked_up_to recipe_id 0 db'.
Proof.
  intros Hpos H. unfold sql_delete_links in H. result_inv H.
  inversion H; subst db'. clear H.
  assert (Hof : forall r,
             links_of r (set_recipe_ingredients db
                           (filter (fun l => negb (link_of_recipe v l))
                              (recipe_ingredients db)))
             = if link_of_recipe v (LinkRow r "" SNull SNull 0)
               then [] else links_of r db).
  { intros r. unfold links_of. simpl. unfold link_of_recipe at 3. simpl.
    destruct (text_affinity v) as [| | rid] eqn:Et.
    - apply filter_filter_neg. intros l _. unfold link_of_recipe. now rewrite Et.
    - apply filter_filter_neg. intros l _. unfold link_of_recipe. now rewrite Et.
    - destruct (String.eqb r rid) eqn:E.
      + apply String.eqb_eq in E. subst r.
        replace (fun l => negb (link_of_recipe v l))
          with (fun l => negb (link_of_recipe (SText rid) l)).
        * apply filter_filter_out.
        * unfold link_of_recipe. now rewrite Et.
      + apply filter_filter_neg. intros l Hl. unfold link_of_recipe in *.
        rewrite Et. simpl in Hl. apply String.eqb_eq in Hl. rewrite Hl. exact E. }
  split.
  - intros r. rewrite Hof.
    destruct (link_of_recipe v (LinkRow r "" SNull SNull 0)); [reflexivity | apply Hpos].
  - intros r Hr. rewrite Hof. unfold link_target in Hr. rewrite Hv in Hr.
    unfold link_of_recipe. simpl.
    destruct (text_affinity v) as [| | rid]; try discriminate.
    inversion Hr; subst r. now rewrite String.eqb_refl.
Qed.

Lemma upsert_recipe_positions recipe : preserves positions_in_order (_upsert_recipe recipe).
Proof.
  apply hoare_preserves. unfold _upsert_recipe.
  eapply hoare_bind; [apply hoare_lift; auto | intros recipe_id].
  eapply hoare_bind; [apply hoare_lift; auto | intros lt].
  eapply hoare_bind.
  { apply hoare_execute_write with (Q := fun _ => positions_in_order); [| auto].
    intros db db' Hpos H. apply insert_recipe_frame in H.
    destruct H as [_ [_ Hl]]. now apply (positions_same_links db). }
  intros [].
  eapply hoare_bind.
  { apply hoare_execute_write with (Q := fun _ => linked_up_to recipe_id 0); [| auto].
    intros db db'. apply delete_links_positions. }
  intros [].
  eapply hoare_bind; [apply hoare_lift; now intros db [H _] | intros items].
  apply link_ingredients_positions.
Qed.

Lemma upsert_each_positions rs : preserves positions_in_order (upsert_each rs).
Proof.
  induction rs as [| r rest IH]; simpl.
  - apply preserves_ret.
  - apply preserves_bind; [apply upsert_recipe_positions | intros _; exact IH].
Qed.

(** X19: in every world reached by any sequence of [add] and [add_list]
    calls, returning or raising, the links of every recipe sit at the
    positions 0, 1, 2, .. without gap or repetition, in the order of
    the table; so no two links share (recipe_id, position), the primary
    key of recipe_ingredients. *)
Theorem link_positions_are_contiguous (w : world) (rid : string) :
  reachable any_recipe w ->
  map l_position (links_of rid (opened w))
  = seq 0 (List.length (links_of rid (opened w))) /\
  NoDup (map l_position (links_of rid (opened w))).
Proof.
  intros Hreach.
  assert (H : positions_in_order (opened w)).
  { induction Hreach as [| w _ IH | r w _ _ IH | rs w _ _ IH].
    - intros r. reflexivity.
    - apply (positions_same_links (opened w)); [| exact IH].
      now rewrite (opened_some _ _ (init_file w)).
    - destruct (connect_invariant positions_in_order (_upsert_recipe r) (create_backup w)
                  (tidy_upsert_recipe r) (upsert_recipe_positions r)) as [db [Hf Hd]].
      + now rewrite opened_create_backup.
      + unfold add. now rewrite (opened_some _ _ Hf).
    - destruct (connect_invariant positions_in_order (upsert_each rs) (create_backup w)
                  (tidy_upsert_each rs) (upsert_each_positions rs)) as [db [Hf Hd]].
      + now rewrite opened_create_backup.
      + unfold add_list. now rewrite (opened_some _ _ Hf). }
  split; [apply H |]. rewrite (H rid). apply seq_NoDup.
Qed.

(** ** The form of a derived key *)

Lemma lower_char_not_upper (c : ascii) : is_upper (lower_char c) = false.
Proof. destruct c as [[] [] [] [] [] [] [] []]; reflexivity. Qed.

Lemma lower_char_space (c : ascii) : is_space (lower_char c) = is_space c.
Proof. destruct c as [[] [] [] [] [] [] [] []]; reflexivity. Qed.

Lemma lower_char_fixed (c : ascii) : is_upper c = false -> lower_char c = c.
Proof. unfold lower_char. now intros ->. Qed.

Lemma blank_lower (s : string) : blank (lower s) = blank s.
Proof.
  unfold blank. induction s as [| c rest IH]; simpl; [reflexivity |].
  now rewrite lower_char_space, IH.
Qed.

Lemma collapse_normal (s : string) :
  forall started gap, normal_key (collapse_from started gap (lower s)) = true.
Proof.
  unfold normal_key.
  induction s as [| c rest IH]; intros started gap; simpl; [reflexivity |].
  destruct (is_space (lower_char c)) eqn:E; [apply IH |].
  assert (Hc : key_char (lower_char c) = true).
  { unfold key_char. now rewrite E, lower_char_not_upper. }
  destruct gap; simpl; now rewrite Hc, IH.
Qed.

Lemma collapse_empty (s : string) :
  collapse_from false false s = EmptyString <-> blank s = true.
Proof.
  unfold blank. induction s as [| c rest IH]; simpl; [tauto |].
  destruct (is_space c); simpl; [exact IH |]. split; discriminate.
Qed.

Lemma normal_key_fixed (k : string) :
  normal_key k = true ->
  lower k = k /\ forall started, collapse_from started false k = k.
Proof.
  unfold normal_key. induction k as [| c rest IH]; simpl; [now split |].
  intros H. apply andb_prop in H. destruct H as [Hc Hrest].
  unfold key_char in Hc. apply andb_prop in Hc. destruct Hc as [Hs Hu].
  apply negb_true_iff in Hs, Hu. destruct (IH Hrest) as [Hl Hcol].
  split.
  - now rewrite (lower_char_fixed c Hu), Hl.
  - intros started. now rewrite Hs, Hcol.
Qed.

Lemma collapse_ascii (s : string) :
  is_ascii s = true ->
  forall started gap, is_ascii (collapse_from started gap s) = true.
Proof.
  unfold is_ascii. induction s as [| c rest IH]; simpl; [reflexivity |].
  intros H started gap. apply andb_prop in H. destruct H as [Hc Hrest].
  destruct (is_space c); [now apply IH |].
  destruct gap; simpl; now rewrite Hc, IH.
Qed.

Lemma key_of_first_title (d titles : dict) (s : string) :
  python_strings ->
  truthy (dict_get d "typ" JNull) = false ->
  dict_get d "localizedTitle" (JObj []) = JObj titles ->
  forallb text_or_null (titles_in_order titles) = true ->
  spec_first_title (titles_in_order titles) = Some s ->
  is_ascii s = true ->
  _canonical_ingredient_key (JObj d) = Ok (collapse_whitespace (lower s)).
Proof.
  intros Hpy Htyp Htitles Hshape Hfirst Hascii.
  unfold _canonical_ingredient_key, py_get. cbn [result_bind]. rewrite Htyp.
  cbn [result_bind]. rewrite Htitles.
  rewrite (key_from_titles_spec titles languages Hshape).
  fold (titles_in_order titles). rewrite Hfirst. now rewrite (ascii_key s Hpy Hascii).
Qed.

(** X20: the key derived from an ASCII title.  For an ingredient without
    a typ whose first non-empty title [s] is an ASCII text, the key is an
    ASCII text without whitespace and without upper-case letter; it is
    the empty text exactly when [s] is whitespace only (the later
    languages are then not consulted, and no error is raised); and a key
    that is not empty is its own key: the ingredient whose English title
    is the key resolves to the same row. *)
Theorem derived_key_is_normal_form (d titles : dict) (s : string) :
  python_strings ->
  truthy (dict_get d "typ" JNull) = false ->
  dict_get d "localizedTitle" (JObj []) = JObj titles ->
  forallb text_or_null (titles_in_order titles) = true ->
  spec_first_title (titles_in_order titles) = Some s ->
  is_ascii s = true ->
  exists k,
    _canonical_ingredient_key (JObj d) = Ok k /\
    is_ascii k = true /\
    normal_key k = true /\
    (k = EmptyString <-> blank s = true) /\
    (k <> EmptyString ->
     _canonical_ingredient_key (JObj [("localizedTitle", JObj [("en", JStr k)])]) = Ok k).
Proof.
  intros Hpy Htyp Htitles Hshape Hfirst Hascii.
  assert (Hk : is_ascii (collapse_whitespace (lower s)) = true).
  { apply collapse_ascii. now apply is_ascii_lower. }
  exists (collapse_whitespace (lower s)). split; [| split; [| split; [| split]]].
  - now apply (key_of_first_title d titles s).
  - exact Hk.
  - apply collapse_normal.
  - unfold collapse_whitespace. rewrite collapse_empty. now rewrite blank_lower.
  - intros Hne.
    pose proof (collapse_normal s false false) as Hnormal.
    fold (collapse_whitespace (lower s)) in Hnormal.
    destruct (normal_key_fixed _ Hnormal) as [Hl Hcol].
    remember (collapse_whitespace (lower s)) as k eqn:Ek. clear Ek.
    rewrite (key_of_first_title [("localizedTitle", JObj [("en", JStr k)])]
               [("en", JStr k)] k).
    + rewrite Hl. unfold collapse_whitespace. now rewrite Hcol.
    + exact Hpy.
    + reflexivity.
    + reflexivity.
    + reflexivity.
    + cbn. destruct (String.eqb k "") eqn:E; [| reflexivity].
      apply String.eqb_eq in E. contradiction.
    + exact Hk.
Qed.

End Repository.

(** * Examples: the repository on concrete recipes

    The parameters are instantiated with the concrete codec above. *)

Definition ADD := add print_json print_repr as_bound lower split.
Definition ADD_LIST := add_list print_json print_repr as_bound lower split.
Definition GET := get parse_json.
Definition LIST := list_recipes parse_json.

(** The ingredient of the repository's test suite. *)
Definition tomato : json :=
  JObj [("typ", JStr "tomato");
        ("localizedTitle", JObj [("de", JStr "Tomate"); ("en", JStr "Tomato")]);
        ("numberTitle", JObj [("de", JStr "Tomaten")]);
        ("category", JStr "vegetable")].

Definition olive_oil : json :=
  JObj [("localizedTitle", JObj [("en", JStr "  Olive   Oil ")])].

Definition entry (quantity : Z) (measure : string) (ingredient : json) : json :=
  JObj [("quantity", JNum quantity); ("measure", JStr measure);
        ("ingredient", ingredient)].

Definition oid (s : string) : string * json := ("_id", JObj [("$oid", JStr s)]).

Definition recipe1 : RecipeInDb :=
  mkRecipe (mkdate 2024 5 17)
    [oid "1"; ("ingredients", JArr [entry 1 "piece" tomato; entry 2 "spoon" olive_oil])].

Definition recipe2 : RecipeInDb :=
  mkRecipe (mkdate 2024 5 17) [oid "2"; ("ingredients", JArr [entry 2 "piece" tomato])].

(** A second version of recipe 1: another date, one ingredient only. *)
Definition recipe1' : RecipeInDb :=
  mkRecipe (mkdate 2024 5 18)
    [oid "1"; ("title", JStr "test"); ("ingredients", JArr [entry 3 "piece" tomato])].

(** A recipe whose second ingredient has neither a typ nor a title. *)
Definition recipe3 : RecipeInDb :=
  mkRecipe (mkdate 2024 5 17)
    [oid "3"; ("ingredients", JArr [entry 1 "piece" tomato; entry 1 "pinch" (JObj [])])].

(** An ingredient with an empty typ and an English title. *)
Definition salt : dict :=
  [("typ", JStr ""); ("localizedTitle", JObj [("en", JStr "Salt")])].

(** Two ingredients: one with no plural form, one whose plural form was
    recorded as an empty string. *)
Definition rice : json :=
  JObj [("typ", JStr "rice"); ("numberTitle", JObj [("en", JStr "")])].

Definition pepper : json := JObj [("typ", JStr "pepper")].

Definition recipe4 : RecipeInDb :=
  mkRecipe (mkdate 2024 5 19)
    [oid "4"; ("ingredients", JArr [entry 1 "cup" rice; entry 1 "pinch" pepper])].

(** A payload without the [_id] field. *)
Definition recipe_without_id : RecipeInDb :=
  mkRecipe (mkdate 2024 5 17) [("title", JStr "no id")].

(** A payload whose id is None, without ingredients. *)
Definition recipe_null_id : RecipeInDb :=
  mkRecipe (mkdate 2024 5 17) [("_id", JObj [("$oid", JNull)]); ("title", JStr "draft")].


(** A directory in which the constructor has just run. *)
Definition fresh : world := __init__ (World None None []).

Definition after1 : world := snd (ADD recipe1 fresh).
Definition after2 : world := snd (ADD recipe2 after1).
Definition after3 : world := snd (ADD recipe1' after2).
Definition after4 : world := snd (ADD recipe4 fresh).

(** A client for the examples: [parse_id] rejects the empty text, and
    only recipe 2 is known upstream. *)
Definition PARSE_ID (s : string) : result json :=
  if String.eqb s "" then Ok JNull else Ok (JArr [JStr "oid"; JStr s]).

Definition GET_BY_IDS (ids : list json) : result (list RecipeInDb) :=
  match ids with
  | [JArr [JStr "oid"; JStr "2"]] => Ok [recipe2]
  | _ => Ok []
  end.

Definition SEARCH := search_by_id print_json print_repr as_bound lower split unit PARSE_ID GET_BY_IDS.

(** [lower] and [split] are themselves functions that agree with
    [lower] and [split] on ASCII text. *)
Lemma ascii_strings : python_strings lower split.
Proof. intros s _. split; reflexivity. Qed.

Lemma valid_recipe1 : valid_input print_json parse_json recipe1.
Proof.
  split; [reflexivity | split; [exists "1"; reflexivity | vm_compute; reflexivity]].
Qed.

Lemma valid_recipe2 : valid_input print_json parse_json recipe2.
Proof.
  split; [reflexivity | split; [exists "2"; reflexivity | vm_compute; reflexivity]].
Qed.

Lemma valid_recipe1' : valid_input print_json parse_json recipe1'.
Proof.
  split; [reflexivity | split; [exists "1"; reflexivity | vm_compute; reflexivity]].
Qed.

Lemma reachable_after3 (P : RecipeInDb -> Prop) :
  P recipe1 -> P recipe2 -> P recipe1' ->
  reachable print_json print_repr as_bound lower split P after3.
Proof.
  intros H1 H2 H3. unfold after3, after2, after1, ADD.
  repeat (apply reach_add; [assumption |]). apply reach_new.
Qed.

(** The scenario of the test suite: two recipes with the same ingredient
    leave one ingredient row. *)
Example ingredients_are_reused :
  option_map (map (fun r => (key r, de (localized_title r), en (localized_title r))))
    (match fst (list_ingredients (snd (ADD_LIST [recipe2; recipe2] fresh))) with
     | Ok l => Some l
     | Raise _ => None
     end)
  = Some [("tomato", Some "Tomate", Some "Tomato")].
Proof. vm_compute. reflexivity. Qed.

(** C1, witness: recipe 1 added to a fresh repository and read back. *)
Lemma add_then_get_witness : fst (GET "1" after1) = Ok (Some recipe1).
Proof.
  apply (add_then_get print_json parse_json print_repr as_bound lower split recipe1 "1" fresh after1).
  - reflexivity.
  - reflexivity.
  - vm_compute. reflexivity.
  - vm_compute. reflexivity.
Defined.

(** C1, counterexample: recipe 3 is a JSON-representable payload with a
    string id and a valid date, and yet [add] raises for it, and [get]
    with its id finds nothing. *)
Lemma add_then_get_fails_on_keyless_ingredient :
  RecipeInDb_id recipe3 = Ok (JStr "3") /\
  valid_date (rdate recipe3) = true /\
  parse_json (print_json (JObj (data recipe3))) = Some (JObj (data recipe3)) /\
  fst (ADD recipe3 fresh) = Raise ValueError /\
  fst (GET "3" (snd (ADD recipe3 fresh))) = Ok None.
Proof. repeat split; vm_compute; reflexivity. Qed.

(** C2, witness: recipe 3 on the repository that holds recipe 1. *)
Lemma add_rejects_keyless_ingredient_witness :
  fst (ADD recipe3 after1) = Raise ValueError /\
  db_file (snd (ADD recipe3 after1)) = db_file after1.
Proof.
  apply (add_rejects_keyless_ingredient print_json print_repr as_bound lower split recipe3 "3"
           [entry 1 "piece" tomato; entry 1 "pinch" (JObj [])] after1);
    vm_compute; reflexivity.
Defined.

(** C3, witness: an ingredient without typ gets its key from the first
    non-empty title. *)
Lemma canonical_key_derivation_witness :
  _canonical_ingredient_key print_repr lower split olive_oil = Ok "olive_oil".
Proof.
  apply (proj1 (proj2 (canonical_key_derivation print_repr lower split
                         [("localizedTitle", JObj [("en", JStr "  Olive   Oil ")])]
                         [("en", JStr "  Olive   Oil ")] eq_refl eq_refl))
           ascii_strings eq_refl).
Defined.

(** C3, counterexample: this ingredient has a typ, the empty string, and
    its key is not that typ but the title. *)
Lemma canonical_key_ignores_empty_typ :
  lookup "typ" salt = Some (JStr "") /\
  _canonical_ingredient_key print_repr lower split (JObj salt) = Ok "salt".
Proof. split; reflexivity. Qed.


(** C5, witness: recipe 1 re-added with another date and one ingredient
    instead of two. *)
Lemma readd_replaces_recipe_and_links_witness :
  exists lt row items links,
    _localized_values (dict_get (data recipe1') "localizedTitle" JNull) = Ok lt /\
    recipe_row_of (JStr "1") (isoformat (rdate recipe1')) lt
      (print_json (JObj (data recipe1'))) = Ok row /\
    row = recipe_columns print_json "1" recipe1' /\
    (valid_date (rdate recipe1') = true ->
     fromisoformat (r_date row) = Ok (rdate recipe1')) /\
    filter (id_is "1") (recipes (opened after3)) = [row] /\
    py_iter (dict_get (data recipe1') "ingredients" (JArr [])) = Ok items /\
    link_rows_for print_repr as_bound lower split "1" 0 items = Ok links /\
    links_of "1" (opened after3) = links /\
    map l_position links = seq 0 (List.length items) /\
    links_of_others "1" (opened after3) = links_of_others "1" (opened after2) /\
    log after3 = (log after2 ++ effects_of_add items)%list.
Proof.
  apply (readd_replaces_recipe_and_links print_json print_repr as_bound lower split
           recipe1' "1" after2 after3).
  - unfold after2, after1, ADD.
    repeat (apply reach_add; [exact I |]). apply reach_new.
  - reflexivity.
  - vm_compute. reflexivity.
Defined.

(** C6, witness: three calls of [add], two recipes stored. *)
Lemma list_returns_all_sorted_witness :
  exists stored listed,
    Forall2 (stored_as print_json parse_json) stored (recipes (opened after3)) /\
    LIST after3 = (Ok listed, after3) /\
    Permutation stored listed /\
    StronglySorted (fun a b => listed_before a b = true) listed /\
    (recipes (opened after3) = [] -> listed = []).
Proof.
  apply (list_returns_all_sorted print_json parse_json print_repr as_bound lower split after3).
  apply reachable_after3.
  - exact valid_recipe1.
  - exact valid_recipe2.
  - exact valid_recipe1'.
Defined.

(** What [list] returns there: the later date first. *)
Example list_after3 : fst (LIST after3) = Ok [recipe1'; recipe2].
Proof. vm_compute. reflexivity. Qed.


(** Recipes of other dates do not count: two recipes are stored, of the
    17th and the 18th, and the 19th still needs to be synced. *)
Example other_dates_do_not_count :
  map r_date (recipes (opened after3)) = ["2024-05-18"; "2024-05-17"] /\
  fst (needs_to_be_synced (mkdate 2024 5 19) after3) = Ok true /\
  fst (needs_to_be_synced (mkdate 2024 5 18) after3) = Ok false /\
  fst (needs_to_be_synced (mkdate 2024 5 17) after3) = Ok false.
Proof. repeat split; vm_compute; reflexivity. Qed.

Example needs_to_be_synced_before_and_after :
  fst (needs_to_be_synced (mkdate 2024 5 17) fresh) = Ok true /\
  fst (needs_to_be_synced (mkdate 2024 5 17) after1) = Ok false.
Proof. split; vm_compute; reflexivity. Qed.

(** C8, witness. *)
Lemma list_ingredients_plural_forms_witness :
  exists rows recs,
    Permutation (ingredients (opened after4)) rows /\
    list_ingredients after4 = (Ok recs, after4) /\
    Forall2 reports rows recs.
Proof.
  apply (list_ingredients_plural_forms print_json print_repr as_bound lower split after4).
  unfold after4, ADD. apply reach_add; [exact I | apply reach_new].
Defined.

(** C8, counterexample: the plural form of rice was recorded as an empty
    string and that of pepper was never recorded; the table tells them
    apart, and [list_ingredients] returns both as absent. *)
Lemma plural_forms_are_not_told_apart :
  map (fun i => (i_key i, en (i_number_title i))) (ingredients (opened after4))
  = [("rice", SText ""); ("pepper", SNull)] /\
  option_map (map (fun r => (key r, number_title r)))
    (match fst (list_ingredients after4) with
     | Ok l => Some l
     | Raise _ => None
     end)
  = Some [("pepper", None); ("rice", None)].
Proof. split; vm_compute; reflexivity. Qed.

(** C9, witness: an [add] that raises and an [add_list] on a repository
    that holds recipe 1. *)
Lemma backup_precedes_every_write_witness :
  (backup_file (snd (ADD recipe3 after1)) = db_file after1 /\
   exists t, log (snd (ADD recipe3 after1)) = (log after1 ++ EvCopyBackup :: t)%list /\
             ~ In EvCopyBackup t) /\
  (backup_file (snd (ADD_LIST [recipe2; recipe1'] after1)) = db_file after1 /\
   exists t, log (snd (ADD_LIST [recipe2; recipe1'] after1))
             = (log after1 ++ EvCopyBackup :: t)%list /\
             ~ In EvCopyBackup t).
Proof.
  apply (backup_precedes_every_write print_json print_repr as_bound lower split
           recipe3 [recipe2; recipe1'] after1 (opened after1)).
  reflexivity.
Defined.

(** C10, witness: a batch whose second recipe is malformed. *)
Lemma add_list_all_or_nothing_witness :
  fst (ADD_LIST [recipe2; recipe3; recipe1'] after1) = Raise ValueError /\
  db_file (snd (ADD_LIST [recipe2; recipe3; recipe1'] after1)) = db_file after1.
Proof.
  pose (c0 := Connection (opened after1) None (log (create_backup after1))).
  apply (proj2 (add_list_all_or_nothing print_json print_repr as_bound lower split
                  [recipe2; recipe3; recipe1'] after1 (opened after1) eq_refl)
           [recipe2] recipe3 [recipe1']
           (snd (upsert_each print_json print_repr as_bound lower split [recipe2] c0))
           ValueError
           (snd (_upsert_recipe print_json print_repr as_bound lower split recipe3
                   (snd (upsert_each print_json print_repr as_bound lower split [recipe2] c0))))).
  - reflexivity.
  - vm_compute. reflexivity.
  - vm_compute. reflexivity.
Defined.

(** X1, witness: recipe 1 on a fresh repository. *)
Lemma add_accepts_shaped_recipe_witness : fst (ADD recipe1 fresh) = Ok tt.
Proof.
  apply (add_accepts_shaped_recipe print_json print_repr as_bound lower split recipe1 "1"
           [entry 1 "piece" tomato; entry 2 "spoon" olive_oil] fresh (opened fresh));
    vm_compute; reflexivity.
Defined.

(** X2, witness. *)
Lemma reads_change_nothing_witness :
  snd (LIST after3) = after3 /\
  snd (GET "2" after3) = after3 /\
  snd (list_ingredients after3) = after3 /\
  snd (needs_to_be_synced (mkdate 2024 5 18) after3) = after3.
Proof.
  apply (reads_change_nothing parse_json after3 (opened after3)); reflexivity.
Defined.

(** X3, witness: the last day of a year and the first of the next. *)
Lemma iso_text_orders_dates_witness :
  String.compare (isoformat (mkdate 999 12 31)) (isoformat (mkdate 1000 1 1))
  = date_compare (mkdate 999 12 31) (mkdate 1000 1 1) /\
  fromisoformat (isoformat (mkdate 999 12 31)) = Ok (mkdate 999 12 31) /\
  (isoformat (mkdate 999 12 31) = isoformat (mkdate 1000 1 1) ->
   mkdate 999 12 31 = mkdate 1000 1 1).
Proof.
  apply (iso_text_orders_dates (mkdate 999 12 31) (mkdate 1000 1 1)); reflexivity.
Defined.

(** X4, witness: a payload without an id raises KeyError and stores
    nothing. *)
Lemma add_raising_stores_nothing_witness :
  db_file (snd (ADD recipe_without_id after1)) = Some (opened after1) /\
  backup_file (snd (ADD recipe_without_id after1)) = Some (opened after1).
Proof.
  apply (add_raising_stores_nothing print_json print_repr as_bound lower split
           recipe_without_id after1 (snd (ADD recipe_without_id after1))
           (opened after1) KeyError); reflexivity.
Defined.

(** X5, witness: recipe 1 stays while recipe 2 and a failing batch are
    added. *)
Lemma recipes_are_never_lost_witness :
  has_recipe "1" (opened (snd (ADD recipe2 after1))) = true /\
  has_recipe "1" (opened (snd (ADD_LIST [recipe2; recipe3] after1))) = true /\
  (forall rid, RecipeInDb_id recipe2 = Ok (JStr rid) -> "1"%string <> rid ->
               filter (id_is "1") (recipes (opened (snd (ADD recipe2 after1))))
               = filter (id_is "1") (recipes (opened after1))).
Proof.
  apply (recipes_are_never_lost print_json print_repr as_bound lower split
           after1 "1" recipe2 [recipe2; recipe3]).
  reflexivity.
Defined.

(** X6, witness: the links after three additions. *)
Lemma links_name_existing_rows_witness :
  Forall (fun l => has_recipe (l_recipe_id l) (opened after3) = true /\
                   has_ingredient (l_ingredient_key l) (opened after3) = true)
    (recipe_ingredients (opened after3)).
Proof.
  apply Forall_forall.
  apply (links_name_existing_rows print_json print_repr as_bound lower split after3).
  apply reachable_after3; exact I.
Defined.

(** X7, witness: a hit and a miss after three additions. *)
Lemma get_finds_exactly_the_stored_witness :
  ((has_recipe "2" (opened after3) = false /\ GET "2" after3 = (Ok None, after3)) \/
   (exists r row,
       In row (recipes (opened after3)) /\ stored_as print_json parse_json r row /\
       id_text r = "2"%string /\
       has_recipe "2" (opened after3) = true /\ GET "2" after3 = (Ok (Some r), after3))) /\
  ((has_recipe "7" (opened after3) = false /\ GET "7" after3 = (Ok None, after3)) \/
   (exists r row,
       In row (recipes (opened after3)) /\ stored_as print_json parse_json r row /\
       id_text r = "7"%string /\
       has_recipe "7" (opened after3) = true /\ GET "7" after3 = (Ok (Some r), after3))).
Proof.
  split.
  - apply (get_finds_exactly_the_stored print_json parse_json print_repr as_bound lower split after3 "2").
    apply reachable_after3; [exact valid_recipe1 | exact valid_recipe2 | exact valid_recipe1'].
  - apply (get_finds_exactly_the_stored print_json parse_json print_repr as_bound lower split after3 "7").
    apply reachable_after3; [exact valid_recipe1 | exact valid_recipe2 | exact valid_recipe1'].
Defined.

(** X8, witness: the dict after three additions. *)
Lemma list_by_id_tabulates_get_witness :
  exists by_id listed,
    list_by_id parse_json after3 = (Ok by_id, after3) /\
    LIST after3 = (Ok listed, after3) /\
    map snd by_id = listed /\
    List.length by_id = List.length (recipes (opened after3)) /\
    forall s, fst (GET s after3) = Ok (dict_getitem (JStr s) by_id).
Proof.
  apply (list_by_id_tabulates_get print_json parse_json print_repr as_bound lower split after3).
  apply reachable_after3; [exact valid_recipe1 | exact valid_recipe2 | exact valid_recipe1'].
Defined.

(** X10, witness: the ingredients after three additions. *)
Lemma list_ingredients_sorted_witness :
  exists recs,
    list_ingredients after3 = (Ok recs, after3) /\
    Permutation (map i_key (ingredients (opened after3))) (map key recs) /\
    NoDup (map key recs) /\
    StronglySorted (fun a b => ingredient_listed_before a b = true) recs.
Proof.
  apply (list_ingredients_sorted print_json print_repr as_bound lower split after3).
  apply reachable_after3; exact I.
Defined.

(** X11, witness: the batch of the test suite with one recipe repeated. *)
Lemma add_list_counts_distinct_ids_witness :
  (forall s, has_recipe s (opened (snd (ADD_LIST [recipe1; recipe2; recipe1'] fresh)))
             = has_recipe s (opened fresh)
               || existsb (fun r => String.eqb (id_text r) s) [recipe1; recipe2; recipe1']) /\
  (recipes (opened fresh) = [] ->
   exists listed,
     LIST (snd (ADD_LIST [recipe1; recipe2; recipe1'] fresh))
     = (Ok listed, snd (ADD_LIST [recipe1; recipe2; recipe1'] fresh)) /\
     List.length listed
     = List.length (nodup string_dec (map id_text [recipe1; recipe2; recipe1']))).
Proof.
  apply (add_list_counts_distinct_ids print_json parse_json print_repr as_bound lower split
           [recipe1; recipe2; recipe1'] fresh
           (snd (ADD_LIST [recipe1; recipe2; recipe1'] fresh))).
  - apply reach_new.
  - apply Forall_cons; [exact valid_recipe1 |].
    apply Forall_cons; [exact valid_recipe2 |].
    apply Forall_cons; [exact valid_recipe1' | apply Forall_nil].
  - vm_compute. reflexivity.
Defined.

(** X12, witness: a directory in which no constructor has run. *)
Lemma operations_need_the_tables_witness :
  (exists e, fst (ADD recipe1 (World None None [])) = Raise e) /\
  (exists e, fst (ADD_LIST (recipe1 :: [recipe2]) (World None None [])) = Raise e) /\
  db_file (snd (ADD recipe1 (World None None []))) = Some (opened (World None None [])) /\
  db_file (snd (ADD_LIST (recipe1 :: [recipe2]) (World None None [])))
  = Some (opened (World None None [])) /\
  fst (LIST (World None None [])) = Raise SqlOperationalError /\
  fst (GET "1" (World None None [])) = Raise SqlOperationalError /\
  fst (list_ingredients (World None None [])) = Raise SqlOperationalError /\
  fst (needs_to_be_synced (mkdate 2024 5 17) (World None None [])) = Raise SqlOperationalError.
Proof.
  apply (operations_need_the_tables print_json parse_json print_repr as_bound lower split
           recipe1 [recipe2] "1" (mkdate 2024 5 17) (World None None [])).
  reflexivity.
Defined.

(** X14, witness: the page of a recipe that is not stored. *)
Lemma recipe_detail_answers_witness :
  db_file (snd (recipe_detail parse_json unit tt "7" after3)) = db_file after3 /\
  backup_file (snd (recipe_detail parse_json unit tt "7" after3)) = backup_file after3 /\
  ((has_recipe "7" (opened after3) = false /\
    fst (recipe_detail parse_json unit tt "7" after3)
    = HTTPException unit 404 "Recipe not found") \/
   (exists r row,
       In row (recipes (opened after3)) /\ stored_as print_json parse_json r row /\
       id_text r = "7"%string /\
       fst (recipe_detail parse_json unit tt "7" after3)
       = Returns unit
           (TemplateResponse unit "recipe.html"
              [("request", CRequest unit tt);
               ("recipe", CRecipe unit r);
               ("localized_title",
                CValue unit (dict_get (data r) "localizedTitle" (JObj [])));
               ("ingredients", CValue unit (dict_get (data r) "ingredients" (JArr [])));
               ("steps", CValue unit (dict_get (data r) "steps" (JArr [])))]))).
Proof.
  apply (recipe_detail_answers print_json parse_json print_repr as_bound lower split unit tt "7" after3).
  apply reachable_after3; [exact valid_recipe1 | exact valid_recipe2 | exact valid_recipe1'].
Defined.

(** X15, witness: an identifier that cannot be read, and one the client
    does not know. *)
Lemma search_by_id_guards_witness :
  SEARCH "" after1 = (HTTPException unit 400 "Could not parse recipe id", after1) /\
  SEARCH "9" after1 = (Returns unit (RedirectResponse unit "/" 303), after1) /\
  stores_all_or_nothing unit after1 (SEARCH "2" after1).
Proof.
  split; [| split].
  - apply (search_by_id_guards print_json print_repr as_bound lower split unit PARSE_ID GET_BY_IDS
             "" after1).
    reflexivity.
  - apply (proj1 (proj2 (search_by_id_guards print_json print_repr as_bound lower split unit
                           PARSE_ID GET_BY_IDS "9" after1))
             (JArr [JStr "oid"; JStr "9"])).
    + reflexivity.
    + discriminate.
    + reflexivity.
  - apply (search_by_id_guards print_json print_repr as_bound lower split unit PARSE_ID GET_BY_IDS
             "2" after1).
Defined.

(** X17, witness: the pages after three additions. *)
Lemma pages_render_what_is_stored_witness :
  (exists listed recs,
      LIST after3 = (Ok listed, after3) /\
      list_ingredients after3 = (Ok recs, after3) /\
      fst (home parse_json unit tt after3)
      = Returns unit
          (TemplateResponse unit "index.html"
             [("request", CRequest unit tt); ("recipes", CRecipes unit listed)]) /\
      fst (ingredients_page unit tt after3)
      = Returns unit
          (TemplateResponse unit "ingredients.html"
             [("request", CRequest unit tt); ("ingredients", CIngredients unit recs)]) /\
      db_file (snd (home parse_json unit tt after3)) = db_file after3 /\
      db_file (snd (ingredients_page unit tt after3)) = db_file after3) /\
  (forall w0 s, db_file w0 = None ->
      fst (home parse_json unit tt w0)
      = Returns unit
          (TemplateResponse unit "index.html"
             [("request", CRequest unit tt); ("recipes", CRecipes unit [])]) /\
      fst (ingredients_page unit tt w0)
      = Returns unit
          (TemplateResponse unit "ingredients.html"
             [("request", CRequest unit tt); ("ingredients", CIngredients unit [])]) /\
      fst (recipe_detail parse_json unit tt s w0)
      = HTTPException unit 404 "Recipe not found").
Proof.
  apply (pages_render_what_is_stored print_json parse_json print_repr as_bound lower split
           unit tt after3).
  apply reachable_after3; [exact valid_recipe1 | exact valid_recipe2 | exact valid_recipe1'].
Defined.

(** X18, witness: the recipe without an id is added twice, and is stored
    twice. *)
Lemma null_id_is_never_replaced_witness :
  exists row,
    fst (ADD recipe_null_id (snd (ADD recipe_null_id after1))) = Ok tt /\
    r_id row = SNull /\
    r_date row = isoformat (rdate recipe_null_id) /\
    r_raw_json row = print_json (JObj (data recipe_null_id)) /\
    opened (snd (ADD recipe_null_id (snd (ADD recipe_null_id after1))))
    = Database true
        (recipes (opened (snd (ADD recipe_null_id after1))) ++ [row])%list
        (ingredients (opened (snd (ADD recipe_null_id after1))))
        (recipe_ingredients (opened (snd (ADD recipe_null_id after1)))) /\
    forall s, has_recipe s (opened (snd (ADD recipe_null_id (snd (ADD recipe_null_id after1)))))
              = has_recipe s (opened (snd (ADD recipe_null_id after1))).
Proof.
  apply (proj1 (null_id_is_never_replaced print_json print_repr as_bound lower split
                  recipe_null_id [] (snd (ADD recipe_null_id after1))
                  (opened (snd (ADD recipe_null_id after1)))
                  eq_refl eq_refl eq_refl eq_refl eq_refl)).
  reflexivity.
Defined.

(** The row of the recipe without an id is there twice. *)
Example null_id_stored_twice :
  map r_id (recipes (opened (snd (ADD recipe_null_id (snd (ADD recipe_null_id after1))))))
  = [SText "1"; SNull; SNull].
Proof. vm_compute. reflexivity. Qed.

(** X19, witness: the links of recipe 1 after it was added twice. *)
Lemma link_positions_are_contiguous_witness :
  map l_position (links_of "1" (opened after3))
  = seq 0 (List.length (links_of "1" (opened after3))) /\
  NoDup (map l_position (links_of "1" (opened after3))).
Proof.
  apply (link_positions_are_contiguous print_json print_repr as_bound lower split after3 "1").
  apply reachable_after3; exact I.
Defined.

(** X20, witness: the key of an ingredient titled with spaces around and
    inside. *)
Lemma derived_key_is_normal_form_witness :
  exists k,
    _canonical_ingredient_key print_repr lower split olive_oil = Ok k /\
    is_ascii k = true /\
    normal_key k = true /\
    (k = EmptyString <-> blank "  Olive   Oil " = true) /\
    (k <> EmptyString ->
     _canonical_ingredient_key print_repr lower split
       (JObj [("localizedTitle", JObj [("en", JStr k)])]) = Ok k).
Proof.
  apply (derived_key_is_normal_form print_repr lower split
           [("localizedTitle", JObj [("en", JStr "  Olive   Oil ")])]
           [("en", JStr "  Olive   Oil ")] "  Olive   Oil " ascii_strings); reflexivity.
Defined.

(** A title of whitespace only gives the empty key, although a German
    title follows. *)
Example blank_title_gives_the_empty_key :
  _canonical_ingredient_key print_repr lower split
    (JObj [("localizedTitle", JObj [("en", JStr "  "); ("de", JStr "Tomate")])])
  = Ok EmptyString.
Proof. reflexivity. Qed.
